(** * Object-Identification-system: the statistics store and the frame loop

    A shallow embedding of [src/utils.py].

    - Python floats are modelled as exact rationals ([Q]); rounding is not
      modelled.
    - Python ints are [Z].
    - The module-level dict [_latest_stats] and the dicts it refers to are
      objects in a heap ([gmap loc pydict]); a dict keeps its insertion order.
    - [time.time()], the capture devices, the detector's invocation log and
      standard output are fields of an explicit [world] that every effectful
      function threads through a state-and-exception monad.
    - The generator [generate_frames] is a resumable state machine with the
      operations [gen_next] and [gen_close] of Python's generator protocol.
    - [cv2.resize], [cv2.rectangle] and [cv2.putText] raise [cv2.error] on
      the arguments they reject; the other [cv2] calls do not raise. *)

From Stdlib Require Import QArith Qround DecimalString ZifyNat.
From stdpp Require Import gmap strings list fin_maps.

Local Open Scope string_scope.

(** ** Python values and dicts *)

Abbreviation loc := positive.

Inductive value : Type :=
| VNone
| VFloat (q : Q)
| VInt (z : Z)
| VStr (s : string)
| VDict (l : loc).

Module PyDict.
Section Dict.
Context {V : Type}.

(** [d.get(k)] / [k in d] *)
Fixpoint get (k : string) (d : list (string * V)) : option V :=
  match d with
  | [] => None
  | (k', v) :: d' => if String.eqb k k' then Some v else get k d'
  end.

(** [d[k] = v]: an existing key keeps its position, a new key goes last. *)
Fixpoint set (k : string) (v : V) (d : list (string * V)) : list (string * V) :=
  match d with
  | [] => [(k, v)]
  | (k', v') :: d' =>
      if String.eqb k k' then (k', v) :: d' else (k', v') :: set k v d'
  end.

Definition keys (d : list (string * V)) : list string := map fst d.

End Dict.
End PyDict.

Abbreviation pydict := (list (string * value)).

(** ** Exceptions and the effect monad *)

Inductive exn : Type :=
| KeyError
| NameError
| TypeError
| ValueError
| GeneratorExit
| CvError.                       (* cv2.error *)

Inductive result (A : Type) : Type :=
| Ok (a : A)
| Raise (e : exn).
Arguments Ok {A} a.
Arguments Raise {A} e.

(** ** Images and detections

    The pixels are opaque to the program; an image is the term of the
    [cv2] calls that produced it from a frame delivered by the source. A
    frame has a number of rows and of columns, on which [cv2.resize]
    depends. *)

Record box : Type := Box {
  cls : Z;                       (* int(box.cls[0]) *)
  xyxy : Z * Z * Z * Z;          (* box.xyxy[0].cpu().numpy().astype(int) *)
  conf : Q                       (* float(box.conf[0]) *)
}.

(** One [Results] object of the detector, reduced to its [boxes]. *)
Record detection_result : Type := Result { boxes : list box }.

Inductive image : Type :=
| Frame (id : Z) (rows cols : Z)
| Rectangle (img : image) (pt1 pt2 : Z * Z)
| PutText (img : image) (cls_name : string) (confidence : Q) (org : Z * Z)
| Resize (img : image) (fx fy : Q).

(** A frame of 480 rows and 640 columns. *)
Definition Raw (id : Z) : image := Frame id 480 640.

(** ** The world *)

Inductive cap_prop : Type := CAP_PROP_BUFFERSIZE | CAP_PROP_FPS.

Record capture : Type := Capture {
  pending : list image;          (* frames the source will still deliver *)
  props : list (cap_prop * Z);   (* cap.set calls, latest first *)
  releases : nat                 (* number of cap.release() calls *)
}.

Record world : Type := World {
  heap : gmap loc pydict;        (* the dict objects *)
  clock : nat → Q;               (* the i-th call of time.time() returns clock i *)
  ticks : nat;                   (* calls of time.time() so far *)
  caps : gmap nat capture;       (* the VideoCapture handles *)
  model_calls : list image;      (* frames the detector was invoked on, latest first *)
  update_calls : list (Q * list (string * Z) * option string);
                                 (* arguments of the calls of _update_latest_stats,
                                    latest first *)
  stdout : list string           (* lines printed, latest first *)
}.

Definition set_heap (h : gmap loc pydict) (w : world) : world :=
  World h (clock w) (ticks w) (caps w) (model_calls w) (update_calls w) (stdout w).
Definition set_ticks (n : nat) (w : world) : world :=
  World (heap w) (clock w) n (caps w) (model_calls w) (update_calls w) (stdout w).
Definition set_caps (c : gmap nat capture) (w : world) : world :=
  World (heap w) (clock w) (ticks w) c (model_calls w) (update_calls w) (stdout w).
Definition set_model_calls (l : list image) (w : world) : world :=
  World (heap w) (clock w) (ticks w) (caps w) l (update_calls w) (stdout w).
Definition set_update_calls (l : list (Q * list (string * Z) * option string))
    (w : world) : world :=
  World (heap w) (clock w) (ticks w) (caps w) (model_calls w) l (stdout w).
Definition set_stdout (l : list string) (w : world) : world :=
  World (heap w) (clock w) (ticks w) (caps w) (model_calls w) (update_calls w) l.

Definition M (A : Type) : Type := world → result A * world.

Definition raise {A} (e : exn) : M A := λ w, (Raise e, w).

#[global] Instance M_ret : MRet M := λ A a w, (Ok a, w).
#[global] Instance M_bind : MBind M := λ A B k m w,
  match m w with
  | (Ok a, w') => k a w'
  | (Raise e, w') => (Raise e, w')
  end.

(** [time.time()] *)
Definition time_time : M Q :=
  λ w, (Ok (clock w (ticks w)), set_ticks (S (ticks w)) w).

(** A dict display or [dict(...)]: a new object. *)
Definition new_dict (d : pydict) : M loc :=
  λ w, let l := fresh (dom (heap w)) in
       (Ok l, set_heap (<[l := d]> (heap w)) w).

Definition load (l : loc) : M pydict :=
  λ w, match heap w !! l with
       | Some d => (Ok d, w)
       | None => (Raise NameError, w)
       end.

Definition store (l : loc) (d : pydict) : M unit :=
  λ w, (Ok tt, set_heap (<[l := d]> (heap w)) w).

(** [obj[k] = v] on the dict object at [l] *)
Definition setitem (l : loc) (k : string) (v : value) : M unit :=
  d ← load l;
  store l (PyDict.set k v d).

(** [obj.get(k, default)] *)
Definition dict_get_default (l : loc) (k : string) (dflt : value) : M value :=
  d ← load l;
  mret (default dflt (PyDict.get k d)).

(** [dict(v)]: a shallow copy of a dict; the other values of this program
    are not mappings. *)
Definition py_dict (v : value) : M loc :=
  match v with
  | VDict l => d ← load l; new_dict d
  | VStr "" => new_dict []
  | VStr _ => raise ValueError
  | _ => raise TypeError
  end.

(** ** Runtime state: the statistics store *)

(** The module-level name [_latest_stats] is bound to one dict object for
    the life of the process. *)
Definition _latest_stats : loc := 1%positive.

Definition initial_heap : gmap loc pydict :=
  <[_latest_stats := [("fps", VFloat 0); ("counts", VDict 2%positive);
                      ("last_update_ts", VFloat 0); ("alert", VDict 3%positive)]]>
  (<[2%positive := []]>
  (<[3%positive := [("message", VStr ""); ("ts", VFloat 0)]]> ∅)).

(** Truth value of [alert_message]: [None] and [""] are false. *)
Definition truthy (m : option string) : bool :=
  match m with
  | None => false
  | Some "" => false
  | Some _ => true
  end.

Definition counts_values (counts : list (string * Z)) : pydict :=
  map (λ kv, (fst kv, VInt (snd kv))) counts.

(** Entry of the call log; not part of the program. *)
Definition log_update (fps : Q) (counts : list (string * Z))
    (alert_message : option string) : M unit :=
  λ w, (Ok tt, set_update_calls ((fps, counts, alert_message) :: update_calls w) w).

Definition _update_latest_stats (fps : Q) (counts : list (string * Z))
    (alert_message : option string) : M unit :=
  log_update fps counts alert_message;;
  setitem _latest_stats "fps" (VFloat fps);;
  c ← new_dict (counts_values counts);
  setitem _latest_stats "counts" (VDict c);;
  now ← time_time;
  setitem _latest_stats "last_update_ts" (VFloat now);;
  if truthy alert_message then
    now' ← time_time;
    a ← new_dict [("message", VStr (default "" alert_message)); ("ts", VFloat now')];
    setitem _latest_stats "alert" (VDict a)
  else mret tt.

Definition _set_alert (message : value) : M unit :=
  now ← time_time;
  a ← new_dict [("message", message); ("ts", VFloat now)];
  setitem _latest_stats "alert" (VDict a).

Definition get_latest_stats : M loc :=
  fps ← dict_get_default _latest_stats "fps" (VFloat 0);
  d0 ← new_dict [];
  c ← dict_get_default _latest_stats "counts" (VDict d0);
  c' ← py_dict c;
  ts ← dict_get_default _latest_stats "last_update_ts" (VFloat 0);
  a0 ← new_dict [("message", VStr ""); ("ts", VFloat 0)];
  a ← dict_get_default _latest_stats "alert" (VDict a0);
  a' ← py_dict a;
  new_dict [("fps", fps); ("counts", VDict c');
            ("last_update_ts", ts); ("alert", VDict a')].

(** ** Config *)

Definition allowed_classes : list string :=
  ["person"; "car"; "dog"; "cat"; "bicycle"; "motorcycle"; "bus";
   "truck"; "traffic light"; "fire hydrant"; "stop sign";
   "parking meter"; "bird"; "horse"; "sheep"; "cow"].

(** [name in allowed_classes] *)
Definition in_list (s : string) (l : list string) : bool :=
  existsb (String.eqb s) l.

(** ** The [cv2] calls that can raise

    [cv2.rectangle] and [cv2.putText] take their points as C [int]s and
    raise [cv2.error] when a coordinate does not fit. [cv2.resize] with
    [dsize = (0, 0)] raises [cv2.error] unless the image is not empty,
    both factors are positive and the rounded size is positive in both
    directions and fits a C [int]. Running out of memory is not
    modelled. *)

Definition INT_MIN : Z := (-2147483648)%Z.
Definition INT_MAX : Z := 2147483647%Z.

Definition c_int (z : Z) : bool := (INT_MIN <=? z)%Z && (z <=? INT_MAX)%Z.

(** [cvRound]: the nearest integer, a half going to the even one. *)
Definition cvRound (q : Q) : Z :=
  let f := Qfloor q in
  let r := (q - inject_Z f)%Q in
  if Qle_bool r (1 # 2) then
    if Qeq_bool r (1 # 2) then (if Z.even f then f else f + 1)%Z else f
  else (f + 1)%Z.

(** [img.shape[:2]]: rows and columns. *)
Fixpoint shape (img : image) : Z * Z :=
  match img with
  | Frame _ rows cols => (rows, cols)
  | Rectangle i _ _ => shape i
  | PutText i _ _ _ => shape i
  | Resize i fx fy =>
      (cvRound (inject_Z (fst (shape i)) * fy), cvRound (inject_Z (snd (shape i)) * fx))
  end.

Definition resize_ok (img : image) (fx fy : Q) : bool :=
  let '(rows, cols) := shape img in
  (0 <? rows)%Z && (0 <? cols)%Z &&
  negb (Qle_bool fx 0) && negb (Qle_bool fy 0) &&
  (0 <? cvRound (inject_Z cols * fx))%Z && (cvRound (inject_Z cols * fx) <=? INT_MAX)%Z &&
  (0 <? cvRound (inject_Z rows * fy))%Z && (cvRound (inject_Z rows * fy) <=? INT_MAX)%Z.

(** [cv2.resize(img, (0, 0), fx=fx, fy=fy)] *)
Definition cv2_resize (img : image) (fx fy : Q) : result image :=
  if resize_ok img fx fy then Ok (Resize img fx fy) else Raise CvError.

(** [cv2.rectangle(img, pt1, pt2, (0, 255, 0), 2)] *)
Definition cv2_rectangle (img : image) (pt1 pt2 : Z * Z) : result image :=
  if c_int (fst pt1) && c_int (snd pt1) && c_int (fst pt2) && c_int (snd pt2)
  then Ok (Rectangle img pt1 pt2) else Raise CvError.

(** [cv2.putText(img, f"{cls_name} {confidence:.2f}", org,
    cv2.FONT_HERSHEY_SIMPLEX, 0.7, (0, 255, 0), 2)] *)
Definition cv2_putText (img : image) (cls_name : string) (confidence : Q)
    (org : Z * Z) : result image :=
  if c_int (fst org) && c_int (snd org)
  then Ok (PutText img cls_name confidence org) else Raise CvError.

(** ** The detector *)

(** The YOLO object as the program uses it: the dict [model.names] and the
    call [model(frame, verbose=False, imgsz=480)]. *)
Record Model : Type := {
  names : gmap Z string;
  predict : image → list detection_result
}.

Definition lift {A} (r : result A) : M A := λ w, (r, w).

#[global] Instance result_ret : MRet result := λ A a, Ok a.
#[global] Instance result_bind : MBind result := λ A B k m,
  match m with
  | Ok a => k a
  | Raise e => Raise e
  end.

(** [model.names[cls_id]] *)
Definition names_getitem (model : Model) (cls_id : Z) : result string :=
  match names model !! cls_id with
  | Some s => Ok s
  | None => Raise KeyError
  end.

Definition is_allowed_class (model : Model) (cls_id : Z) : result bool :=
  cls_name ← names_getitem model cls_id;
  mret (in_list cls_name allowed_classes).

(** Sequential [for] loop over a list with an accumulator. *)
Fixpoint for_each {A B} (f : A → B → result A) (l : list B) (a : A) : result A :=
  match l with
  | [] => Ok a
  | x :: l' => a' ← f a x; for_each f l' a'
  end.

(** The body of the inner loop of [draw_boxes]. *)
Definition draw_box (model : Model) (frame : image) (b : box) : result image :=
  let cls_id := cls b in
  cls_name ← names_getitem model cls_id;
  allowed ← is_allowed_class model cls_id;
  if negb allowed then mret frame
  else
    let '(x1, y1, x2, y2) := xyxy b in
    frame ← cv2_rectangle frame (x1, y1) (x2, y2);
    frame ← cv2_putText frame cls_name (conf b) (x1, y1 - 10)%Z;
    mret frame.

Definition draw_boxes (frame : image) (results : list detection_result)
    (model : Model) : result image :=
  for_each (λ fr r, for_each (draw_box model) (boxes r) fr) results frame.

(** ** The frame loop *)

Definition Qgtb (a b : Q) : bool := negb (Qle_bool a b).

(** [max(a, b)] of two floats: [b] only when [b > a]. *)
Definition py_max (a b : Q) : Q := if Qgtb b a then b else a.

(** [str(n)] of an int *)
Definition str_of_int (n : Z) : string := NilZero.string_of_int (Z.to_int n).

(** The body of the counting loop. *)
Definition count_box (model : Model) (counts : list (string * Z)) (b : box)
    : result (list (string * Z)) :=
  let cls_id := cls b in
  allowed ← is_allowed_class model cls_id;
  if negb allowed then mret counts
  else
    cls_name ← names_getitem model cls_id;
    mret (PyDict.set cls_name (default 0%Z (PyDict.get cls_name counts) + 1)%Z counts).

Definition count_boxes (model : Model) (results : list detection_result)
    : result (list (string * Z)) :=
  for_each (λ counts r, for_each (count_box model) (boxes r) counts) results [].

(** [max(items, key=lambda x: x[1])] with a running best: a later item
    replaces it only when its count is strictly greater. *)
Fixpoint max_by_count (best : string * Z) (items : list (string * Z)) : string * Z :=
  match items with
  | [] => best
  | x :: items' => max_by_count (if (snd best <? snd x)%Z then x else best) items'
  end.

Definition py_max_items (counts : list (string * Z)) : result (string * Z) :=
  match counts with
  | [] => Raise ValueError
  | x :: items => Ok (max_by_count x items)
  end.

(** [counts[k]] *)
Definition counts_getitem (counts : list (string * Z)) (k : string) : result Z :=
  match PyDict.get k counts with
  | Some n => Ok n
  | None => Raise KeyError
  end.

Definition print (line : string) : M unit :=
  λ w, (Ok tt, set_stdout (line :: stdout w) w).

Definition call_model (model : Model) (frame : image) : M (list detection_result) :=
  λ w, (Ok (predict model frame), set_model_calls (frame :: model_calls w) w).

(** [cv2.VideoCapture(source)]: the source is given by the frames it will
    deliver; a source that cannot be opened delivers none. *)
Definition VideoCapture (source : list image) : M nat :=
  λ w, let h := fresh (dom (caps w)) in
       (Ok h, set_caps (<[h := Capture source [] 0]> (caps w)) w).

Definition with_cap {A} (h : nat) (f : capture → A * capture) : M A :=
  λ w, match caps w !! h with
       | Some c => let '(a, c') := f c in (Ok a, set_caps (<[h := c']> (caps w)) w)
       | None => (Raise NameError, w)
       end.

Definition cap_set (h : nat) (p : cap_prop) (v : Z) : M unit :=
  with_cap h (λ c, (tt, Capture (pending c) ((p, v) :: props c) (releases c))).

(** [cap.read()]: [None] stands for [ret] false. *)
Definition cap_read (h : nat) : M (option image) :=
  with_cap h (λ c, match pending c with
                   | [] => (None, c)
                   | f :: fs => (Some f, Capture fs (props c) (releases c))
                   end).

Definition cap_release (h : nat) : M unit :=
  with_cap h (λ c, (tt, Capture [] (props c) (S (releases c)))).

(** The local variables of [generate_frames] that live across iterations. *)
Record locals : Type := Locals {
  model : Model;
  scale : Q;
  cap : nat;
  frame_count : Z;
  last_results : option (list detection_result);
  smoothed_fps : Q;
  last_alert_time : Q
}.

Definition alert_cooldown : Q := 3.

(** One multipart chunk: the boundary line, the part header, the JPEG
    encoding of [payload] ([cv2.imencode('.jpg', frame)]) and the final
    line break. *)
Record chunk : Type := Chunk {
  header : string;
  payload : image;
  trailer : string
}.

Definition CRLF : string :=
  String (Ascii.ascii_of_nat 13) (String (Ascii.ascii_of_nat 10) EmptyString).

Definition multipart (frame : image) : chunk :=
  Chunk ("--frame" ++ CRLF ++ "Content-Type: image/jpeg" ++ CRLF ++ CRLF) frame CRLF.

(** Lines 107-117: everything before the loop. *)
Definition prologue (model : Model) (source : list image) (scale : Q) : M locals :=
  cap ← VideoCapture source;
  cap_set cap CAP_PROP_BUFFERSIZE 1;;
  cap_set cap CAP_PROP_FPS 15;;
  mret (Locals model scale cap 0 None 0 0).

(** Lines 149-165: the alert decision; returns [alert_message] and the new
    [last_alert_time]. *)
Definition alert_policy (counts : list (string * Z)) (last_alert_time : Q)
    : M (option string * Q) :=
  match counts with
  | _ :: _ =>
      current_time ← time_time;
      item ← lift (py_max_items counts);
      let detected_class := fst item in
      count ← lift (counts_getitem counts detected_class);
      print ("Detected " ++ str_of_int count ++ " " ++ detected_class ++ "(s)");;
      let alert_message :=
        if Qgtb (current_time - last_alert_time) alert_cooldown
        then Some (str_of_int count ++ " " ++ detected_class ++ " detected")
        else None in
      mret (alert_message,
            if truthy alert_message then current_time else last_alert_time)
  | [] => mret (None, last_alert_time)
  end.

(** Lines 128-167: the body of [if frame_count % 6 == 0]. *)
Definition sample (l : locals) (frame : image) : M locals :=
  t0 ← time_time;
  results ← call_model (model l) frame;
  t1 ← time_time;
  let infer_dt := (t1 - t0)%Q in
  let instant_fps := (1 / py_max infer_dt 1e-6)%Q in
  let smoothed_fps :=
    if Qeq_bool (smoothed_fps l) 0 then instant_fps
    else (0.9 * smoothed_fps l + 0.1 * instant_fps)%Q in
  let last_results := Some results in
  counts ← lift (count_boxes (model l) results);
  r ← alert_policy counts (last_alert_time l);
  let '(alert_message, last_alert_time) := r in
  _update_latest_stats smoothed_fps counts alert_message;;
  mret (Locals (model l) (scale l) (cap l) (frame_count l)
               last_results smoothed_fps last_alert_time).

Definition set_frame_count (n : Z) (l : locals) : locals :=
  Locals (model l) (scale l) (cap l) n
         (last_results l) (smoothed_fps l) (last_alert_time l).

(** Lines 120-182: one pass through the body of [while True], up to the
    [yield] ([Some]) or the [break] ([None]). *)
Definition loop_iteration (l : locals) : M (option (chunk * locals)) :=
  r ← cap_read (cap l);
  match r with
  | None => mret None
  | Some frame =>
      let l := set_frame_count (frame_count l + 1) l in
      l ← (if (frame_count l mod 6 =? 0)%Z then sample l frame else mret l);
      frame ← match last_results l with
              | Some results => lift (draw_boxes frame results (model l))
              | None => mret frame
              end;
      frame ← lift (cv2_resize frame (scale l) (scale l));
      mret (Some (multipart frame, l))
  end.

(** ** The generator protocol *)

Inductive gen_state : Type :=
| GenCreated (model : Model) (source : list image) (scale : Q)
| GenSuspended (l : locals)        (* paused at the [yield] *)
| GenClosed.

Inductive gen_event : Type :=
| Yield (c : chunk)
| StopIteration
| Raised (e : exn).

(** Run the loop from its head until the next [yield]; after a [break],
    line 184 releases the source and the generator returns. *)
Definition run_loop (l : locals) : M (option (chunk * locals)) :=
  r ← loop_iteration l;
  match r with
  | Some y => mret (Some y)
  | None => cap_release (cap l);; mret None
  end.

Definition finish (r : result (option (chunk * locals)) * world)
    : gen_event * gen_state * world :=
  match r with
  | (Ok (Some (c, l)), w) => (Yield c, GenSuspended l, w)
  | (Ok None, w) => (StopIteration, GenClosed, w)
  | (Raise e, w) => (Raised e, GenClosed, w)
  end.

(** [next(gen)] *)
Definition gen_next (g : gen_state) (w : world) : gen_event * gen_state * world :=
  match g with
  | GenCreated model source scale =>
      finish ((l ← prologue model source scale; run_loop l) w)
  | GenSuspended l => finish (run_loop l w)
  | GenClosed => (StopIteration, GenClosed, w)
  end.

(** [gen.close()]: [GeneratorExit] is raised at the [yield] where the
    generator is paused. No [try] statement encloses that [yield], so the
    exception leaves the function at once and nothing else of the body runs. *)
Definition throw_at_yield (l : locals) (e : exn) : M (option (chunk * locals)) :=
  raise e.

Definition gen_close (g : gen_state) (w : world) : gen_state * world :=
  match g with
  | GenSuspended l =>
      let '(_, g', w') := finish (throw_at_yield l GeneratorExit w) in (g', w')
  | _ => (GenClosed, w)
  end.

(** [n] successive calls of [next]. *)
Fixpoint run (n : nat) (g : gen_state) (w : world)
    : list gen_event * gen_state * world :=
  match n with
  | O => ([], g, w)
  | S n' =>
      let '(evs, g', w') := run n' g w in
      let '(ev, g'', w'') := gen_next g' w' in
      ((evs ++ [ev])%list, g'', w'')
  end.

(** ** Observations on the store *)

(** What a reader sees through a stats dict at [l]: its scalar fields and
    the contents of the two dicts it refers to. *)
Record snapshot : Type := Snapshot {
  snap_fps : value;
  snap_counts : pydict;
  snap_last_update_ts : value;
  snap_alert : pydict
}.

Definition deref (h : gmap loc pydict) (v : value) : option pydict :=
  match v with
  | VDict l => h !! l
  | _ => None
  end.

Definition read_snapshot (h : gmap loc pydict) (l : loc) : option snapshot :=
  d ← h !! l;
  fps ← PyDict.get "fps" d;
  c ← PyDict.get "counts" d;
  dc ← deref h c;
  ts ← PyDict.get "last_update_ts" d;
  a ← PyDict.get "alert" d;
  da ← deref h a;
  Some (Snapshot fps dc ts da).

(** The actions of the program on the store. *)
Inductive action : Type :=
| ActUpdate (fps : Q) (counts : list (string * Z)) (alert_message : option string)
| ActSetAlert (message : value)
| ActRead
| ActNext (g : gen_state)
| ActClose (g : gen_state).

Definition act (a : action) (w : world) : world :=
  match a with
  | ActUpdate fps counts msg => snd (_update_latest_stats fps counts msg w)
  | ActSetAlert message => snd (_set_alert message w)
  | ActRead => snd (get_latest_stats w)
  | ActNext g => snd (gen_next g w)
  | ActClose g => snd (gen_close g w)
  end.

Definition acts (l : list action) (w : world) : world :=
  fold_left (λ w a, act a w) l w.

(** The worlds the program can be in: the module has been loaded, then any
    number of actions have run. *)
Inductive reachable : world → Prop :=
| reachable_loaded w : heap w = initial_heap → reachable w
| reachable_act a w : reachable w → reachable (act a w).

(** ** Closed forms of the store operations *)

Definition default_alert : pydict := [("message", VStr ""); ("ts", VFloat 0)].

Definition stats_after (fps : Q) (lc : loc) (now : Q) (d : pydict) : pydict :=
  PyDict.set "last_update_ts" (VFloat now)
    (PyDict.set "counts" (VDict lc) (PyDict.set "fps" (VFloat fps) d)).

Definition heap_after_update (fps : Q) (counts : list (string * Z))
    (msg : option string) (now now' : Q) (d : pydict) (h : gmap loc pydict)
    : gmap loc pydict :=
  let lc := fresh (dom h) in
  let d1 := stats_after fps lc now d in
  let h1 := <[_latest_stats := d1]> (<[lc := counts_values counts]> h) in
  if truthy msg then
    let la := fresh (dom h1) in
    <[_latest_stats := PyDict.set "alert" (VDict la) d1]>
      (<[la := [("message", VStr (default "" msg)); ("ts", VFloat now')]]> h1)
  else h1.

(** The dict a field of the stats dict [d] stands for: the one it refers
    to, or the default when the field is absent. *)
Definition field_dict (h : gmap loc pydict) (d : pydict) (k : string)
    (dflt content : pydict) : Prop :=
  match PyDict.get k d with
  | None => content = dflt
  | Some (VDict l) => h !! l = Some content
  | Some _ => False
  end.

(** The objects [get_latest_stats] creates, in order: the default for
    [counts], the copy of [counts], the default for [alert], the copy of
    [alert], the returned dict. *)
Definition read_locs (h : gmap loc pydict) (dc da : pydict)
    : loc * loc * loc * gmap loc pydict :=
  let l0 := fresh (dom h) in
  let h1 := <[l0 := []]> h in
  let rc := fresh (dom h1) in
  let h2 := <[rc := dc]> h1 in
  let l2 := fresh (dom h2) in
  let h3 := <[l2 := default_alert]> h2 in
  let ra := fresh (dom h3) in
  let h4 := <[ra := da]> h3 in
  (fresh (dom h4), rc, ra, h4).

(** ** Notions used in the statements *)

Definition inv_pres (I : world → Prop) {A} (m : M A) : Prop :=
  ∀ w, I w → I (snd (m w)).

Definition heap_only (I : world → Prop) : Prop :=
  ∀ w w', heap w' = heap w → I w → I w'.

Definition returns {A} (R : A → Prop) (m : M A) : Prop :=
  ∀ w a w', m w = (Ok a, w') → R a.

Definition holds (l : loc) (d : pydict) (w : world) : Prop := heap w !! l = Some d.

Definition store_shape (w : world) : Prop :=
  ∃ fps lc ts la dc m ta,
    heap w !! _latest_stats =
      Some [("fps", VFloat fps); ("counts", VDict lc);
            ("last_update_ts", VFloat ts); ("alert", VDict la)] ∧
    heap w !! lc = Some dc ∧
    heap w !! la = Some [("message", m); ("ts", VFloat ta)].

(** Every class id in the results has an entry in [model.names]. *)
Definition named (m : Model) (results : list detection_result) : Prop :=
  ∀ r b, In r results → In b (boxes r) → is_Some (names m !! cls b).

Definition names_cover (m : Model) (source : list image) : Prop :=
  ∀ f, In f source → named m (predict m f).

Definition instant_fps_of (dt : Q) : Q := (1 / py_max dt 1e-6)%Q.

Definition smooth (s i : Q) : Q :=
  if Qeq_bool s 0 then i else (0.9 * s + 0.1 * i)%Q.

(** The class and count the alert names. *)
Definition plurality (counts : list (string * Z)) : string * Z :=
  match counts with
  | [] => ("", 0%Z)
  | x :: items =>
      let detected_class := fst (max_by_count x items) in
      (detected_class, default 0%Z (PyDict.get detected_class counts))
  end.

Definition alert_text (counts : list (string * Z)) : string :=
  str_of_int (snd (plurality counts)) ++ " " ++ fst (plurality counts) ++ " detected".

Definition alert_for (counts : list (string * Z)) (last_alert_time current_time : Q)
    : option string :=
  match counts with
  | [] => None
  | _ :: _ =>
      if Qgtb (current_time - last_alert_time) alert_cooldown
      then Some (alert_text counts) else None
  end.

Definition cooldown_after (counts : list (string * Z)) (last_alert_time current_time : Q)
    : Q :=
  match alert_for counts last_alert_time current_time with
  | Some _ => current_time
  | None => last_alert_time
  end.

(** The coordinates of a box, and of its label, fit C [int]s. *)
Definition in_range (b : box) : bool :=
  let '(x1, y1, x2, y2) := xyxy b in
  c_int x1 && c_int y1 && c_int x2 && c_int y2 && c_int (y1 - 10).

(** Every box of the results that would be drawn can be drawn. *)
Definition drawable (m : Model) (results : list detection_result) : Prop :=
  ∀ r b s, In r results → In b (boxes r) →
    names m !! cls b = Some s → In s allowed_classes → in_range b = true.

Definition boxes_fit (m : Model) (source : list image) : Prop :=
  ∀ f, In f source → drawable m (predict m f).

(** Every frame of the source can be resized by [sc]. *)
Definition resizes (sc : Q) (source : list image) : Prop :=
  ∀ f, In f source → resize_ok f sc sc = true.

(** The image a frame is turned into before resizing. *)
Definition overlay (l : locals) (frame : image) : result image :=
  match last_results l with
  | Some results => draw_boxes frame results (model l)
  | None => Ok frame
  end.

(** The image that is encoded: the overlay, resized. *)
Definition rendered (l : locals) (frame : image) : result image :=
  img ← overlay l frame; cv2_resize img (scale l) (scale l).

(** The world after [cap.read()] has delivered the head of [pending]. *)
Definition world_after_read (h : nat) (c : capture) (w : world) : world :=
  set_caps (<[h := Capture (tail (pending c)) (props c) (releases c)]> (caps w)) w.

(** The local variables and the world after the sampling branch, for a
    frame whose detections count to [counts]. *)
Definition sampled_locals (l : locals) (f : image) (counts : list (string * Z))
    (w : world) : locals :=
  let t0 := clock w (ticks w) in
  let t1 := clock w (S (ticks w)) in
  let current_time := clock w (S (S (ticks w))) in
  Locals (model l) (scale l) (cap l) (frame_count l)
         (Some (predict (model l) f))
         (smooth (smoothed_fps l) (instant_fps_of (t1 - t0)))
         (cooldown_after counts (last_alert_time l) current_time).

Definition sampled_world (l : locals) (f : image) (counts : list (string * Z))
    (d : pydict) (w : world) : world :=
  let t0 := clock w (ticks w) in
  let t1 := clock w (S (ticks w)) in
  let current_time := clock w (S (S (ticks w))) in
  let fps := smooth (smoothed_fps l) (instant_fps_of (t1 - t0)) in
  let msg := alert_for counts (last_alert_time l) current_time in
  let tk := match counts with [] => S (S (ticks w)) | _ => S (S (S (ticks w))) end in
  World (heap_after_update fps counts msg (clock w tk) (clock w (S tk)) d (heap w))
        (clock w)
        (if truthy msg then S (S tk) else S tk)
        (caps w)
        (f :: model_calls w)
        ((fps, counts, msg) :: update_calls w)
        (match counts with
         | [] => stdout w
         | _ => ("Detected " ++ str_of_int (snd (plurality counts)) ++ " "
                   ++ fst (plurality counts) ++ "(s)") :: stdout w
         end).

(** What the counting loop keeps true of [counts]. *)
Definition counts_ok (counts : list (string * Z)) : Prop :=
  (∀ k n, In (k, n) counts → In k allowed_classes ∧ (1 ≤ n)%Z) ∧
  List.NoDup (PyDict.keys counts).

(** A pass of the loop that leaves the store, the call log of the store
    and the clock alone. *)
Definition quiet (w w' : world) : Prop :=
  heap w' = heap w ∧ update_calls w' = update_calls w ∧ clock w' = clock w.

(** The [counts] dict of the store has allowed class names only. *)
Definition counts_allowed (w : world) : Prop :=
  ∃ d lc dc,
    heap w !! _latest_stats = Some d ∧
    PyDict.get "counts" d = Some (VDict lc) ∧
    heap w !! lc = Some dc ∧
    ∀ k, In k (PyDict.keys dc) → In k allowed_classes.

(** The actions open to the rest of the program: [_update_latest_stats]
    is called by the loop only. *)
Definition public (a : action) : Prop :=
  match a with
  | ActUpdate _ _ _ => False
  | _ => True
  end.

(** The local variables and the source after [n] frames of [source] have
    been processed. *)
Definition loop_inv (m : Model) (source : list image) (sc : Q) (h0 : nat)
    (n : nat) (l : locals) (w : world) : Prop :=
  model l = m ∧ scale l = sc ∧ cap l = h0 ∧ frame_count l = Z.of_nat n ∧
  (∃ c, caps w !! h0 = Some c ∧ pending c = drop n source ∧ releases c = 0%nat) ∧
  is_Some (heap w !! _latest_stats) ∧
  last_results l =
    (if (n <? 6)%nat then None
     else predict m <$> source !! (6 * (n / 6) - 1)%nat) ∧
  ((n < 6)%nat → smoothed_fps l = 0%Q) ∧
  ((6 ≤ n)%nat → (0 < smoothed_fps l)%Q).

(** The variables and the world at the head of the loop, before the first
    frame is read. *)
Definition initial_locals (m : Model) (sc : Q) (w : world) : locals :=
  Locals m sc (fresh (dom (caps w))) 0 None 0 0.

Definition opened_world (source : list image) (w : world) : world :=
  set_caps (<[fresh (dom (caps w)) :=
               Capture source [(CAP_PROP_FPS, 15%Z); (CAP_PROP_BUFFERSIZE, 1%Z)] 0]>
              (caps w)) w.

(** The module has been loaded: the name [_latest_stats] is bound. *)
Definition store_loaded (w : world) : Prop := is_Some (heap w !! _latest_stats).

(** The counts argument of a logged store update. *)
Definition logged_counts (e : Q * list (string * Z) * option string)
    : list (string * Z) := snd (fst e).

(** A detector that returns one "person" detection on every call. *)
Definition person_detector (m : Model) : Prop :=
  ∀ f, ∃ b, predict m f = [Result [b]] ∧ names m !! cls b = Some "person".

(** A stub detector: one "person" box on every frame. *)
Definition person_model : Model :=
  {| names := <[0%Z := "person"]> ∅;
     predict := λ _, [Result [Box 0 (10, 20, 30, 40)%Z 0.5]] |}.

(** A stub detector that finds nothing. *)
Definition blind_model : Model :=
  {| names := <[0%Z := "person"]> ∅; predict := λ _, [Result []] |}.

Definition frames12 : list image := Raw <$> [1; 2; 3; 4; 5; 6; 7; 8; 9; 10; 11; 12]%Z.

(** A clock that advances by [step] seconds between two readings. *)
Definition wall_clock (step : Q) : nat → Q :=
  λ i, (1700000000 + step * inject_Z (Z.of_nat i))%Q.

(** The world just after the module has been loaded. *)
Definition loaded_world (step : Q) : world :=
  World initial_heap (wall_clock step) 0 ∅ [] [] [].

(** The messages of the alerts emitted so far, latest first. *)
Definition alerts_emitted (w : world) : list string :=
  omap (λ e, if truthy (snd e) then snd e else None) (update_calls w).

Definition state_of (r : list gen_event * gen_state * world) : gen_state := snd (fst r).
Definition world_of (r : list gen_event * gen_state * world) : world := snd r.
Definition events_of (r : list gen_event * gen_state * world) : list gen_event :=
  fst (fst r).
Definition locals_of (g : gen_state) : locals :=
  match g with
  | GenSuspended l => l
  | _ => Locals blind_model 1 0 0 None 0 0
  end.
Definition chunk_of (ev : gen_event) : chunk :=
  match ev with
  | Yield c => c
  | _ => multipart (Raw 0)
  end.

Definition is_suspended (g : gen_state) : bool :=
  match g with
  | GenSuspended _ => true
  | _ => false
  end.

Definition is_yield (ev : gen_event) : bool :=
  match ev with
  | Yield _ => true
  | _ => false
  end.

(** The twelve-frame run with the stub detector, cut at the two sampling
    frames. *)
Definition before6 : list gen_event * gen_state * world :=
  run 5 (GenCreated person_model frames12 1) (loaded_world 0.01).
Definition at6 : gen_event * gen_state * world :=
  gen_next (state_of before6) (world_of before6).
Definition before12 : list gen_event * gen_state * world :=
  run 5 (snd (fst at6)) (snd at6).
Definition at12 : gen_event * gen_state * world :=
  gen_next (state_of before12) (world_of before12).

(** ** Notions used in the further properties *)

(** All boxes of the results, in the order the nested loops visit them. *)
Definition all_boxes (results : list detection_result) : list box :=
  concat (boxes <$> results).

(** The names of the boxes whose class is allowed, in detection order. *)
Definition allowed_names (m : Model) (results : list detection_result) : list string :=
  List.filter (λ s, in_list s allowed_classes)
    (omap (λ b, names m !! cls b) (all_boxes results)).

Definition occurrences (s : string) (l : list string) : Z :=
  Z.of_nat (length (List.filter (String.eqb s) l)).

(** The distinct names of [l] in the order of their first occurrence,
    after those already [seen]. *)
Fixpoint first_seen (seen l : list string) : list string :=
  match l with
  | [] => seen
  | s :: l' => first_seen (if in_list s seen then seen else (seen ++ [s])%list) l'
  end.

(** Lines 98-100: the two [cv2] calls for one allowed box named [s]. *)
Definition paint (frame : image) (bs : box * string) : image :=
  let '(x1, y1, x2, y2) := xyxy (fst bs) in
  PutText (Rectangle frame (x1, y1) (x2, y2)) (snd bs) (conf (fst bs)) (x1, y1 - 10)%Z.

(** The boxes whose class is allowed, with their names, in detection order. *)
Definition allowed_boxes (m : Model) (results : list detection_result)
    : list (box * string) :=
  List.filter (λ bs, in_list (snd bs) allowed_classes)
    (omap (λ b, pair b <$> names m !! cls b) (all_boxes results)).

(** The frame of the source an image was made from. *)
Fixpoint base (img : image) : image :=
  match img with
  | Frame id rows cols => Frame id rows cols
  | Rectangle i _ _ => base i
  | PutText i _ _ _ => base i
  | Resize i _ _ => base i
  end.

(** The number of rectangles drawn on an image. *)
Fixpoint rectangles (img : image) : nat :=
  match img with
  | Frame _ _ _ => 0
  | Rectangle i _ _ => S (rectangles i)
  | PutText i _ _ _ => rectangles i
  | Resize i _ _ => rectangles i
  end.

(** The sum of the values of [counts]. *)
Definition total (counts : list (string * Z)) : Z :=
  foldr Z.add 0%Z (snd <$> counts).

(** A stub detector with a class outside the allow-list: it reports a
    person, a chair, a car and a second person on every frame. *)
Definition street_model : Model :=
  {| names := <[0%Z := "person"]> (<[2%Z := "car"]> (<[56%Z := "chair"]> ∅));
     predict := λ _, [Result [Box 0 (10, 20, 30, 40)%Z 0.9;
                              Box 56 (1, 2, 3, 4)%Z 0.8;
                              Box 2 (50, 60, 70, 80)%Z 0.7];
                      Result [Box 0 (11, 21, 31, 41)%Z 0.6]] |}.

(** A stub detector that reports a class id its [names] does not have. *)
Definition unnamed_model : Model :=
  {| names := <[0%Z := "person"]> ∅;
     predict := λ _, [Result [Box 0 (10, 20, 30, 40)%Z 0.9; Box 7 (1, 2, 3, 4)%Z 0.8]] |}.

(** [counts[name]] after the boxes named [l] have been added to [acc]. *)
Definition tally (name : string) (acc : list (string * Z)) (l : list string) : option Z :=
  match PyDict.get name acc with
  | Some v => Some (v + occurrences name l)%Z
  | None => if (occurrences name l =? 0)%Z then None else Some (occurrences name l)
  end.

(** The alert dict [_update_latest_stats] leaves in the store. *)
Definition alert_after (msg : option string) (now' : Q) (old : pydict) : pydict :=
  if truthy msg then [("message", VStr (default "" msg)); ("ts", VFloat now')] else old.

(** An operation on the store leaves the devices alone: the capture
    handles, the detector and standard output; the clock only advances. *)
Definition store_step (w w' : world) : Prop :=
  clock w' = clock w ∧ caps w' = caps w ∧ model_calls w' = model_calls w ∧
  stdout w' = stdout w ∧ (ticks w ≤ ticks w')%nat.

(** Every run of [m] takes a world to one related to it by [R]. *)
Definition within (R : world → world → Prop) {A} (m : M A) : Prop :=
  ∀ w, R w (snd (m w)).

(** Only the heap differs. *)
Definition heap_step (w w' : world) : Prop := w' = set_heap (heap w') w.

(** A pass of the generator that owns the capture handle [h0] leaves the
    clock and every other handle alone. *)
Definition stream_step (h0 : nat) (w w' : world) : Prop :=
  clock w' = clock w ∧ ∀ h, h ≠ h0 → caps w' !! h = caps w !! h.

(** Only the capture handles differ. *)
Definition source_step (w w' : world) : Prop := w' = set_caps (caps w') w.

(** A source of one frame, opened by a generator that has delivered five
    frames before. *)
Definition sixth_frame_world : world :=
  World initial_heap (wall_clock 0.01) 0 (<[0%nat := Capture [Raw 6] [] 0]> ∅) [] [] [].

Definition fifth_frame_locals (m : Model) : locals := Locals m 1 0 5 None 0 0.

(** The chunk [ch] carries the frame [f] of the source, annotated and
    resized by [sc]. *)
Definition carries (sc : Q) (ch : chunk) (f : image) : Prop :=
  ∃ img, ch = multipart (Resize img sc sc) ∧ base img = base f.

(** The bounds of a published frame rate: [max(infer_dt, 1e-6)] caps it. *)
Definition fps_cap : Q := 1000000.

Definition fps_in_range (g : gen_state) : Prop :=
  match g with
  | GenSuspended l => (0 <= smoothed_fps l)%Q ∧ (smoothed_fps l <= fps_cap)%Q
  | _ => True
  end.

Definition logged_fps (e : Q * list (string * Z) * option string) : Q := fst (fst e).

(** The sixth call of [next] with the stub detector. *)
Definition sixth_frame : gen_event * gen_state * world :=
  gen_next (GenSuspended (fifth_frame_locals person_model)) sixth_frame_world.

(** A world with the capture of another stream open. *)
Definition shared_world : world :=
  World initial_heap (wall_clock 0.01) 0
    (<[0%nat := Capture [Raw 6] [] 0]> (<[1%nat := Capture [Raw 1; Raw 2] [] 0]> ∅))
    [] [] [].

(** The arguments of the latest call of [_update_latest_stats]; before
    the first call, the values the module starts with. *)
Definition latest_update (w : world) : Q * list (string * Z) * option string :=
  hd (0%Q, [], None) (update_calls w).

(** The [fps] and [counts] of the store are those of the latest update. *)
Definition store_agrees (w : world) : Prop :=
  ∃ d lc,
    heap w !! _latest_stats = Some d ∧
    PyDict.get "fps" d = Some (VFloat (logged_fps (latest_update w))) ∧
    PyDict.get "counts" d = Some (VDict lc) ∧ lc ≠ _latest_stats ∧
    heap w !! lc = Some (counts_values (logged_counts (latest_update w))).

(** * Properties *)

(** ** Dicts *)

Section DictFacts.
Context {V : Type}.
Implicit Types (k : string) (v : V) (d : list (string * V)).
Import PyDict.

Lemma get_set_eq k v d : get k (set k v d) = Some v.
Proof.
  induction d as [|[k' v'] d IH]; simpl.
  - by rewrite String.eqb_refl.
  - destruct (String.eqb k k') eqn:E; simpl; rewrite E; [done | exact IH].
Qed.

Lemma get_set_ne k k' v d : k ≠ k' → get k' (set k v d) = get k' d.
Proof.
  intros Hne. induction d as [|[k0 v0] d IH]; simpl.
  - destruct (String.eqb k' k) eqn:E; [|done].
    apply String.eqb_eq in E. congruence.
  - destruct (String.eqb k k0) eqn:E; simpl.
    + apply String.eqb_eq in E. subst k0.
      destruct (String.eqb k' k) eqn:E'; [|done].
      apply String.eqb_eq in E'. congruence.
    + by rewrite IH.
Qed.

Lemma get_Some_in k v d : get k d = Some v → In (k, v) d.
Proof.
  induction d as [|[k' v'] d IH]; simpl; [done|].
  destruct (String.eqb k k') eqn:E.
  - apply String.eqb_eq in E. intros [= ->]. left. by subst.
  - intros H. right. by apply IH.
Qed.

Lemma get_None_keys k d : get k d = None ↔ ¬ In k (keys d).
Proof.
  induction d as [|[k' v'] d IH]; simpl; [tauto|].
  destruct (String.eqb k k') eqn:E.
  - apply String.eqb_eq in E. subst. split; [done | tauto].
  - apply String.eqb_neq in E. rewrite IH. unfold keys. split.
    + intros H [?|?]; [congruence | tauto].
    + tauto.
Qed.

Lemma keys_set_in k v d : In k (keys d) → keys (set k v d) = keys d.
Proof.
  induction d as [|[k' v'] d IH]; simpl; [done|].
  destruct (String.eqb k k') eqn:E; simpl; [done|].
  apply String.eqb_neq in E.
  intros [?|H]; [congruence|]. f_equal. by apply IH.
Qed.

Lemma keys_set_new k v d : ¬ In k (keys d) → keys (set k v d) = (keys d ++ [k])%list.
Proof.
  induction d as [|[k' v'] d IH]; simpl; [done|].
  destruct (String.eqb k k') eqn:E; simpl.
  - apply String.eqb_eq in E. intros H. exfalso. apply H. by left.
  - intros H. f_equal. apply IH. intros Hin. apply H. by right.
Qed.

Lemma in_keys_set k k' v d : In k' (keys (set k v d)) ↔ k' = k ∨ In k' (keys d).
Proof.
  destruct (get k d) eqn:G.
  - assert (In k (keys d)) as Hin.
    { apply get_Some_in in G. unfold keys. apply in_map_iff. by exists (k, v0). }
    rewrite keys_set_in by done. split; [tauto|]. intros [->|?]; done.
  - apply get_None_keys in G. rewrite keys_set_new by done.
    rewrite in_app_iff. simpl. split; intros; intuition congruence.
Qed.
End DictFacts.

(** ** The effect monad *)

Lemma bind_eq {A B} (m : M A) (k : A → M B) (w : world) :
  (m ≫= k) w = match m w with
               | (Ok a, w') => k a w'
               | (Raise e, w') => (Raise e, w')
               end.
Proof. reflexivity. Qed.

Lemma fresh_None (h : gmap loc pydict) : h !! fresh (dom h) = None.
Proof. apply not_elem_of_dom, is_fresh. Qed.

Lemma fresh_ne (h : gmap loc pydict) l d : h !! l = Some d → fresh (dom h) ≠ l.
Proof. intros Hd E. rewrite <- E, fresh_None in Hd. done. Qed.

Lemma setitem_run l k v w d :
  heap w !! l = Some d →
  setitem l k v w = (Ok tt, set_heap (<[l := PyDict.set k v d]> (heap w)) w).
Proof. intros Hd. unfold setitem, load. rewrite bind_eq, Hd. reflexivity. Qed.

Lemma truthy_spec msg : truthy msg = true ↔ ∃ m, msg = Some m ∧ m ≠ "".
Proof.
  destruct msg as [[|a m]|]; simpl; split; try done.
  - intros (m & [= <-] & Hm). done.
  - intros _. eexists. split; done.
  - intros (m & ? & _). done.
Qed.

(** ** The store operations in closed form *)
Lemma update_run fps counts msg w d :
  heap w !! _latest_stats = Some d →
  _update_latest_stats fps counts msg w =
    (Ok tt,
     World (heap_after_update fps counts msg (clock w (ticks w))
              (clock w (S (ticks w))) d (heap w))
           (clock w)
           (if truthy msg then S (S (ticks w)) else S (ticks w))
           (caps w) (model_calls w)
           ((fps, counts, msg) :: update_calls w) (stdout w)).
Proof.
  destruct w as [h clk tk cp mc uc so]. simpl. intros Hd.
  assert (fresh (dom h) ≠ _latest_stats) as Hne by (by eapply fresh_ne).
  unfold _update_latest_stats, heap_after_update, stats_after.
  rewrite bind_eq. unfold log_update at 1. 
  rewrite bind_eq. erewrite setitem_run by exact Hd. unfold set_heap, set_update_calls; simpl.
  rewrite bind_eq. unfold new_dict at 1. unfold set_heap; simpl.
  rewrite (dom_insert_lookup_L h _latest_stats) by eauto.
  rewrite bind_eq. erewrite setitem_run; cycle 1.
  { simpl. rewrite lookup_insert_ne by done. apply lookup_insert_eq. }
  unfold set_heap; simpl.
  rewrite bind_eq. unfold time_time at 1. unfold set_ticks; simpl.
  rewrite bind_eq. erewrite setitem_run; cycle 1.
  { simpl. apply lookup_insert_eq. }
  unfold set_heap; simpl.
  rewrite !insert_insert_eq.
  rewrite (insert_insert_ne _ _latest_stats (fresh (dom h))) by done.
  rewrite !insert_insert_eq.
  rewrite (insert_insert_ne _ (fresh (dom h)) _latest_stats) by done.
  destruct (truthy msg) eqn:Ht.
  - rewrite bind_eq. unfold time_time at 1. unfold set_ticks; simpl.
    rewrite bind_eq. unfold new_dict at 1. unfold set_heap; simpl.
    erewrite setitem_run; cycle 1.
    { simpl. rewrite lookup_insert_ne. apply lookup_insert_eq.
      eapply fresh_ne. apply lookup_insert_eq. }
    unfold set_heap; simpl. reflexivity.
  - reflexivity.
Qed.

Lemma py_dict_run v dflt (h : gmap loc pydict) w k d content :
  field_dict h d k dflt content →
  heap w = <[fresh (dom h) := dflt]> h →
  v = default (VDict (fresh (dom h))) (PyDict.get k d) →
  py_dict v w = (Ok (fresh (dom (heap w))), set_heap (<[fresh (dom (heap w)) := content]> (heap w)) w).
Proof.
  unfold field_dict. intros Hf Hw ->.
  destruct w as [h' clk tk cp mc uc so]. simpl in Hw. subst h'.
  destruct (PyDict.get k d) as [[| | | |l]|] eqn:G; try done; simpl.
  - rewrite bind_eq. unfold load, new_dict. simpl.
    rewrite lookup_insert_ne by (by eapply fresh_ne).
    rewrite Hf. reflexivity.
  - rewrite bind_eq. unfold load, new_dict. simpl. rewrite lookup_insert_eq. by subst.
Qed.

Lemma get_latest_stats_run w d dc da :
  heap w !! _latest_stats = Some d →
  field_dict (heap w) d "counts" [] dc →
  field_dict (heap w) d "alert" default_alert da →
  let '(r, rc, ra, h4) := read_locs (heap w) dc da in
  get_latest_stats w =
    (Ok r,
     set_heap (<[r := [("fps", default (VFloat 0) (PyDict.get "fps" d));
                       ("counts", VDict rc);
                       ("last_update_ts", default (VFloat 0) (PyDict.get "last_update_ts" d));
                       ("alert", VDict ra)]]> h4) w).
Proof.
  destruct w as [h clk tk cp mc uc so]. simpl. intros Hd Hc Ha.
  unfold get_latest_stats.
  rewrite bind_eq. unfold dict_get_default at 1, load. rewrite bind_eq. simpl. rewrite Hd. simpl.
  rewrite bind_eq. unfold new_dict at 1. unfold set_heap; simpl.
  assert (fresh (dom h) ≠ _latest_stats) as Hne by (by eapply fresh_ne).
  rewrite bind_eq. unfold dict_get_default at 1, load. rewrite bind_eq. simpl.
  rewrite lookup_insert_ne, Hd by done. simpl.
  rewrite bind_eq. erewrite (py_dict_run _ [] h _ "counts" d dc); [|done|reflexivity|reflexivity].
  unfold set_heap; simpl.
  set (h1 := <[fresh (dom h) := []]> h).
  set (rc := fresh (dom h1)). set (h2 := <[rc := dc]> h1).
  assert (h2 !! _latest_stats = Some d) as Hd2.
  { unfold h2, h1. rewrite lookup_insert_ne, lookup_insert_ne; try done.
    eapply fresh_ne. unfold h1. by rewrite lookup_insert_ne. }
  rewrite bind_eq. unfold dict_get_default at 1, load. rewrite bind_eq. simpl.
  rewrite Hd2. simpl.
  rewrite bind_eq. unfold new_dict at 1. unfold set_heap; simpl.
  rewrite bind_eq. unfold dict_get_default at 1, load. rewrite bind_eq. simpl.
  rewrite lookup_insert_ne, Hd2 by (by eapply fresh_ne). simpl.
  rewrite bind_eq. erewrite (py_dict_run _ default_alert h2 _ "alert" d da); [| |reflexivity|reflexivity].
  2:{ unfold field_dict in *. destruct (PyDict.get "alert" d) as [[| | | |l]|]; try done.
      unfold h2, h1. rewrite lookup_insert_ne, lookup_insert_ne; try done.
      - by eapply fresh_ne.
      - eapply fresh_ne. unfold h1. rewrite lookup_insert_ne; [done|]. by eapply fresh_ne. }
  unfold set_heap; simpl. reflexivity.
Qed.

Ltac Zify.zify_post_hook ::= Z.div_mod_to_equations.

Lemma heap_after_update_old fps counts msg now now' d (h : gmap loc pydict) l :
  h !! _latest_stats = Some d →
  l ≠ _latest_stats → is_Some (h !! l) →
  heap_after_update fps counts msg now now' d h !! l = h !! l.
Proof.
  intros Hd Hl [x Hx]. unfold heap_after_update.
  assert (fresh (dom h) ≠ l) as H1 by (by eapply fresh_ne).
  set (h1 := <[_latest_stats := _]> (<[fresh (dom h) := _]> h)).
  assert (h1 !! l = h !! l) as E1.
  { unfold h1. rewrite lookup_insert_ne, lookup_insert_ne; done. }
  destruct (truthy msg); [|done].
  rewrite lookup_insert_ne, lookup_insert_ne; [done| |done].
  eapply fresh_ne. by rewrite E1.
Qed.

Lemma get_stats_after fps lc now d :
  PyDict.get "fps" (stats_after fps lc now d) = Some (VFloat fps) ∧
  PyDict.get "counts" (stats_after fps lc now d) = Some (VDict lc) ∧
  PyDict.get "last_update_ts" (stats_after fps lc now d) = Some (VFloat now) ∧
  ∀ k, k ≠ "fps" → k ≠ "counts" → k ≠ "last_update_ts" →
       PyDict.get k (stats_after fps lc now d) = PyDict.get k d.
Proof.
  unfold stats_after. repeat split.
  - rewrite !get_set_ne by done. apply get_set_eq.
  - rewrite get_set_ne by done. apply get_set_eq.
  - apply get_set_eq.
  - intros k H1 H2 H3. rewrite !get_set_ne; done.
Qed.

(** C6. Every call of [_update_latest_stats] on a loaded store succeeds and
    replaces [fps], [counts] (by a new dict object holding a copy of the
    argument) and [last_update_ts] (by the reading of the clock); it
    replaces [alert] by a new dict [{message, ts}] with the next reading of
    the clock exactly when [alert_message] is neither [None] nor [""], and
    otherwise leaves the [alert] field, and every other existing object,
    as it was. *)
Theorem update_latest_stats_contract fps counts msg w d :
  heap w !! _latest_stats = Some d →
  ∃ w' d' lc,
    _update_latest_stats fps counts msg w = (Ok tt, w') ∧
    heap w' !! _latest_stats = Some d' ∧
    PyDict.get "fps" d' = Some (VFloat fps) ∧
    PyDict.get "counts" d' = Some (VDict lc) ∧
    heap w !! lc = None ∧
    heap w' !! lc = Some (counts_values counts) ∧
    PyDict.get "last_update_ts" d' = Some (VFloat (clock w (ticks w))) ∧
    (∀ m, msg = Some m → m ≠ "" →
       ∃ la, PyDict.get "alert" d' = Some (VDict la) ∧
             heap w !! la = None ∧
             heap w' !! la =
               Some [("message", VStr m); ("ts", VFloat (clock w (S (ticks w))))]) ∧
    (msg = None ∨ msg = Some "" → PyDict.get "alert" d' = PyDict.get "alert" d) ∧
    (∀ k, k ≠ "fps" → k ≠ "counts" → k ≠ "last_update_ts" → k ≠ "alert" →
       PyDict.get k d' = PyDict.get k d) ∧
    (∀ l, l ≠ _latest_stats → is_Some (heap w !! l) → heap w' !! l = heap w !! l).
Proof.
  intros Hd. rewrite (update_run _ _ _ _ _ Hd).
  pose proof (get_stats_after fps (fresh (dom (heap w))) (clock w (ticks w)) d)
    as (Gf & Gc & Gt & Go).
  assert (fresh (dom (heap w)) ≠ _latest_stats) as Hne by (by eapply fresh_ne).
  destruct (truthy msg) eqn:Ht.
  - apply truthy_spec in Ht as (m & -> & Hm).
    eexists _, _, (fresh (dom (heap w))). split; [reflexivity|]. simpl.
    unfold heap_after_update. rewrite (proj2 (truthy_spec (Some m))) by eauto.
    set (h1 := <[_latest_stats := _]> (<[fresh (dom (heap w)) := _]> (heap w))).
    assert (h1 !! fresh (dom (heap w)) = Some (counts_values counts)) as Hc1.
    { unfold h1. rewrite lookup_insert_ne by done. apply lookup_insert_eq. }
    assert (∀ l, is_Some (heap w !! l) → fresh (dom h1) ≠ l) as Hfr.
    { intros l [x Hx]. destruct (decide (l = _latest_stats)) as [->|Hl].
      - eapply fresh_ne. unfold h1. apply lookup_insert_eq.
      - eapply fresh_ne. unfold h1.
        rewrite lookup_insert_ne, lookup_insert_ne; [exact Hx| |done].
        by eapply fresh_ne. }
    rewrite lookup_insert_eq. split; [reflexivity|].
    rewrite !get_set_ne by done.
    repeat split; try done.
    + apply fresh_None.
    + rewrite lookup_insert_ne by done.
      rewrite lookup_insert_ne; [done|]. by eapply fresh_ne.
    + intros m' [= <-] _. exists (fresh (dom h1)). split; [apply get_set_eq|]. split.
      * destruct (heap w !! fresh (dom h1)) eqn:E; [|done].
        exfalso. by eapply Hfr.
      * rewrite lookup_insert_ne by (apply not_eq_sym, Hfr; eauto).
        by rewrite lookup_insert_eq.
    + intros [?|[= ->]]; done.
    + intros k H1 H2 H3 H4. rewrite get_set_ne by done. by apply Go.
    + intros l Hl Hs. rewrite lookup_insert_ne by done.
      rewrite lookup_insert_ne by (by apply Hfr).
      unfold h1. rewrite lookup_insert_ne by done.
      rewrite lookup_insert_ne; [done|]. destruct Hs. by eapply fresh_ne.
  - eexists _, _, (fresh (dom (heap w))). split; [reflexivity|]. simpl.
    unfold heap_after_update. rewrite Ht.
    rewrite lookup_insert_eq. split; [reflexivity|].
    repeat split; try done.
    + apply fresh_None.
    + rewrite lookup_insert_ne by done. apply lookup_insert_eq.
    + intros m -> Hm. exfalso.
      assert (truthy (Some m) = true) by (apply truthy_spec; eauto). congruence.
    + intros _. by apply Go.
    + intros k H1 H2 H3 _. by apply Go.
    + intros l Hl [x Hx]. rewrite lookup_insert_ne by done.
      rewrite lookup_insert_ne; [done|]. by eapply fresh_ne.
Qed.

(** ** Invariants of effectful computations *)

Section InvPres.
Context (I : world → Prop).

Lemma inv_pres_ret {A} (a : A) : inv_pres I (mret a).
Proof. by intros w. Qed.

Lemma inv_pres_raise {A} e : inv_pres I (raise e : M A).
Proof. by intros w. Qed.

Lemma inv_pres_lift {A} (r : result A) : inv_pres I (lift r).
Proof. by intros w. Qed.

Lemma inv_pres_bind {A B} (m : M A) (k : A → M B) :
  inv_pres I m → (∀ a, inv_pres I (k a)) → inv_pres I (m ≫= k).
Proof.
  intros Hm Hk w Hw. rewrite bind_eq. specialize (Hm w Hw).
  destruct (m w) as [[a|e] w1]; simpl in *; [by apply Hk | done].
Qed.

Lemma inv_pres_bind_lift {A B} (r : result A) (k : A → M B) :
  (∀ a, r = Ok a → inv_pres I (k a)) → inv_pres I (lift r ≫= k).
Proof.
  intros Hk w Hw. rewrite bind_eq. unfold lift.
  destruct r as [a|e]; simpl; [by apply Hk | done].
Qed.

Context (HI : heap_only I).

Lemma inv_pres_time_time : inv_pres I time_time.
Proof. intros w. by apply HI. Qed.

Lemma inv_pres_print s : inv_pres I (print s).
Proof. intros w. by apply HI. Qed.

Lemma inv_pres_call_model m f : inv_pres I (call_model m f).
Proof. intros w. by apply HI. Qed.

Lemma inv_pres_log_update f c m : inv_pres I (log_update f c m).
Proof. intros w. by apply HI. Qed.

Lemma inv_pres_load l : inv_pres I (load l).
Proof. intros w Hw. unfold load. by destruct (heap w !! l). Qed.

Lemma inv_pres_with_cap {A} h (f : capture → A * capture) : inv_pres I (with_cap h f).
Proof.
  intros w Hw. unfold with_cap. destruct (caps w !! h) as [c|]; [|done].
  destruct (f c). simpl. revert Hw. by apply HI.
Qed.

Lemma inv_pres_VideoCapture src : inv_pres I (VideoCapture src).
Proof. intros w. by apply HI. Qed.

Lemma inv_pres_prologue m src sc : inv_pres I (prologue m src sc).
Proof.
  unfold prologue, cap_set.
  repeat (apply inv_pres_bind; [|intros]);
    auto using inv_pres_VideoCapture, inv_pres_with_cap, inv_pres_ret.
Qed.

Lemma inv_pres_alert_policy counts lat : inv_pres I (alert_policy counts lat).
Proof.
  unfold alert_policy. destruct counts; [apply inv_pres_ret|].
  repeat (apply inv_pres_bind; [|intros]);
    auto using inv_pres_time_time, inv_pres_lift, inv_pres_print, inv_pres_ret.
Qed.

Lemma inv_pres_bind_ret {A B} (R : A → Prop) (m : M A) (k : A → M B) :
  returns R m → inv_pres I m → (∀ a, R a → inv_pres I (k a)) →
  inv_pres I (m ≫= k).
Proof.
  intros HR Hm Hk w Hw. rewrite bind_eq. specialize (Hm w Hw).
  destruct (m w) as [[a|e] w1] eqn:E; simpl in *; [|done].
  apply Hk; [|done]. by eapply HR.
Qed.

Lemma returns_call_model m f : returns (λ r, r = predict m f) (call_model m f).
Proof. by intros w a w' [= <- _]. Qed.

Lemma returns_lift {A} (r : result A) : returns (λ a, r = Ok a) (lift r).
Proof. by intros w a w' [= -> _]. Qed.

(** The loop, given that the store update keeps the invariant for the
    counts the loop can build. *)
Lemma inv_pres_sample l f :
  (∀ fps counts msg,
     count_boxes (model l) (predict (model l) f) = Ok counts →
     inv_pres I (_update_latest_stats fps counts msg)) →
  inv_pres I (sample l f).
Proof.
  intros Hu. unfold sample.
  apply inv_pres_bind; [apply inv_pres_time_time|intros t0].
  eapply inv_pres_bind_ret;
    [apply returns_call_model|apply inv_pres_call_model|intros res ->].
  apply inv_pres_bind; [apply inv_pres_time_time|intros t1].
  eapply inv_pres_bind_ret;
    [apply returns_lift|apply inv_pres_lift|intros counts Hc].
  apply inv_pres_bind; [apply inv_pres_alert_policy|intros [msg lat]].
  apply inv_pres_bind; [by apply Hu|intros _]. apply inv_pres_ret.
Qed.

Lemma inv_pres_loop_iteration l :
  (∀ f fps counts msg,
     count_boxes (model l) (predict (model l) f) = Ok counts →
     inv_pres I (_update_latest_stats fps counts msg)) →
  inv_pres I (loop_iteration l).
Proof.
  intros Hu. unfold loop_iteration, cap_read.
  apply inv_pres_bind; [apply inv_pres_with_cap|intros [f|]]; [|apply inv_pres_ret].
  apply inv_pres_bind.
  - destruct (_ =? _)%Z; [|apply inv_pres_ret].
    apply inv_pres_sample. intros. by eapply Hu.
  - intros l'. apply inv_pres_bind.
    + destruct (last_results l'); [apply inv_pres_lift|apply inv_pres_ret].
    + intros frame. apply inv_pres_bind; [apply inv_pres_lift|intros; apply inv_pres_ret].
Qed.

Lemma inv_pres_run_loop l :
  (∀ f fps counts msg,
     count_boxes (model l) (predict (model l) f) = Ok counts →
     inv_pres I (_update_latest_stats fps counts msg)) →
  inv_pres I (run_loop l).
Proof.
  intros Hu. unfold run_loop, cap_release.
  apply inv_pres_bind; [by apply inv_pres_loop_iteration|intros [y|]].
  - apply inv_pres_ret.
  - apply inv_pres_bind; [apply inv_pres_with_cap|intros; apply inv_pres_ret].
Qed.

Lemma finish_world r : (finish r).2 = r.2.
Proof. by destruct r as [[[[c l]|]|e] w]. Qed.

Lemma inv_pres_gen_next g w :
  (∀ m f fps counts msg,
     count_boxes m (predict m f) = Ok counts →
     inv_pres I (_update_latest_stats fps counts msg)) →
  I w → I (gen_next g w).2.
Proof.
  intros Hu Hw. destruct g as [m src sc|l|]; simpl; [| |done].
  - rewrite finish_world.
    apply (inv_pres_bind (prologue m src sc) run_loop); [apply inv_pres_prologue| |done].
    intros l. apply inv_pres_run_loop. intros. by eapply Hu.
  - rewrite finish_world. apply inv_pres_run_loop; [|done]. intros. by eapply Hu.
Qed.

Lemma gen_close_world g w : (gen_close g w).2 = w.
Proof. by destruct g. Qed.

End InvPres.

(** ** Objects other than the stats dict are never written *)

Lemma holds_heap_only l d : heap_only (holds l d).
Proof. intros w w' E. unfold holds. by rewrite E. Qed.

Section Untouched.
Context (l : loc) (d : pydict) (Hl : l ≠ _latest_stats).

Lemma holds_new_dict d' : inv_pres (holds l d) (new_dict d').
Proof.
  intros w Hw. unfold holds, new_dict in *. simpl.
  rewrite lookup_insert_ne; [done|]. by eapply fresh_ne.
Qed.

Lemma holds_setitem k v : inv_pres (holds l d) (setitem _latest_stats k v).
Proof.
  intros w Hw. unfold holds, setitem, load in *. rewrite bind_eq.
  destruct (heap w !! _latest_stats); simpl; [|done].
  by rewrite lookup_insert_ne.
Qed.

Lemma holds_dict_get_default k v :
  inv_pres (holds l d) (dict_get_default _latest_stats k v).
Proof.
  unfold dict_get_default.
  apply inv_pres_bind; [apply inv_pres_load|intros].
  apply inv_pres_ret.
Qed.

Lemma holds_py_dict v : inv_pres (holds l d) (py_dict v).
Proof.
  destruct v as [| | |[|a s]|l']; unfold py_dict.
  1-3, 5: apply inv_pres_raise.
  - apply holds_new_dict.
  - apply inv_pres_bind; [apply inv_pres_load|intros].
    apply holds_new_dict.
Qed.

Ltac holds_leaf :=
  first [ apply holds_setitem | apply holds_new_dict
        | apply holds_dict_get_default | apply holds_py_dict
        | apply inv_pres_log_update, holds_heap_only
        | apply inv_pres_time_time, holds_heap_only
        | apply inv_pres_ret ].

Ltac holds_seq :=
  repeat first [ holds_leaf | apply inv_pres_bind; [|intros] ].

Lemma holds_update fps counts msg :
  inv_pres (holds l d) (_update_latest_stats fps counts msg).
Proof.
  unfold _update_latest_stats. holds_seq. destruct (truthy msg); holds_seq.
Qed.

Lemma holds_set_alert message : inv_pres (holds l d) (_set_alert message).
Proof. unfold _set_alert. holds_seq. Qed.

Lemma holds_get_latest_stats : inv_pres (holds l d) get_latest_stats.
Proof. unfold get_latest_stats. holds_seq. Qed.

Lemma holds_act a w : holds l d w → holds l d (act a w).
Proof.
  intros Hw. destruct a; simpl.
  - by apply holds_update.
  - by apply holds_set_alert.
  - by apply holds_get_latest_stats.
  - apply inv_pres_gen_next; [apply holds_heap_only| |done].
    intros. apply holds_update.
  - by rewrite gen_close_world.
Qed.

Lemma holds_acts ops w : holds l d w → holds l d (acts ops w).
Proof.
  revert w. induction ops as [|a ops IH]; intros w Hw; [done|].
  simpl. apply IH. by apply holds_act.
Qed.

End Untouched.

Lemma read_snapshot_inv (h : gmap loc pydict) l s :
  read_snapshot h l = Some s →
  ∃ d lc la,
    h !! l = Some d ∧
    PyDict.get "fps" d = Some (snap_fps s) ∧
    PyDict.get "counts" d = Some (VDict lc) ∧
    h !! lc = Some (snap_counts s) ∧
    PyDict.get "last_update_ts" d = Some (snap_last_update_ts s) ∧
    PyDict.get "alert" d = Some (VDict la) ∧
    h !! la = Some (snap_alert s).
Proof.
  unfold read_snapshot. intros H.
  destruct (h !! l) as [d|] eqn:Hd; [|done]. simpl in H.
  destruct (PyDict.get "fps" d) as [fps|] eqn:Hf; [|done]. simpl in H.
  destruct (PyDict.get "counts" d) as [c|] eqn:Hc; [|done]. simpl in H.
  destruct (deref h c) as [dc|] eqn:Hdc; [|done]. simpl in H.
  destruct (PyDict.get "last_update_ts" d) as [ts|] eqn:Ht; [|done]. simpl in H.
  destruct (PyDict.get "alert" d) as [a|] eqn:Ha; [|done]. simpl in H.
  destruct (deref h a) as [da|] eqn:Hda; [|done]. simpl in H.
  injection H as <-.
  destruct c as [| | | |lc]; try done. destruct a as [| | | |la]; try done.
  exists d, lc, la. done.
Qed.

Lemma read_snapshot_intro (h : gmap loc pydict) l d lc la fps dc ts da :
  h !! l = Some d →
  PyDict.get "fps" d = Some fps →
  PyDict.get "counts" d = Some (VDict lc) →
  h !! lc = Some dc →
  PyDict.get "last_update_ts" d = Some ts →
  PyDict.get "alert" d = Some (VDict la) →
  h !! la = Some da →
  read_snapshot h l = Some (Snapshot fps dc ts da).
Proof.
  intros Hd Hf Hc Hdc Ht Ha Hda. unfold read_snapshot.
  rewrite Hd. simpl. rewrite Hf. simpl. rewrite Hc. simpl. rewrite Hdc. simpl.
  rewrite Ht. simpl. rewrite Ha. simpl. rewrite Hda. done.
Qed.

(** The objects created by a read are new, pairwise distinct, and every
    older object is still there. *)
Lemma read_locs_spec (h : gmap loc pydict) dc da r rc ra h4 :
  read_locs h dc da = (r, rc, ra, h4) →
  h !! r = None ∧ h !! rc = None ∧ h !! ra = None ∧
  h4 !! r = None ∧ h4 !! rc = Some dc ∧ h4 !! ra = Some da ∧ rc ≠ ra ∧
  (∀ l x, h !! l = Some x → h4 !! l = Some x).
Proof.
  unfold read_locs. intros [= <- <- <- <-].
  set (l0 := fresh (dom h)). set (h1 := <[l0 := []]> h).
  set (rc := fresh (dom h1)). set (h2 := <[rc := dc]> h1).
  set (l2 := fresh (dom h2)). set (h3 := <[l2 := default_alert]> h2).
  set (ra := fresh (dom h3)). set (h4 := <[ra := da]> h3).
  assert (∀ l x, h !! l = Some x → h1 !! l = Some x) as E1.
  { intros l x Hx. unfold h1. rewrite lookup_insert_ne; [done|]. by eapply fresh_ne. }
  assert (∀ l x, h1 !! l = Some x → h2 !! l = Some x) as E2.
  { intros l x Hx. unfold h2. rewrite lookup_insert_ne; [done|]. by eapply fresh_ne. }
  assert (∀ l x, h2 !! l = Some x → h3 !! l = Some x) as E3.
  { intros l x Hx. unfold h3. rewrite lookup_insert_ne; [done|]. by eapply fresh_ne. }
  assert (∀ l x, h3 !! l = Some x → h4 !! l = Some x) as E4.
  { intros l x Hx. unfold h4. rewrite lookup_insert_ne; [done|]. by eapply fresh_ne. }
  assert (∀ (m m' : gmap loc pydict) l,
            (∀ l x, m !! l = Some x → m' !! l = Some x) →
            m' !! l = None → m !! l = None) as Hback.
  { intros m m' l Hm Hn. destruct (m !! l) eqn:E; [|done].
    apply Hm in E. congruence. }
  assert (h4 !! fresh (dom h4) = None) as N4 by apply fresh_None.
  assert (h3 !! ra = None) as N3 by apply fresh_None.
  assert (h1 !! rc = None) as N1 by apply fresh_None.
  repeat split.
  - eauto 10.
  - eauto.
  - eauto 10.
  - done.
  - apply E4, E3. unfold h2. apply lookup_insert_eq.
  - unfold h4. apply lookup_insert_eq.
  - apply not_eq_sym. eapply fresh_ne. apply E3. unfold h2. apply lookup_insert_eq.
  - eauto.
Qed.

Lemma get_latest_stats_copy w s :
  read_snapshot (heap w) _latest_stats = Some s →
  ∃ r w' rc ra,
    get_latest_stats w = (Ok r, w') ∧
    heap w' !! r = Some [("fps", snap_fps s); ("counts", VDict rc);
                         ("last_update_ts", snap_last_update_ts s);
                         ("alert", VDict ra)] ∧
    heap w' !! rc = Some (snap_counts s) ∧
    heap w' !! ra = Some (snap_alert s) ∧
    heap w !! r = None ∧ heap w !! rc = None ∧ heap w !! ra = None ∧
    r ≠ rc ∧ r ≠ ra ∧ rc ≠ ra ∧
    (∀ l x, heap w !! l = Some x → heap w' !! l = Some x) ∧
    w' = set_heap (heap w') w.
Proof.
  intros Hs.
  destruct (read_snapshot_inv _ _ _ Hs) as (d & lc & la & Hd & Hf & Hc & Hdc & Ht & Ha & Hda).
  pose proof (get_latest_stats_run w d (snap_counts s) (snap_alert s) Hd) as Hrun.
  unfold field_dict in Hrun. rewrite Hc, Ha in Hrun. specialize (Hrun Hdc Hda).
  destruct (read_locs (heap w) (snap_counts s) (snap_alert s)) as [[[r rc] ra] h4] eqn:EL.
  destruct (read_locs_spec _ _ _ _ _ _ _ EL) as (Nr & Nrc & Nra & N4 & Hrc & Hra & D3 & Hold).
  rewrite Hf, Ht in Hrun. simpl in Hrun.
  assert (r ≠ rc) as D1 by congruence.
  assert (r ≠ ra) as D2 by congruence.
  eexists r, _, rc, ra. split; [exact Hrun|]. simpl.
  split; [apply lookup_insert_eq|].
  split; [by rewrite lookup_insert_ne|].
  split; [by rewrite lookup_insert_ne|].
  repeat (split; [done|]). split.
  - intros l x Hx. rewrite lookup_insert_ne; [by apply Hold|].
    intros <-. congruence.
  - by destruct w.
Qed.

(** C7. [get_latest_stats] returns a new dict holding the scalar fields of
    the store and new copies of its [counts] and [alert] dicts; it does not
    modify any existing object. Nothing the program does afterwards changes
    what is read through the returned dict, and overwriting the returned
    dict or either of its sub-dicts leaves the snapshot of the store as it
    was. *)
Theorem get_latest_stats_isolated w s :
  read_snapshot (heap w) _latest_stats = Some s →
  ∃ r w' rc ra,
    get_latest_stats w = (Ok r, w') ∧
    (* the result is a copy of the snapshot, made of three new objects *)
    heap w' !! r = Some [("fps", snap_fps s); ("counts", VDict rc);
                         ("last_update_ts", snap_last_update_ts s);
                         ("alert", VDict ra)] ∧
    heap w' !! rc = Some (snap_counts s) ∧
    heap w' !! ra = Some (snap_alert s) ∧
    read_snapshot (heap w') r = Some s ∧
    heap w !! r = None ∧ heap w !! rc = None ∧ heap w !! ra = None ∧
    r ≠ rc ∧ r ≠ ra ∧ rc ≠ ra ∧
    (* the read does not modify the store *)
    (∀ l x, heap w !! l = Some x → heap w' !! l = Some x) ∧
    read_snapshot (heap w') _latest_stats = Some s ∧
    w' = set_heap (heap w') w ∧
    (* whatever the program does afterwards, the result is unaffected *)
    (∀ ops, read_snapshot (heap (acts ops w')) r = Some s) ∧
    (* overwriting the returned dict or its sub-dicts leaves the store as it is *)
    (∀ l x, l = r ∨ l = rc ∨ l = ra →
       read_snapshot (<[l := x]> (heap w')) _latest_stats = Some s).
Proof.
  intros Hs.
  destruct (get_latest_stats_copy _ _ Hs)
    as (r & w' & rc & ra & Hrun & Er & Erc & Era & Nr & Nrc & Nra & D1 & D2 & D3 & Hold & Hw).
  destruct (read_snapshot_inv _ _ _ Hs) as (d & lc & la & Hd & Hf & Hc & Hdc & Ht & Ha & Hda).
  exists r, w', rc, ra.
  repeat (split; [done|]).
  split. { destruct s. eapply read_snapshot_intro; eauto. }
  repeat (split; [done|]).
  split. { destruct s. eapply read_snapshot_intro; eauto. }
  split; [done|]. split.
  - intros ops.
    assert (r ≠ _latest_stats ∧ rc ≠ _latest_stats ∧ ra ≠ _latest_stats) as (P1 & P2 & P3).
    { repeat split; intros ->; congruence. }
    pose proof (holds_acts r _ P1 ops w' Er) as Ar.
    pose proof (holds_acts rc _ P2 ops w' Erc) as Arc.
    pose proof (holds_acts ra _ P3 ops w' Era) as Ara.
    unfold holds in *. destruct s. eapply read_snapshot_intro; eauto.
  - intros l x Hl.
    assert (∀ l' y, heap w !! l' = Some y → <[l := x]> (heap w') !! l' = Some y) as Hk.
    { intros l' y Hy. rewrite lookup_insert_ne; [by apply Hold|].
      destruct Hl as [->|[->| ->]]; intros <-; congruence. }
    destruct s. eapply read_snapshot_intro; eauto.
Qed.

Lemma store_shape_heap_only : heap_only store_shape.
Proof. intros w w' E. unfold store_shape. by rewrite E. Qed.

Lemma store_shape_loaded w : heap w = initial_heap → store_shape w.
Proof.
  intros E. unfold store_shape. rewrite E.
  exists 0%Q, 2%positive, 0%Q, 3%positive, [], (VStr ""), 0%Q. done.
Qed.

Lemma set_alert_run message w d :
  heap w !! _latest_stats = Some d →
  _set_alert message w =
    (Ok tt,
     set_ticks (S (ticks w))
       (set_heap (<[_latest_stats := PyDict.set "alert" (VDict (fresh (dom (heap w)))) d]>
                    (<[fresh (dom (heap w)) :=
                         [("message", message); ("ts", VFloat (clock w (ticks w)))]]>
                       (heap w))) w)).
Proof.
  destruct w as [h clk tk cp mc uc so]. simpl. intros Hd.
  unfold _set_alert. rewrite bind_eq. unfold time_time at 1. unfold set_ticks; simpl.
  rewrite bind_eq. unfold new_dict at 1. unfold set_heap; simpl.
  erewrite setitem_run; [reflexivity|]. simpl.
  rewrite lookup_insert_ne; [done|]. by eapply fresh_ne.
Qed.

Lemma store_shape_update fps counts msg :
  inv_pres store_shape (_update_latest_stats fps counts msg).
Proof.
  intros w (f0 & lc & ts & la & dc & m & ta & Hd & Hc & Ha).
  rewrite (update_run _ _ _ _ _ Hd). simpl. unfold store_shape. simpl.
  assert (la ≠ _latest_stats) as Hla by (intros ->; congruence).
  assert (fresh (dom (heap w)) ≠ _latest_stats) as Hne by (by eapply fresh_ne).
  unfold heap_after_update, stats_after. simpl.
  set (lc' := fresh (dom (heap w))).
  set (h1 := <[_latest_stats := _]> (<[lc' := _]> (heap w))).
  assert (h1 !! lc' = Some (counts_values counts)) as Hc1.
  { unfold h1. rewrite lookup_insert_ne by done. apply lookup_insert_eq. }
  assert (h1 !! la = Some [("message", m); ("ts", VFloat ta)]) as Ha1.
  { unfold h1. rewrite lookup_insert_ne by done.
    rewrite lookup_insert_ne; [done|]. by eapply fresh_ne. }
  destruct (truthy msg).
  - set (la' := fresh (dom h1)).
    eexists _, lc', _, la', _, _, _. rewrite lookup_insert_eq. split; [reflexivity|].
    assert (la' ≠ lc') as D by (by eapply fresh_ne).
    split.
    + rewrite lookup_insert_ne by done. rewrite lookup_insert_ne by done. exact Hc1.
    + rewrite lookup_insert_ne. { apply lookup_insert_eq. }
      apply not_eq_sym. eapply fresh_ne. unfold h1. apply lookup_insert_eq.
  - eexists _, lc', _, la, _, _, _. unfold h1 at 1. rewrite lookup_insert_eq.
    split; [reflexivity|]. split; [exact Hc1 | exact Ha1].
Qed.

Lemma store_shape_set_alert message : inv_pres store_shape (_set_alert message).
Proof.
  intros w (f0 & lc & ts & la & dc & m & ta & Hd & Hc & Ha).
  rewrite (set_alert_run _ _ _ Hd). simpl. unfold store_shape. simpl.
  destruct (decide (lc = _latest_stats)) as [->|Hlc].
  - eexists _, _latest_stats, _, (fresh (dom (heap w))), _, _, _.
    rewrite lookup_insert_eq. split; [reflexivity|]. split; [reflexivity|].
    rewrite lookup_insert_ne by (apply not_eq_sym; by eapply fresh_ne).
    apply lookup_insert_eq.
  - eexists _, lc, _, (fresh (dom (heap w))), _, _, _.
    rewrite lookup_insert_eq. split; [reflexivity|]. split.
    + rewrite lookup_insert_ne by done.
      rewrite lookup_insert_ne; [exact Hc|]. by eapply fresh_ne.
    + rewrite lookup_insert_ne by (apply not_eq_sym; by eapply fresh_ne).
      apply lookup_insert_eq.
Qed.

Lemma store_shape_get_latest_stats w :
  store_shape w →
  ∃ r w' rc ra fps ts dc m ta,
    get_latest_stats w = (Ok r, w') ∧
    heap w' !! r = Some [("fps", VFloat fps); ("counts", VDict rc);
                         ("last_update_ts", VFloat ts); ("alert", VDict ra)] ∧
    heap w' !! rc = Some dc ∧
    heap w' !! ra = Some [("message", m); ("ts", VFloat ta)] ∧
    store_shape w'.
Proof.
  intros (f0 & lc & ts & la & dc & m & ta & Hd & Hc & Ha).
  assert (read_snapshot (heap w) _latest_stats =
          Some (Snapshot (VFloat f0) dc (VFloat ts) [("message", m); ("ts", VFloat ta)])) as Hs.
  { eapply read_snapshot_intro; eauto. }
  destruct (get_latest_stats_copy _ _ Hs)
    as (r & w' & rc & ra & Hrun & Hr & Hrc & Hra & _ & _ & _ & _ & _ & _ & Hold & _).
  simpl in *. exists r, w', rc, ra, f0, ts, dc, m, ta.
  repeat (split; [done|]).
  exists f0, lc, ts, la, dc, m, ta. split; [|split]; by apply Hold.
Qed.

Lemma store_shape_act a w : store_shape w → store_shape (act a w).
Proof.
  intros Hw. destruct a; simpl.
  - by apply store_shape_update.
  - by apply store_shape_set_alert.
  - destruct (store_shape_get_latest_stats w Hw)
      as (r & w' & rc & ra & fps & ts & dc & m & ta & -> & _ & _ & _ & H). done.
  - apply inv_pres_gen_next; [apply store_shape_heap_only| |done].
    intros. apply store_shape_update.
  - by rewrite gen_close_world.
Qed.

Lemma reachable_store_shape w : reachable w → store_shape w.
Proof.
  induction 1 as [w Hw|a w _ IH]; [by apply store_shape_loaded|by apply store_shape_act].
Qed.

(** C10. In every reachable world [get_latest_stats] returns, without
    raising, a dict with exactly the keys [fps], [counts], [last_update_ts],
    [alert], whose [alert] is a dict with exactly [message] and [ts]. When a
    field of the stats dict is absent the result carries its default:
    [0.0], [{}], [0.0], [{message: "", ts: 0.0}]. *)
Theorem get_latest_stats_total :
  (∀ w, reachable w →
     ∃ r w' rc ra fps ts dc m ta,
       get_latest_stats w = (Ok r, w') ∧
       heap w' !! r = Some [("fps", VFloat fps); ("counts", VDict rc);
                            ("last_update_ts", VFloat ts); ("alert", VDict ra)] ∧
       heap w' !! rc = Some dc ∧
       heap w' !! ra = Some [("message", m); ("ts", VFloat ta)]) ∧
  (∀ w d dc da,
     heap w !! _latest_stats = Some d →
     field_dict (heap w) d "counts" [] dc →
     field_dict (heap w) d "alert" [("message", VStr ""); ("ts", VFloat 0)] da →
     ∃ r w' rc ra,
       get_latest_stats w = (Ok r, w') ∧
       heap w' !! r =
         Some [("fps", default (VFloat 0) (PyDict.get "fps" d));
               ("counts", VDict rc);
               ("last_update_ts", default (VFloat 0) (PyDict.get "last_update_ts" d));
               ("alert", VDict ra)] ∧
       heap w' !! rc = Some dc ∧
       heap w' !! ra = Some da).
Proof.
  split.
  - intros w Hw. apply reachable_store_shape in Hw.
    destruct (store_shape_get_latest_stats w Hw)
      as (r & w' & rc & ra & fps & ts & dc & m & ta & H1 & H2 & H3 & H4 & _).
    exists r, w', rc, ra, fps, ts, dc, m, ta. done.
  - intros w d dc da Hd Hc Ha.
    pose proof (get_latest_stats_run w d dc da Hd Hc Ha) as Hrun.
    destruct (read_locs (heap w) dc da) as [[[r rc] ra] h4] eqn:EL.
    destruct (read_locs_spec _ _ _ _ _ _ _ EL) as (Nr & Nrc & Nra & N4 & Hrc & Hra & D3 & Hold).
    eexists r, _, rc, ra. split; [exact Hrun|]. simpl.
    split; [apply lookup_insert_eq|].
    split; rewrite lookup_insert_ne; congruence.
Qed.

(** ** Closed forms of one loop iteration *)

(** ** Counting and the plurality class *)

Lemma max_by_count_in best items :
  max_by_count best items = best ∨ In (max_by_count best items) items.
Proof.
  revert best. induction items as [|x items IH]; intros best; simpl; [by left|].
  destruct (snd best <? snd x)%Z.
  - destruct (IH x) as [->|?]; auto.
  - destruct (IH best) as [->|?]; auto.
Qed.

Lemma get_in_keys {V} k (d : list (string * V)) :
  In k (PyDict.keys d) → is_Some (PyDict.get k d).
Proof.
  intros Hin. destruct (PyDict.get k d) eqn:E; [eauto|].
  by apply get_None_keys in E.
Qed.

Lemma plurality_get x items :
  PyDict.get (fst (max_by_count x items)) (x :: items)
  = Some (snd (plurality (x :: items))).
Proof.
  assert (is_Some (PyDict.get (fst (max_by_count x items)) (x :: items))) as [n Hn].
  { apply get_in_keys. unfold PyDict.keys. apply in_map.
    destruct (max_by_count_in x items) as [->|?]; [by left|by right]. }
  unfold plurality. cbn [fst snd]. by rewrite Hn.
Qed.

Lemma truthy_alert_text counts : truthy (Some (alert_text counts)) = true.
Proof.
  unfold alert_text. destruct (str_of_int _); [|done].
  simpl. done.
Qed.

Lemma alert_policy_run counts lat w :
  alert_policy counts lat w =
    (Ok (alert_for counts lat (clock w (ticks w)),
         cooldown_after counts lat (clock w (ticks w))),
     match counts with
     | [] => w
     | _ => set_stdout (("Detected " ++ str_of_int (snd (plurality counts)) ++ " "
                           ++ fst (plurality counts) ++ "(s)") :: stdout w)
              (set_ticks (S (ticks w)) w)
     end).
Proof.
  destruct counts as [|x items]; [reflexivity|].
  unfold alert_policy. rewrite bind_eq. unfold time_time at 1.
  rewrite bind_eq. unfold lift at 1, py_max_items.
  rewrite bind_eq. unfold lift at 1, counts_getitem. rewrite plurality_get.
  rewrite bind_eq. unfold print at 1.
  unfold cooldown_after, alert_for, alert_text.
  change (fst (plurality (x :: items))) with (fst (max_by_count x items)).
  pose proof (truthy_alert_text (x :: items)) as T. unfold alert_text in T.
  change (fst (plurality (x :: items))) with (fst (max_by_count x items)) in T.
  destruct w as [h clk tk cp mc uc so]. unfold set_stdout, set_ticks. cbn [clock ticks stdout heap caps model_calls update_calls].
  destruct (Qgtb (clk tk - lat) alert_cooldown).
  - rewrite T. reflexivity.
  - reflexivity.
Qed.

Lemma sample_run l f w d counts :
  heap w !! _latest_stats = Some d →
  count_boxes (model l) (predict (model l) f) = Ok counts →
  sample l f w = (Ok (sampled_locals l f counts w), sampled_world l f counts d w).
Proof.
  destruct w as [h clk tk cp mc uc so]. simpl. intros Hd Hc.
  unfold sample. rewrite bind_eq. unfold time_time at 1. unfold set_ticks; simpl.
  rewrite bind_eq. unfold call_model at 1. unfold set_model_calls; simpl.
  rewrite bind_eq. unfold time_time at 1. unfold set_ticks; simpl.
  rewrite bind_eq. unfold lift at 1. rewrite Hc.
  rewrite bind_eq, alert_policy_run. simpl.
  rewrite bind_eq.
  destruct counts as [|x items].
  - erewrite update_run by exact Hd. reflexivity.
  - erewrite update_run by exact Hd. reflexivity.
Qed.

Lemma set_caps_id w c h : caps w !! h = Some c → set_caps (<[h := c]> (caps w)) w = w.
Proof. intros H. destruct w. unfold set_caps. simpl in *. by rewrite insert_id. Qed.

Lemma cap_read_empty h w c :
  caps w !! h = Some c → pending c = [] → cap_read h w = (Ok None, w).
Proof.
  intros Hc Hp. unfold cap_read, with_cap. rewrite Hc, Hp.
  by rewrite set_caps_id.
Qed.

Lemma cap_read_frame h w c f fs :
  caps w !! h = Some c → pending c = f :: fs →
  cap_read h w = (Ok (Some f), world_after_read h c w).
Proof.
  intros Hc Hp. unfold cap_read, with_cap, world_after_read. rewrite Hc, Hp. done.
Qed.

Lemma run_loop_stop l w c :
  caps w !! cap l = Some c → pending c = [] →
  run_loop l w =
    (Ok None,
     set_caps (<[cap l := Capture [] (props c) (S (releases c))]> (caps w)) w).
Proof.
  intros Hc Hp. unfold run_loop, loop_iteration.
  rewrite !bind_eq. erewrite cap_read_empty by done. simpl.
  rewrite bind_eq. unfold cap_release, with_cap. rewrite Hc. done.
Qed.

Lemma run_loop_skip l w c f fs :
  caps w !! cap l = Some c → pending c = f :: fs →
  ((frame_count l + 1) mod 6)%Z ≠ 0%Z →
  run_loop l w =
    (match rendered l f with
     | Ok out => Ok (Some (multipart out, set_frame_count (frame_count l + 1) l))
     | Raise e => Raise e
     end,
     world_after_read (cap l) c w).
Proof.
  intros Hc Hp Hm. unfold run_loop, loop_iteration.
  rewrite !bind_eq. erewrite cap_read_frame by done.
  cbn [frame_count set_frame_count].
  apply Z.eqb_neq in Hm. rewrite Hm. rewrite !bind_eq.
  unfold rendered, overlay, mret, M_ret, lift, mbind, result_bind.
  cbn [last_results set_frame_count model scale].
  destruct (last_results l) as [res|].
  - destruct (draw_boxes f res (model l)) as [img|e]; [|reflexivity].
    rewrite !bind_eq. destruct (cv2_resize img (scale l) (scale l)); reflexivity.
  - rewrite !bind_eq. destruct (cv2_resize f (scale l) (scale l)); reflexivity.
Qed.

Lemma run_loop_sample l w c f fs d counts :
  caps w !! cap l = Some c → pending c = f :: fs →
  ((frame_count l + 1) mod 6)%Z = 0%Z →
  heap w !! _latest_stats = Some d →
  count_boxes (model l) (predict (model l) f) = Ok counts →
  let l1 := set_frame_count (frame_count l + 1) l in
  let w1 := world_after_read (cap l) c w in
  run_loop l w =
    (match rendered (sampled_locals l1 f counts w1) f with
     | Ok out => Ok (Some (multipart out, sampled_locals l1 f counts w1))
     | Raise e => Raise e
     end,
     sampled_world l1 f counts d w1).
Proof.
  intros Hc Hp Hm Hd Hn l1 w1. unfold run_loop, loop_iteration.
  rewrite !bind_eq. erewrite cap_read_frame by done.
  cbn [frame_count set_frame_count].
  apply Z.eqb_eq in Hm. rewrite Hm. rewrite !bind_eq.
  subst l1 w1.
  erewrite (sample_run _ f _ d counts); [|done|done].
  unfold rendered, overlay, mret, M_ret, lift, mbind, result_bind.
  cbn [last_results sampled_locals model scale set_frame_count].
  destruct (draw_boxes f (predict (model l) f) (model l)) as [img|e]; [|reflexivity].
  rewrite !bind_eq. destruct (cv2_resize img (scale l) (scale l)); reflexivity.
Qed.

(** ** Loops over the detections *)

Lemma for_each_inv {A B} (P : A → Prop) (f : A → B → result A) l a a' :
  P a → (∀ a x a', P a → In x l → f a x = Ok a' → P a') →
  for_each f l a = Ok a' → P a'.
Proof.
  revert a. induction l as [|x l IH]; intros a Ha Hf; simpl.
  - by intros [= <-].
  - destruct (f a x) as [a1|e] eqn:E; simpl; [|done].
    apply IH.
    + eapply Hf; [done|by left|done].
    + intros a2 y a3 H2 Hy. apply Hf; [done|by right].
Qed.

Lemma for_each_total {A B} (f : A → B → result A) l a :
  (∀ a x, In x l → ∃ a', f a x = Ok a') → ∃ a', for_each f l a = Ok a'.
Proof.
  revert a. induction l as [|x l IH]; intros a Hf; simpl; [eauto|].
  destruct (Hf a x) as [a1 ->]; [by left|]. simpl.
  apply IH. intros a2 y Hy. apply Hf. by right.
Qed.

Lemma in_list_In s l : in_list s l = true ↔ In s l.
Proof.
  unfold in_list. rewrite existsb_exists. split.
  - intros (x & Hx & E). apply String.eqb_eq in E. by subst.
  - intros H. exists s. split; [done|apply String.eqb_refl].
Qed.

Lemma set_In_inv {V} k (v : V) d k' v' :
  In (k', v') (PyDict.set k v d) → (k' = k ∧ v' = v) ∨ In (k', v') d.
Proof.
  induction d as [|[k0 v0] d IH]; simpl.
  - intros [[= <- <-]|[]]. by left.
  - destruct (String.eqb k k0) eqn:E; simpl.
    + apply String.eqb_eq in E. subst k0.
      intros [[= <- <-]|H]; [by left|right; by right].
    + intros [H|H]; [right; by left|].
      destruct (IH H) as [?|?]; [by left|right; by right].
Qed.

Lemma keys_set_NoDup {V} k (v : V) d :
  List.NoDup (PyDict.keys d) → List.NoDup (PyDict.keys (PyDict.set k v d)).
Proof.
  intros Hd. destruct (PyDict.get k d) eqn:G.
  - rewrite keys_set_in; [done|].
    apply get_Some_in in G. unfold PyDict.keys. apply in_map_iff. by exists (k, v0).
  - apply get_None_keys in G. rewrite keys_set_new by done.
    apply NoDup_app_remove_l with (l := []). simpl.
    apply Permutation.Permutation_NoDup with (l := k :: PyDict.keys d).
    + apply Permutation.Permutation_cons_append.
    + by constructor.
Qed.

Lemma get_NoDup {V} k (v : V) d :
  List.NoDup (PyDict.keys d) → In (k, v) d → PyDict.get k d = Some v.
Proof.
  induction d as [|[k0 v0] d IH]; simpl; [done|].
  intros Hn [[= -> ->]|Hin].
  - by rewrite String.eqb_refl.
  - inversion Hn as [|? ? Hk0 Hd]; subst.
    destruct (String.eqb k k0) eqn:E.
    + apply String.eqb_eq in E. subst k0. exfalso. apply Hk0.
      unfold PyDict.keys. apply in_map_iff. by exists (k, v).
    + by apply IH.
Qed.

Lemma count_box_ok m counts b counts' :
  counts_ok counts → count_box m counts b = Ok counts' → counts_ok counts'.
Proof.
  intros [Hin Hnd].
  unfold count_box, is_allowed_class, names_getitem, mbind, mret, result_bind, result_ret.
  destruct (names m !! cls b) as [s|]; [|done].
  destruct (in_list s allowed_classes) eqn:A; cbn [negb]; intros [= <-]; [|done].
  split.
  - intros k n Hk. apply set_In_inv in Hk as [[-> ->]|Hk]; [|by apply Hin].
    split; [by apply in_list_In|].
    destruct (PyDict.get s counts) as [n0|] eqn:G; simpl; [|lia].
    apply get_Some_in, Hin in G. lia.
  - by apply keys_set_NoDup.
Qed.

Lemma count_boxes_ok m results counts :
  count_boxes m results = Ok counts → counts_ok counts.
Proof.
  unfold count_boxes. apply for_each_inv.
  - split; [intros ? ? []|constructor].
  - intros a r a' Ha _. apply for_each_inv; [done|].
    intros a1 b a2 H1 _. by apply count_box_ok.
Qed.

Lemma count_boxes_total m results :
  named m results → ∃ counts, count_boxes m results = Ok counts.
Proof.
  intros Hn. unfold count_boxes. apply for_each_total.
  intros a r Hr. apply for_each_total. intros a1 b Hb.
  unfold count_box, is_allowed_class, names_getitem, mbind, mret, result_bind, result_ret.
  destruct (Hn r b Hr Hb) as [s ->].
  destruct (in_list s allowed_classes); cbn [negb]; eauto.
Qed.

Lemma draw_box_run m fr b :
  draw_box m fr b =
    match names m !! cls b with
    | None => Raise KeyError
    | Some s =>
        if in_list s allowed_classes then
          if in_range b then
            Ok (let '(x1, y1, x2, y2) := xyxy b in
                PutText (Rectangle fr (x1, y1) (x2, y2)) s (conf b) (x1, y1 - 10)%Z)
          else Raise CvError
        else Ok fr
    end.
Proof.
  unfold draw_box, is_allowed_class, names_getitem, mbind, mret, result_bind, result_ret.
  destruct (names m !! cls b) as [s|]; [|done].
  destruct (in_list s allowed_classes); cbn [negb]; [|done].
  unfold in_range, cv2_rectangle, cv2_putText.
  destruct (xyxy b) as [[[x1 y1] x2] y2]. cbn [fst snd].
  destruct (c_int x1), (c_int y1), (c_int x2), (c_int y2), (c_int (y1 - 10)); reflexivity.
Qed.

Lemma draw_boxes_total m results f :
  named m results → drawable m results → ∃ img, draw_boxes f results m = Ok img.
Proof.
  intros Hn Hd. unfold draw_boxes. apply for_each_total.
  intros a r Hr. apply for_each_total. intros a1 b Hb.
  rewrite draw_box_run. destruct (Hn r b Hr Hb) as [s Hs]. rewrite Hs.
  destruct (in_list s allowed_classes) eqn:A; [|eauto].
  rewrite (Hd r b s); [eauto|done..|]. by apply in_list_In.
Qed.

Lemma draw_box_shape m a b a' : draw_box m a b = Ok a' → shape a' = shape a.
Proof.
  rewrite draw_box_run.
  destruct (names m !! cls b) as [s|]; [|done].
  destruct (in_list s allowed_classes); [|by intros [= <-]].
  destruct (in_range b); [|done]. intros [= <-].
  by destruct (xyxy b) as [[[x1 y1] x2] y2].
Qed.

Lemma draw_boxes_shape m results f img :
  draw_boxes f results m = Ok img → shape img = shape f.
Proof.
  unfold draw_boxes. apply (for_each_inv (λ a, shape a = shape f)); [done|].
  intros a r a' Ha _. apply (for_each_inv (λ a, shape a = shape f)); [done|].
  intros a1 b a2 H1 _ H2. apply draw_box_shape in H2. congruence.
Qed.

Lemma overlay_shape l f img : overlay l f = Ok img → shape img = shape f.
Proof.
  unfold overlay. destruct (last_results l); [apply draw_boxes_shape|by intros [= <-]].
Qed.

Lemma resize_ok_shape a b fx fy : shape a = shape b → resize_ok a fx fy = resize_ok b fx fy.
Proof. unfold resize_ok. by intros ->. Qed.

Lemma cv2_resize_Ok img fx fy out :
  cv2_resize img fx fy = Ok out → out = Resize img fx fy ∧ resize_ok img fx fy = true.
Proof.
  unfold cv2_resize. destruct (resize_ok img fx fy); [|done]. by intros [= <-].
Qed.

Lemma rendered_Ok l f img :
  overlay l f = Ok img → resize_ok f (scale l) (scale l) = true →
  rendered l f = Ok (Resize img (scale l) (scale l)).
Proof.
  intros Ho Hr. unfold rendered. rewrite Ho.
  unfold mbind, result_bind, cv2_resize.
  by rewrite (resize_ok_shape img f _ _ (overlay_shape _ _ _ Ho)), Hr.
Qed.

Lemma rendered_inv l f out :
  rendered l f = Ok out →
  ∃ img, overlay l f = Ok img ∧ out = Resize img (scale l) (scale l).
Proof.
  unfold rendered. destruct (overlay l f) as [img|e]; [|done].
  unfold mbind, result_bind. intros H. apply cv2_resize_Ok in H as [-> _]. eauto.
Qed.

(** The running maximum is the first item of greatest count. *)
Lemma max_by_count_split items : ∀ best p1 p2,
  (∀ x, In x p1 → (snd x < snd best)%Z) →
  (∀ x, In x p2 → (snd x ≤ snd best)%Z) →
  ∃ q1 q2,
    (p1 ++ best :: p2 ++ items = q1 ++ max_by_count best items :: q2)%list ∧
    (∀ x, In x q1 → (snd x < snd (max_by_count best items))%Z) ∧
    (∀ x, In x q2 → (snd x ≤ snd (max_by_count best items))%Z).
Proof.
  induction items as [|x items IH]; intros best p1 p2 H1 H2; simpl.
  - exists p1, p2. by rewrite app_nil_r.
  - destruct (snd best <? snd x)%Z eqn:E.
    + apply Z.ltb_lt in E.
      destruct (IH x (p1 ++ best :: p2)%list []) as (q1 & q2 & Heq & Hq1 & Hq2).
      * intros y Hy. apply in_app_iff in Hy as [Hy|[<-|Hy]]; [|done|].
        -- specialize (H1 y Hy). lia.
        -- specialize (H2 y Hy). lia.
      * intros ? [].
      * exists q1, q2. split; [|done]. rewrite <- Heq. simpl.
        by rewrite <- !app_assoc.
    + apply Z.ltb_ge in E.
      destruct (IH best p1 (p2 ++ [x])%list) as (q1 & q2 & Heq & Hq1 & Hq2); [done| |].
      * intros y Hy. apply in_app_iff in Hy as [Hy|[<-|[]]]; [by apply H2|done].
      * exists q1, q2. split; [|done]. rewrite <- Heq. by rewrite <- app_assoc.
Qed.

Lemma plurality_spec counts :
  counts_ok counts → counts ≠ [] →
  ∃ pre post,
    counts = (pre ++ plurality counts :: post)%list ∧
    (∀ x, In x pre → (snd x < snd (plurality counts))%Z) ∧
    (∀ x, In x post → (snd x ≤ snd (plurality counts))%Z) ∧
    PyDict.get (fst (plurality counts)) counts = Some (snd (plurality counts)) ∧
    (1 ≤ snd (plurality counts))%Z.
Proof.
  intros [Hin Hnd] Hne. destruct counts as [|x items]; [done|].
  destruct (max_by_count_split items x [] []) as (q1 & q2 & Heq & Hq1 & Hq2);
    [intros ? []|intros ? []|].
  simpl in Heq.
  assert (In (max_by_count x items) (x :: items)) as Hmem.
  { rewrite Heq. apply in_app_iff. right. by left. }
  assert (PyDict.get (fst (max_by_count x items)) (x :: items)
          = Some (snd (max_by_count x items))) as Hget.
  { apply get_NoDup; [done|]. by destruct (max_by_count x items). }
  assert (plurality (x :: items) = max_by_count x items) as Hp.
  { unfold plurality. cbn [fst snd]. rewrite Hget. simpl.
    by destruct (max_by_count x items). }
  rewrite Hp. exists q1, q2. repeat split; try done.
  destruct (max_by_count x items) as [k n]. by apply (Hin k n).
Qed.

Lemma sample_raise l f w e :
  count_boxes (model l) (predict (model l) f) = Raise e →
  ∃ w', sample l f w = (Raise e, w') ∧ quiet w w'.
Proof.
  intros Hc. destruct w as [h clk tk cp mc uc so].
  unfold sample. rewrite bind_eq. unfold time_time at 1. unfold set_ticks; simpl.
  rewrite bind_eq. unfold call_model at 1. unfold set_model_calls; simpl.
  rewrite bind_eq. unfold time_time at 1. unfold set_ticks; simpl.
  rewrite bind_eq. unfold lift at 1. rewrite Hc.
  eexists. split; [reflexivity|]. done.
Qed.

Lemma run_loop_cases l w d :
  heap w !! _latest_stats = Some d →
  ∃ r w',
    run_loop l w = (r, w') ∧
    ((quiet w w' ∧
      ∀ c l', r = Ok (Some (c, l')) →
        l' = set_frame_count (frame_count l + 1) l ∧
        ((frame_count l + 1) mod 6)%Z ≠ 0%Z)
     ∨
     (∃ c0 f fs counts,
        caps w !! cap l = Some c0 ∧ pending c0 = f :: fs ∧
        ((frame_count l + 1) mod 6)%Z = 0%Z ∧
        count_boxes (model l) (predict (model l) f) = Ok counts ∧
        let l1 := set_frame_count (frame_count l + 1) l in
        let w1 := world_after_read (cap l) c0 w in
        w' = sampled_world l1 f counts d w1 ∧
        ∀ c l', r = Ok (Some (c, l')) → l' = sampled_locals l1 f counts w1)).
Proof.
  intros Hd.
  destruct (caps w !! cap l) as [c0|] eqn:Hc.
  2:{ exists (Raise NameError), w. split.
      - unfold run_loop, loop_iteration, cap_read, with_cap.
        rewrite !bind_eq, Hc. reflexivity.
      - left. split; [done|]. intros ? ? [=]. }
  destruct (pending c0) as [|f fs] eqn:Hp.
  { eexists _, _. split; [by apply (run_loop_stop l w c0)|].
    left. split; [done|]. intros ? ? [=]. }
  destruct (decide (((frame_count l + 1) mod 6)%Z = 0%Z)) as [Hm|Hm].
  2:{ eexists _, _. split; [by apply (run_loop_skip l w c0 f fs)|].
      left. split; [done|]. intros c l'.
      destruct (rendered l f); intros [= <- <-]. done. }
  destruct (count_boxes (model l) (predict (model l) f)) as [counts|e] eqn:Hn.
  - eexists _, _. split; [by apply (run_loop_sample l w c0 f fs d counts)|].
    right. exists c0, f, fs, counts.
    split; [done|]. split; [done|]. split; [done|]. split; [done|].
    split; [done|]. intros c l'.
    destruct (rendered _ f); intros [= <- <-]. done.
  - destruct (sample_raise (set_frame_count (frame_count l + 1) l) f
                (world_after_read (cap l) c0 w) e Hn) as (w' & Hs & Hq).
    exists (Raise e), w'. split.
    + unfold run_loop, loop_iteration.
      rewrite !bind_eq. erewrite cap_read_frame by done.
      cbn [frame_count set_frame_count].
      apply Z.eqb_eq in Hm. rewrite Hm. rewrite !bind_eq, Hs. reflexivity.
    + left. split; [|intros ? ? [=]].
      destruct Hq as (? & ? & ?). split; [|split]; done.
Qed.

Lemma gen_next_cases l w d ev g' w' :
  heap w !! _latest_stats = Some d →
  gen_next (GenSuspended l) w = (ev, g', w') →
  (quiet w w' ∧
   ∀ l', g' = GenSuspended l' →
     l' = set_frame_count (frame_count l + 1) l ∧
     ((frame_count l + 1) mod 6)%Z ≠ 0%Z)
  ∨
  (∃ c0 f fs counts,
     caps w !! cap l = Some c0 ∧ pending c0 = f :: fs ∧
     ((frame_count l + 1) mod 6)%Z = 0%Z ∧
     count_boxes (model l) (predict (model l) f) = Ok counts ∧
     let l1 := set_frame_count (frame_count l + 1) l in
     let w1 := world_after_read (cap l) c0 w in
     w' = sampled_world l1 f counts d w1 ∧
     ∀ l', g' = GenSuspended l' → l' = sampled_locals l1 f counts w1).
Proof.
  intros Hd Hn. cbn [gen_next] in Hn.
  destruct (run_loop_cases l w d Hd) as (r & w1 & E & H). rewrite E in Hn.
  destruct H as [[Hq Hl]|(c0 & f & fs & counts & H1 & H2 & H3 & H4 & H5 & H6)].
  - left. destruct r as [[[c l1]|]|e]; cbn [finish] in Hn; injection Hn as <- <- <-;
      (split; [done|]); intros l' [=]. subst. by eapply Hl.
  - right. exists c0, f, fs, counts.
    split; [done|]. split; [done|]. split; [done|]. split; [done|].
    destruct r as [[[c l1]|]|e]; cbn [finish] in Hn; injection Hn as <- <- <-;
      (split; [done|]); intros l' [=]. subst. by eapply H6.
Qed.

Lemma cons_neq_self {A} (x : A) l : l ≠ x :: l.
Proof. intros E. apply (f_equal length) in E. simpl in E. lia. Qed.

Lemma prologue_run m src sc w :
  prologue m src sc w =
    (Ok (Locals m sc (fresh (dom (caps w))) 0 None 0 0),
     set_caps (<[fresh (dom (caps w)) :=
                  Capture src [(CAP_PROP_FPS, 15%Z); (CAP_PROP_BUFFERSIZE, 1%Z)] 0]>
                 (caps w)) w).
Proof.
  destruct w as [h clk tk cp mc uc so].
  unfold prologue. rewrite bind_eq. unfold VideoCapture at 1. unfold set_caps. simpl.
  rewrite bind_eq. unfold cap_set, with_cap. simpl. rewrite lookup_insert_eq. simpl.
  rewrite bind_eq. unfold set_caps. simpl. rewrite lookup_insert_eq. simpl.
  unfold set_caps. simpl. by rewrite !insert_insert_eq.
Qed.

Lemma gen_next_created m src sc w :
  gen_next (GenCreated m src sc) w =
    gen_next (GenSuspended (Locals m sc (fresh (dom (caps w))) 0 None 0 0))
      (set_caps (<[fresh (dom (caps w)) :=
                  Capture src [(CAP_PROP_FPS, 15%Z); (CAP_PROP_BUFFERSIZE, 1%Z)] 0]>
                 (caps w)) w).
Proof. cbn [gen_next]. by rewrite bind_eq, prologue_run. Qed.

(** What one [next] can add to the log of store updates. *)
Lemma gen_next_update_calls g w d ev g' w' :
  heap w !! _latest_stats = Some d →
  gen_next g w = (ev, g', w') →
  update_calls w' = update_calls w ∨
  ∃ m results counts fps lat ct,
    count_boxes m results = Ok counts ∧
    update_calls w' = (fps, counts, alert_for counts lat ct) :: update_calls w.
Proof.
  intros Hd. destruct g as [m src sc|l|].
  - rewrite gen_next_created. intros H.
    apply (gen_next_cases _ _ d) in H; [|done].
    destruct H as [[(_ & Hq & _) _]|(c0 & f & fs & counts & _ & _ & Hm & _)].
    + left. exact Hq.
    + cbn in Hm. done.
  - intros H. apply (gen_next_cases _ _ d) in H; [|done].
    destruct H as [[(_ & Hq & _) _]|(c0 & f & fs & counts & _ & _ & _ & Hc & -> & _)].
    + by left.
    + right. do 6 eexists. split; [exact Hc|]. reflexivity.
  - intros [= <- <- <-]. by left.
Qed.

(** C5. Whenever a call of [next] emits an alert, its text is
    ["<count> <class> detected"], where [<class>] is the first item of
    greatest count in the insertion order of [counts] (every item before it
    is strictly smaller, every item after it is not greater) and [<count>]
    is [counts[<class>]], at least 1. *)
Theorem alert_names_plurality_class g w d ev g' w' fps counts msg :
  heap w !! _latest_stats = Some d →
  gen_next g w = (ev, g', w') →
  update_calls w' = (fps, counts, Some msg) :: update_calls w →
  ∃ cls count pre post,
    msg = str_of_int count ++ " " ++ cls ++ " detected" ∧
    counts = (pre ++ (cls, count) :: post)%list ∧
    (∀ x, In x pre → (snd x < count)%Z) ∧
    (∀ x, In x post → (snd x ≤ count)%Z) ∧
    PyDict.get cls counts = Some count ∧
    (1 ≤ count)%Z.
Proof.
  intros Hd Hn Hu.
  destruct (gen_next_update_calls _ _ _ _ _ _ Hd Hn)
    as [E|(m & results & counts' & fps' & lat & ct & Hc & E)].
  { rewrite E in Hu. by apply cons_neq_self in Hu. }
  rewrite E in Hu. injection Hu as -> -> Ha.
  apply count_boxes_ok in Hc.
  unfold alert_for in Ha. destruct counts as [|x items] eqn:Ec; [done|].
  rewrite <- Ec in *.
  destruct (Qgtb _ _); [|done]. injection Ha as <-.
  destruct (plurality_spec counts Hc) as (pre & post & H1 & H2 & H3 & H4 & H5).
  { by rewrite Ec. }
  exists (fst (plurality counts)), (snd (plurality counts)), pre, post.
  split; [reflexivity|]. split; [|done].
  rewrite H1 at 1. by destruct (plurality counts).
Qed.

Lemma counts_allowed_heap_only : heap_only counts_allowed.
Proof. intros w w' E. unfold counts_allowed. by rewrite E. Qed.

Lemma counts_allowed_loaded w : heap w = initial_heap → counts_allowed w.
Proof.
  intros E. unfold counts_allowed. rewrite E.
  exists [("fps", VFloat 0); ("counts", VDict 2%positive);
          ("last_update_ts", VFloat 0); ("alert", VDict 3%positive)], 2%positive, [].
  repeat split; try done.
Qed.

Lemma keys_counts_values counts :
  PyDict.keys (counts_values counts) = PyDict.keys counts.
Proof. unfold PyDict.keys, counts_values. rewrite map_map. done. Qed.

Lemma heap_after_update_counts fps counts msg now now' d (h : gmap loc pydict) :
  h !! _latest_stats = Some d →
  ∃ d',
    heap_after_update fps counts msg now now' d h !! _latest_stats = Some d' ∧
    PyDict.get "fps" d' = Some (VFloat fps) ∧
    PyDict.get "counts" d' = Some (VDict (fresh (dom h))) ∧
    PyDict.get "last_update_ts" d' = Some (VFloat now) ∧
    (truthy msg = false → PyDict.get "alert" d' = PyDict.get "alert" d) ∧
    heap_after_update fps counts msg now now' d h !! fresh (dom h)
      = Some (counts_values counts).
Proof.
  intros Hd.
  pose proof (get_stats_after fps (fresh (dom h)) now d) as (Gf & Gc & Gt & Go).
  assert (fresh (dom h) ≠ _latest_stats) as Hne by (by eapply fresh_ne).
  unfold heap_after_update.
  set (h1 := <[_latest_stats := _]> (<[fresh (dom h) := _]> h)).
  assert (h1 !! fresh (dom h) = Some (counts_values counts)) as Hc1.
  { unfold h1. rewrite lookup_insert_ne by done. apply lookup_insert_eq. }
  destruct (truthy msg).
  - eexists. rewrite lookup_insert_eq. split; [reflexivity|].
    rewrite !get_set_ne by done. repeat (split; [done|]).
    rewrite lookup_insert_ne by done.
    rewrite lookup_insert_ne; [done|]. by eapply fresh_ne.
  - eexists. unfold h1 at 1. rewrite lookup_insert_eq. split; [reflexivity|].
    repeat (split; [done|]). split; [|done]. intros _. by apply Go.
Qed.

Lemma counts_allowed_update fps counts msg :
  (∀ k, In k (PyDict.keys counts) → In k allowed_classes) →
  inv_pres counts_allowed (_update_latest_stats fps counts msg).
Proof.
  intros Hk w (d & lc & dc & Hd & _).
  rewrite (update_run _ _ _ _ _ Hd). simpl.
  destruct (heap_after_update_counts fps counts msg (clock w (ticks w))
              (clock w (S (ticks w))) d (heap w) Hd) as (d' & H1 & _ & H2 & _ & _ & H3).
  exists d', (fresh (dom (heap w))), (counts_values counts). simpl.
  repeat (split; [done|]). by rewrite keys_counts_values.
Qed.

Lemma counts_allowed_gen_next g w :
  counts_allowed w → counts_allowed (gen_next g w).2.
Proof.
  apply inv_pres_gen_next; [apply counts_allowed_heap_only|].
  intros m f fps counts msg Hc. apply counts_allowed_update.
  intros k Hk. apply count_boxes_ok in Hc as [Hin _].
  unfold PyDict.keys in Hk. apply in_map_iff in Hk as ([k' n] & <- & Hk).
  by apply (Hin k' n).
Qed.

Lemma counts_not_allowed : ¬ In "counts" allowed_classes.
Proof. intros H. apply in_list_In in H. done. Qed.

Lemma counts_allowed_act a w : public a → counts_allowed w → counts_allowed (act a w).
Proof.
  intros Hp (d & lc & dc & Hd & Hc & Hdc & Hk). destruct a; simpl; [done| | | |].
  - rewrite (set_alert_run _ _ _ Hd). simpl.
    assert (lc ≠ _latest_stats) as Hlc.
    { intros ->. rewrite Hd in Hdc. injection Hdc as <-.
      apply counts_not_allowed, Hk. apply get_Some_in in Hc.
      unfold PyDict.keys. apply in_map_iff. by eexists (_, _). }
    exists (PyDict.set "alert" (VDict (fresh (dom (heap w)))) d), lc, dc. simpl.
    rewrite lookup_insert_eq. split; [done|].
    rewrite get_set_ne by done. split; [done|]. split; [|done].
    rewrite lookup_insert_ne by done.
    rewrite lookup_insert_ne; [done|]. by eapply fresh_ne.
  - exists d, lc, dc. split; [by apply holds_get_latest_stats|].
    split; [done|]. split; [by apply holds_get_latest_stats|done].
  - apply counts_allowed_gen_next. by exists d, lc, dc.
  - rewrite gen_close_world. by exists d, lc, dc.
Qed.

Lemma counts_allowed_acts ops w :
  Forall public ops → counts_allowed w → counts_allowed (acts ops w).
Proof.
  revert w. induction ops as [|a ops IH]; intros w Hp Hw; [done|].
  inversion Hp; subst. simpl. apply IH; [done|]. by apply counts_allowed_act.
Qed.

(** C4. For every detection set the [counts] built by the loop has allowed
    class names as keys only, and the [counts] dict of the store has allowed
    keys only after every call of [next], hence in every world the program
    reaches from the loaded module. *)
Theorem counts_within_allowlist :
  (∀ m results counts,
     count_boxes m results = Ok counts →
     ∀ k, In k (PyDict.keys counts) → In k allowed_classes) ∧
  (∀ g w, counts_allowed w → counts_allowed (gen_next g w).2) ∧
  (∀ w ops, heap w = initial_heap → Forall public ops → counts_allowed (acts ops w)).
Proof.
  split; [|split].
  - intros m results counts Hc k Hk. apply count_boxes_ok in Hc as [Hin _].
    unfold PyDict.keys in Hk. apply in_map_iff in Hk as ([k' n] & <- & Hk).
    by apply (Hin k' n).
  - apply counts_allowed_gen_next.
  - intros w ops Hw Hp. apply counts_allowed_acts; [done|].
    by apply counts_allowed_loaded.
Qed.

(** ** The state of a run from the start *)

Lemma py_max_pos a : (0 < py_max a 1e-6)%Q.
Proof.
  unfold py_max, Qgtb. destruct (Qle_bool 1e-6 a) eqn:E; simpl.
  - apply Qle_bool_iff in E. eapply Qlt_le_trans; [|exact E]. reflexivity.
  - reflexivity.
Qed.

Lemma instant_fps_pos dt : (0 < instant_fps_of dt)%Q.
Proof.
  unfold instant_fps_of. unfold Qdiv. rewrite Qmult_1_l.
  apply Qinv_lt_0_compat, py_max_pos.
Qed.

Lemma smooth_pos s i : (0 <= s)%Q → (0 < i)%Q → (0 < smooth s i)%Q.
Proof.
  intros Hs Hi. unfold smooth. destruct (Qeq_bool s 0); [done|].
  apply Qlt_le_trans with (0.1 * i)%Q.
  - apply Qmult_lt_0_compat; [reflexivity|done].
  - rewrite <- (Qplus_0_l (0.1 * i)) at 1. apply Qplus_le_l.
    apply Qmult_le_0_compat; [discriminate|done].
Qed.

Lemma smooth_first i : smooth 0 i = i.
Proof. reflexivity. Qed.

Lemma smooth_next s i : (0 < s)%Q → smooth s i = (0.9 * s + 0.1 * i)%Q.
Proof.
  intros Hs. unfold smooth. destruct (Qeq_bool s 0) eqn:E; [|done].
  apply Qeq_bool_iff in E. rewrite E in Hs. by apply Qlt_irrefl in Hs.
Qed.

Lemma mod6_Z n : ((Z.of_nat n + 1) mod 6)%Z = 0%Z ↔ (S n mod 6 = 0)%nat.
Proof. lia. Qed.

Lemma last_sample_index_hit n : (S n mod 6 = 0)%nat → (6 * (S n / 6) - 1 = n)%nat.
Proof. lia. Qed.

Lemma last_sample_index_miss n :
  (S n mod 6 ≠ 0)%nat → (6 * (S n / 6) - 1 = 6 * (n / 6) - 1)%nat ∧ ((S n <? 6) = (n <? 6))%nat.
Proof.
  intros H. split; [lia|].
  destruct (Nat.ltb_spec (S n) 6), (Nat.ltb_spec n 6); try done; lia.
Qed.

Lemma last_sample_index_lt n : (6 ≤ n)%nat → (6 * (n / 6) - 1 < n)%nat.
Proof. lia. Qed.

Lemma heap_after_update_is_Some fps counts msg now now' d (h : gmap loc pydict) :
  h !! _latest_stats = Some d →
  is_Some (heap_after_update fps counts msg now now' d h !! _latest_stats).
Proof.
  intros Hd.
  destruct (heap_after_update_counts fps counts msg now now' d h Hd) as (d' & H1 & _).
  eauto.
Qed.

Section Run.
Context (m : Model) (source : list image) (sc : Q) (h0 : nat).
Context (Hnames : names_cover m source).
Context (Hfit : boxes_fit m source).
Context (Hsize : resizes sc source).

Lemma loop_inv_overlay n l w f :
  loop_inv m source sc h0 n l w → (n ≤ length source)%nat →
  ∃ img, overlay l f = Ok img.
Proof.
  intros (Hm & _ & _ & _ & _ & _ & Hlr & _) Hn. unfold overlay. rewrite Hlr, Hm.
  destruct (Nat.ltb_spec n 6) as [|H6]; [eauto|].
  destruct (source !! (6 * (n / 6) - 1)%nat) as [f'|] eqn:E; simpl; [|eauto].
  assert (In f' source) as Hin.
  { apply list_elem_of_In. by eapply list_elem_of_lookup_2. }
  apply draw_boxes_total; [by apply Hnames|by apply Hfit].
Qed.

Lemma loop_inv_step n l w :
  loop_inv m source sc h0 n l w → (n < length source)%nat →
  ∃ f c d img l' w',
    source !! n = Some f ∧ caps w !! h0 = Some c ∧
    heap w !! _latest_stats = Some d ∧
    gen_next (GenSuspended l) w
      = (Yield (multipart (Resize img sc sc)), GenSuspended l', w') ∧
    loop_inv m source sc h0 (S n) l' w' ∧
    overlay l' f = Ok img ∧
    let l1 := set_frame_count (Z.of_nat (S n)) l in
    let w1 := world_after_read h0 c w in
    if (S n mod 6 =? 0)%nat
    then ∃ counts,
           count_boxes m (predict m f) = Ok counts ∧
           l' = sampled_locals l1 f counts w1 ∧
           w' = sampled_world l1 f counts d w1
    else l' = l1 ∧ w' = w1.
Proof.
  intros Hinv Hn.
  pose proof Hinv as (Hm & Hsc & Hcap & Hfc & (c & Hc & Hp & Hr) & [d Hd] & Hlr & Hs0 & Hs1).
  destruct (lookup_lt_is_Some_2 source n Hn) as [f Hf].
  assert (pending c = f :: drop (S n) source) as Hp'.
  { rewrite Hp. by apply drop_S. }
  assert (In f source) as Hin.
  { apply list_elem_of_In. by eapply list_elem_of_lookup_2. }
  assert (named m (predict m f)) as Hnamed by (by apply Hnames).
  assert (drawable m (predict m f)) as Hdraw by (by apply Hfit).
  assert (resize_ok f (scale l) (scale l) = true) as Hres.
  { rewrite Hsc. by apply Hsize. }
  assert (frame_count l + 1 = Z.of_nat (S n))%Z as Hfc' by lia.
  exists f, c, d.
  destruct (Nat.eqb_spec (S n mod 6) 0) as [H6|H6].
  - destruct (count_boxes_total m _ Hnamed) as [counts Hcounts].
    destruct (draw_boxes_total m _ f Hnamed Hdraw) as [img Himg].
    exists img. eexists _, _.
    split; [done|]. split; [done|]. split; [done|]. split.
    { cbn [gen_next].
      rewrite (run_loop_sample l w c f (drop (S n) source) d counts);
        rewrite ?Hm, ?Hcap; try done.
      - erewrite (rendered_Ok _ f img); [by rewrite <- Hsc| |exact Hres].
        unfold overlay, sampled_locals. cbn [last_results model set_frame_count].
        by rewrite Hm.
      - apply mod6_Z in H6. by rewrite Hfc. }
    rewrite Hfc'. split; [|split].
    + unfold loop_inv, sampled_locals, sampled_world.
      cbn [model scale cap frame_count last_results smoothed_fps set_frame_count
           caps heap world_after_read set_caps].
      repeat (split; [done|]). split.
      { eexists. rewrite lookup_insert_eq. split; [done|]. by rewrite Hp'. }
      split.
      { by eapply heap_after_update_is_Some. }
      split.
      { assert (6 ≤ S n)%nat as H by lia.
        apply Nat.ltb_ge in H. rewrite H. rewrite last_sample_index_hit by done.
        by rewrite Hm, Hf. }
      split; [intros; lia|]. intros _. apply smooth_pos; [|apply instant_fps_pos].
      destruct (Nat.lt_ge_cases n 6) as [H|H].
      * rewrite Hs0 by done. discriminate.
      * apply Qlt_le_weak. by apply Hs1.
    + unfold overlay, sampled_locals. cbn [last_results model set_frame_count].
      by rewrite Hm.
    + by exists counts.
  - destruct (loop_inv_overlay n l w f Hinv) as [img Himg]; [lia|].
    exists img. eexists _, _.
    split; [done|]. split; [done|]. split; [done|]. split.
    { cbn [gen_next].
      rewrite (run_loop_skip l w c f (drop (S n) source));
        rewrite ?Hm, ?Hcap; try done.
      - rewrite (rendered_Ok l f img Himg Hres). by rewrite <- Hsc.
      - rewrite Hfc. intros E. by apply mod6_Z in E. }
    rewrite Hfc'. split; [|split; [|done]].
    + destruct (last_sample_index_miss n H6) as [E1 E2].
      unfold loop_inv.
      cbn [model scale cap frame_count last_results smoothed_fps set_frame_count
           caps heap world_after_read set_caps].
      repeat (split; [done|]). split.
      { eexists. rewrite lookup_insert_eq. split; [done|]. by rewrite Hp'. }
      split; [eauto|]. split; [by rewrite E1, E2|].
      split; [intros; apply Hs0; lia|]. intros H. apply Hs1.
      destruct (Nat.eq_dec (S n) 6) as [E|E]; [|lia].
      rewrite E in H6. done.
    + done.
Qed.

End Run.

Lemma run_S n g w :
  run (S n) g w =
    let '(evs, g', w') := run n g w in
    let '(ev, g'', w'') := gen_next g' w' in
    ((evs ++ [ev])%list, g'', w'').
Proof. reflexivity. Qed.

Lemma run_created n m source sc w0 :
  run (S n) (GenCreated m source sc) w0 =
  run (S n) (GenSuspended (initial_locals m sc w0)) (opened_world source w0).
Proof.
  induction n as [|n IH].
  - cbn [run]. by rewrite gen_next_created.
  - rewrite (run_S (S n)), IH. by rewrite <- run_S.
Qed.

Section RunFromStart.
Context (m : Model) (source : list image) (sc : Q) (w0 : world) (d0 : pydict).
Context (Hstore : heap w0 !! _latest_stats = Some d0).
Context (Hnames : names_cover m source).
Context (Hfit : boxes_fit m source).
Context (Hsize : resizes sc source).

Let h0 := fresh (dom (caps w0)).

Lemma loop_inv_initial :
  loop_inv m source sc h0 0 (initial_locals m sc w0) (opened_world source w0).
Proof.
  unfold loop_inv, initial_locals, opened_world. simpl.
  repeat (split; [done|]). split.
  { eexists. rewrite lookup_insert_eq. done. }
  split; [eauto|]. split; [done|]. split; [done|]. intros; lia.
Qed.

Lemma run_inv n :
  (n ≤ length source)%nat →
  ∃ evs l w,
    run n (GenSuspended (initial_locals m sc w0)) (opened_world source w0)
      = (evs, GenSuspended l, w) ∧
    loop_inv m source sc h0 n l w ∧ clock w = clock w0 ∧
    length evs = n ∧ Forall (λ ev, ∃ c, ev = Yield c) evs.
Proof.
  induction n as [|n IH]; intros Hn.
  - eexists [], _, _. split; [reflexivity|]. split; [apply loop_inv_initial|].
    repeat split; done.
  - destruct IH as (evs & l & w & Hrun & Hinv & Hclk & Hlen & Hev); [lia|].
    destruct (loop_inv_step m source sc h0 Hnames Hfit Hsize n l w Hinv)
      as (f & c & d & img & l' & w' & Hf & Hc & Hd & Hnext & Hinv' & _ & Hcase); [lia|].
    eexists _, l', w'. rewrite run_S, Hrun, Hnext.
    split; [reflexivity|]. split; [done|]. split.
    { cbv zeta in Hcase. destruct (S n mod 6 =? 0)%nat.
      - destruct Hcase as (counts & _ & _ & ->). simpl. done.
      - destruct Hcase as [_ ->]. done. }
    split.
    + rewrite length_app. simpl. lia.
    + apply Forall_app. split; [done|]. constructor; [eauto|constructor].
Qed.

(** The state after [n] calls of [next] on a new generator, seen as the
    state [l], [wl] at the head of the loop. *)
Lemma run_from_start n :
  (n ≤ length source)%nat →
  ∃ evs g w l wl,
    run n (GenCreated m source sc) w0 = (evs, g, w) ∧
    gen_next g w = gen_next (GenSuspended l) wl ∧
    loop_inv m source sc h0 n l wl ∧
    heap w = heap wl ∧ clock w = clock wl ∧ ticks w = ticks wl ∧
    model_calls w = model_calls wl ∧ update_calls w = update_calls wl ∧
    clock w = clock w0 ∧
    ((0 < n)%nat → g = GenSuspended l ∧ w = wl) ∧
    length evs = n ∧ Forall (λ ev, ∃ c, ev = Yield c) evs.
Proof.
  intros Hn. destruct n as [|n].
  - eexists [], _, _, _, _. split; [reflexivity|].
    split; [apply gen_next_created|]. split; [apply loop_inv_initial|].
    repeat (split; [done|]). split; [intros; lia|]. done.
  - destruct (run_inv (S n) Hn) as (evs & l & w & Hrun & Hinv & Hclk & Hlen & Hev).
    exists evs, (GenSuspended l), w, l, w. rewrite run_created.
    repeat (split; [done|]). done.
Qed.

End RunFromStart.

(** C1. In a run over frames that can be annotated and resized, on the
    frame numbered [n+1] the detector is invoked iff [(n+1) mod 6 = 0];
    the overlay of every frame is drawn from the result of the most recent
    invocation, and frames before the first invocation carry no overlay. *)
Theorem detection_every_sixth_frame m source sc w0 d0 n :
  heap w0 !! _latest_stats = Some d0 →
  names_cover m source → boxes_fit m source → resizes sc source →
  (n < length source)%nat →
  ∃ evs g w f c l' w' img,
    run n (GenCreated m source sc) w0 = (evs, g, w) ∧
    source !! n = Some f ∧
    gen_next g w = (Yield c, GenSuspended l', w') ∧
    frame_count l' = Z.of_nat (S n) ∧
    model_calls w' =
      (if (S n mod 6 =? 0)%nat then f :: model_calls w else model_calls w) ∧
    last_results l' =
      (if (S n <? 6)%nat then None
       else predict m <$> source !! (6 * (S n / 6) - 1)%nat) ∧
    match last_results l' with
    | Some results => draw_boxes f results m = Ok img
    | None => img = f
    end ∧
    payload c = Resize img sc sc.
Proof.
  intros Hstore Hnames Hfit Hsize Hn.
  destruct (run_from_start m source sc w0 d0 Hstore Hnames Hfit Hsize n)
    as (evs & g & w & l & wl & Hrun & Hg & Hinv & _ & _ & _ & Hmc & _); [lia|].
  destruct (loop_inv_step m source sc _ Hnames Hfit Hsize n l wl Hinv Hn)
    as (f & c & d & img & l' & w' & Hf & Hc & Hd & Hnext & Hinv' & Hov & Hcase).
  exists evs, g, w, f, (multipart (Resize img sc sc)), l', w', img.
  split; [done|]. split; [done|]. split; [by rewrite Hg|].
  destruct Hinv' as (Hm & _ & _ & Hfc & _ & _ & Hlr & _).
  split; [done|]. split.
  { cbv zeta in Hcase. rewrite Hmc. destruct (S n mod 6 =? 0)%nat.
    - by destruct Hcase as (counts & _ & _ & ->).
    - by destruct Hcase as [_ ->]. }
  split; [done|]. split; [|done].
  unfold overlay in Hov. rewrite Hm in Hov.
  destruct (last_results l'); [done|]. by injection Hov.
Qed.

(** C2. In a run over frames that can be annotated and resized: on a
    sampling frame [instant_fps = 1/max(dt, 1e-6)] for the two clock
    readings around the detector call. After the first sample
    (frame 6) the smoothed value is that instant value; after every later
    sample it is [0.9 * smoothed + 0.1 * instant]; the frames in between
    carry it unchanged. *)
Theorem smoothed_fps_is_seeded_ema m source sc w0 d0 n :
  heap w0 !! _latest_stats = Some d0 →
  names_cover m source → boxes_fit m source → resizes sc source →
  (n < length source)%nat →
  ∃ evs g w c l' w',
    run n (GenCreated m source sc) w0 = (evs, g, w) ∧
    gen_next g w = (Yield c, GenSuspended l', w') ∧
    let infer_dt := (clock w (S (ticks w)) - clock w (ticks w))%Q in
    let instant_fps := (1 / py_max infer_dt 1e-6)%Q in
    if (S n mod 6 =? 0)%nat then
      if (S n =? 6)%nat then smoothed_fps l' = instant_fps
      else ∃ l, g = GenSuspended l ∧
                smoothed_fps l' = (0.9 * smoothed_fps l + 0.1 * instant_fps)%Q
    else
      ((S n < 6)%nat → smoothed_fps l' = 0%Q) ∧
      (∀ l, g = GenSuspended l → smoothed_fps l' = smoothed_fps l).
Proof.
  intros Hstore Hnames Hfit Hsize Hn.
  destruct (run_from_start m source sc w0 d0 Hstore Hnames Hfit Hsize n)
    as (evs & g & w & l & wl & Hrun & Hg & Hinv & _ & Hclk & Htk & _ & _ & _ & Hpos & _);
    [lia|].
  destruct (loop_inv_step m source sc _ Hnames Hfit Hsize n l wl Hinv Hn)
    as (f & c & d & img & l' & w' & Hf & Hc & Hd & Hnext & Hinv' & Hov & Hcase).
  exists evs, g, w, (multipart (Resize img sc sc)), l', w'.
  split; [done|]. split; [by rewrite Hg|].
  destruct Hinv as (_ & _ & _ & _ & _ & _ & _ & Hs0 & Hs1).
  cbv zeta in *. rewrite Hclk, Htk.
  destruct (Nat.eqb_spec (S n mod 6) 0) as [H6|H6].
  - destruct Hcase as (counts & _ & -> & _).
    unfold sampled_locals. cbn [smoothed_fps set_frame_count].
    cbn [clock ticks world_after_read set_caps].
    destruct (Nat.eqb_spec (S n) 6) as [E|E].
    + rewrite Hs0 by lia. reflexivity.
    + destruct Hpos as [-> _]; [lia|]. exists l. split; [done|].
      apply smooth_next, Hs1. lia.
  - destruct Hcase as [-> _]. cbn [smoothed_fps set_frame_count]. split.
    + intros. apply Hs0. lia.
    + intros l2. destruct n as [|n].
      * cbn [run] in Hrun. by injection Hrun as _ <- _.
      * destruct Hpos as [-> _]; [lia|]. by intros [= ->].
Qed.

Lemma Qgtb_spec a b : Qgtb a b = true ↔ (b < a)%Q.
Proof.
  unfold Qgtb. rewrite negb_true_iff. split.
  - intros H. apply Qnot_le_lt. intros Hle. apply Qle_bool_iff in Hle. congruence.
  - intros H. destruct (Qle_bool a b) eqn:E; [|done].
    apply Qle_bool_iff in E. exfalso. by eapply Qlt_not_le.
Qed.

Lemma sampled_world_update_calls l f counts d w :
  update_calls (sampled_world l f counts d w) =
    (smooth (smoothed_fps l) (instant_fps_of (clock w (S (ticks w)) - clock w (ticks w))),
     counts,
     alert_for counts (last_alert_time l) (clock w (S (S (ticks w)))))
    :: update_calls w.
Proof. reflexivity. Qed.

Lemma sampled_world_heap l f counts d w fps c a :
  update_calls (sampled_world l f counts d w) = (fps, c, a) :: update_calls w →
  ∃ now now',
    heap (sampled_world l f counts d w)
      = heap_after_update fps counts a now now' d (heap w).
Proof. intros [= <- <- <-]. eexists _, _. reflexivity. Qed.

Lemma gen_next_not_created g w ev g' w' m s c :
  gen_next g w = (ev, g', w') → g' ≠ GenCreated m s c.
Proof.
  destruct g as [m0 s0 c0|l|]; cbn [gen_next].
  - destruct ((prologue m0 s0 c0 ≫= run_loop) w) as [[[[? ?]|]|?] ?];
      cbn [finish]; by intros [= <- <- <-].
  - destruct (run_loop l w) as [[[[? ?]|]|?] ?];
      cbn [finish]; by intros [= <- <- <-].
  - by intros [= <- <- <-].
Qed.

Lemma run_suspended k : ∀ l w evs g' w',
  store_loaded w →
  run k (GenSuspended l) w = (evs, g', w') →
  store_loaded w' ∧ clock w' = clock w ∧
  (∀ m s c, g' ≠ GenCreated m s c) ∧
  ∃ mid,
    update_calls w' = (mid ++ update_calls w)%list ∧
    (∀ l', g' = GenSuspended l' →
       Forall (λ e, logged_counts e = []) mid →
       last_alert_time l' = last_alert_time l).
Proof.
  induction k as [|k IH]; intros l w evs g' w' Hst.
  - cbn [run]. intros [= <- <- <-]. repeat (split; [done|]).
    exists []. split; [done|]. by intros l' [= <-].
  - rewrite run_S. destruct (run k (GenSuspended l) w) as [[evs1 g1] w1] eqn:Hrun.
    destruct (IH _ _ _ _ _ Hst Hrun) as (Hst1 & Hclk1 & Hnc1 & mid1 & Hmid1 & Hlat1).
    destruct (gen_next g1 w1) as [[ev g2] w2] eqn:Hnext. intros [= <- <- <-].
    destruct g1 as [m0 s0 c0|l1|].
    + by destruct (Hnc1 m0 s0 c0).
    + destruct Hst1 as [d1 Hd1].
      assert (∀ m s c, g2 ≠ GenCreated m s c) as Hnc2
        by (intros; by eapply gen_next_not_created).
      destruct (gen_next_cases _ _ _ _ _ _ Hd1 Hnext)
        as [[(Hh & Hu & Hc) Hl]|(c0 & f & fs & counts & _ & _ & _ & _ & Hw & Hl)].
      * split; [unfold store_loaded; rewrite Hh; eauto|].
        split; [congruence|]. split; [intros; apply Hnc2|].
        exists mid1. split; [congruence|].
        intros l' Hg Hall. destruct (Hl l' Hg) as [-> _].
        cbn [last_alert_time set_frame_count]. by apply Hlat1.
      * cbv zeta in Hw, Hl. split.
        { rewrite Hw. by eapply heap_after_update_is_Some. }
        split; [rewrite Hw; cbn; congruence|]. split; [intros; apply Hnc2|].
        eexists (_ :: mid1). split.
        { rewrite Hw, sampled_world_update_calls. cbn. by rewrite Hmid1. }
        intros l' Hg Hall. rewrite (Hl l' Hg).
        inversion Hall as [|? ? Hc Hall']; subst. unfold logged_counts in Hc.
        cbn in Hc. subst counts.
        cbn. by apply Hlat1.
    + cbn [gen_next] in Hnext. injection Hnext as <- <- <-.
      repeat (split; [done|]). exists mid1. split; [done|]. by intros l' [=].
Qed.

(** C3. Between an alert emitted at time [t1] and the next sampling frame
    with non-empty counts, at time [t2], the cooldown timer stays at [t1];
    an alert is emitted at [t2] iff [t2 - t1 > 3]. When it is not, [fps] and
    [counts] are still written to the store while the alert and the timer
    are unchanged. A sampling frame with empty counts emits no alert and
    leaves the timer unchanged. *)
Theorem alert_cooldown_policy :
  (∀ l1 w1 c1 l2 w2 fps1 counts1 msg1 k evs l3 w3 mid c2 l4 w4 fps2 counts2 a2,
     store_loaded w1 →
     (* a sampling frame on which an alert is emitted *)
     gen_next (GenSuspended l1) w1 = (Yield c1, GenSuspended l2, w2) →
     update_calls w2 = (fps1, counts1, Some msg1) :: update_calls w1 →
     (* any number of frames on which nothing is counted *)
     run k (GenSuspended l2) w2 = (evs, GenSuspended l3, w3) →
     update_calls w3 = (mid ++ update_calls w2)%list →
     Forall (λ e, logged_counts e = []) mid →
     (* the next sampling frame with non-empty counts *)
     gen_next (GenSuspended l3) w3 = (Yield c2, GenSuspended l4, w4) →
     update_calls w4 = (fps2, counts2, a2) :: update_calls w3 →
     counts2 ≠ [] →
     let t1 := clock w1 (S (S (ticks w1))) in
     let t2 := clock w3 (S (S (ticks w3))) in
     last_alert_time l2 = t1 ∧ last_alert_time l3 = t1 ∧
     (is_Some a2 ↔ (3 < t2 - t1)%Q) ∧
     (is_Some a2 → last_alert_time l4 = t2) ∧
     (a2 = None →
        last_alert_time l4 = t1 ∧
        ∃ d3 d4 lc,
          heap w3 !! _latest_stats = Some d3 ∧
          heap w4 !! _latest_stats = Some d4 ∧
          PyDict.get "fps" d4 = Some (VFloat fps2) ∧
          PyDict.get "counts" d4 = Some (VDict lc) ∧
          heap w4 !! lc = Some (counts_values counts2) ∧
          PyDict.get "alert" d4 = PyDict.get "alert" d3 ∧
          ∀ l, l ≠ _latest_stats → is_Some (heap w3 !! l) →
               heap w4 !! l = heap w3 !! l)) ∧
  (∀ l w ev l' w' fps a,
     store_loaded w →
     gen_next (GenSuspended l) w = (ev, GenSuspended l', w') →
     update_calls w' = (fps, [], a) :: update_calls w →
     a = None ∧ last_alert_time l' = last_alert_time l).
Proof.
  split.
  - intros l1 w1 c1 l2 w2 fps1 counts1 msg1 k evs l3 w3 mid c2 l4 w4 fps2 counts2 a2
      [d1 Hd1] Hn1 Hu1 Hrun Hmid Hall Hn2 Hu2 Hne t1 t2.
    (* event 1 *)
    destruct (gen_next_cases _ _ _ _ _ _ Hd1 Hn1)
      as [[(_ & Hq & _) _]|(c0 & f & fs & counts & _ & _ & _ & _ & Hw2 & Hl2)].
    { rewrite Hq in Hu1. by apply cons_neq_self in Hu1. }
    cbv zeta in Hw2, Hl2. specialize (Hl2 l2 eq_refl).
    assert (store_loaded w2) as Hst2.
    { rewrite Hw2. by eapply heap_after_update_is_Some. }
    assert (clock w2 = clock w1) as Hclk2 by (by rewrite Hw2).
    rewrite Hw2, sampled_world_update_calls in Hu1. cbn in Hu1.
    injection Hu1 as _ -> Ha1.
    assert (last_alert_time l2 = t1) as Ht1.
    { rewrite Hl2. cbn. unfold cooldown_after. by rewrite Ha1. }
    (* the frames in between *)
    destruct (run_suspended _ _ _ _ _ _ Hst2 Hrun)
      as ([d3 Hd3] & Hclk3 & _ & mid' & Hmid' & Hlat).
    assert (mid' = mid) as ->.
    { rewrite Hmid in Hmid'. by apply app_inv_tail in Hmid'. }
    assert (last_alert_time l3 = t1) as Ht3.
    { rewrite <- Ht1. by apply Hlat. }
    (* event 2 *)
    destruct (gen_next_cases _ _ _ _ _ _ Hd3 Hn2)
      as [[(_ & Hq & _) _]|(c0' & f' & fs' & counts' & _ & _ & _ & _ & Hw4 & Hl4)].
    { rewrite Hq in Hu2. by apply cons_neq_self in Hu2. }
    cbv zeta in Hw4, Hl4. specialize (Hl4 l4 eq_refl).
    pose proof Hu2 as Hu2'.
    rewrite Hw4, sampled_world_update_calls in Hu2'. cbn in Hu2'.
    injection Hu2' as Hfps -> Ha2.
    rewrite Ht3 in Ha2. fold t2 in Ha2.
    destruct counts2 as [|x items] eqn:Ec; [done|]. rewrite <- Ec in *.
    assert (a2 = if Qgtb (t2 - t1) alert_cooldown
                 then Some (alert_text counts2) else None) as Ha2'.
    { rewrite <- Ha2. unfold alert_for. by rewrite Ec. }
    assert (last_alert_time l4 = match a2 with Some _ => t2 | None => t1 end) as Hl4'.
    { rewrite Hl4. cbn. unfold cooldown_after. rewrite Ht3. fold t2. by rewrite Ha2. }
    split; [done|]. split; [done|]. split; [|split].
    + rewrite Ha2'. destruct (Qgtb (t2 - t1) alert_cooldown) eqn:G.
      * split; [|eauto]. intros _. by apply Qgtb_spec in G.
      * split; [by intros [? [=]]|]. intros H. apply Qgtb_spec in H.
        unfold alert_cooldown in G. congruence.
    + intros [msg ->]. done.
    + intros ->. split; [done|].
      rewrite Hw4 in Hu2.
      destruct (sampled_world_heap _ _ _ _ _ _ _ _ Hu2) as (now & now' & Hh).
      rewrite Hw4, Hh. cbn [heap world_after_read set_caps].
      destruct (heap_after_update_counts fps2 counts2 None now now' d3 (heap w3) Hd3)
        as (d4 & H1 & H2 & H3 & _ & H4 & H5).
      exists d3, d4, (fresh (dom (heap w3))).
      split; [done|]. split; [exact H1|]. split; [exact H2|]. split; [exact H3|].
      split; [exact H5|]. split; [by apply H4|].
      intros l Hl Hs. by apply heap_after_update_old.
  - intros l w ev l' w' fps a [d Hd] Hn Hu.
    destruct (gen_next_cases _ _ _ _ _ _ Hd Hn)
      as [[(_ & Hq & _) _]|(c0 & f & fs & counts & _ & _ & _ & _ & Hw & Hl)].
    { rewrite Hq in Hu. by apply cons_neq_self in Hu. }
    cbv zeta in Hw, Hl. specialize (Hl l' eq_refl).
    rewrite Hw, sampled_world_update_calls in Hu. cbn in Hu.
    injection Hu as _ -> <-. split; [done|]. by rewrite Hl.
Qed.

Lemma run_add a b g w :
  run (a + b) g w =
    let '(evs1, g1, w1) := run a g w in
    let '(evs2, g2, w2) := run b g1 w1 in
    ((evs1 ++ evs2)%list, g2, w2).
Proof.
  induction b as [|b IH].
  - rewrite Nat.add_0_r. cbn [run]. destruct (run a g w) as [[evs1 g1] w1].
    by rewrite app_nil_r.
  - rewrite Nat.add_succ_r, run_S, IH.
    destruct (run a g w) as [[evs1 g1] w1]. rewrite run_S.
    destruct (run b g1 w1) as [[evs2 g2] w2].
    destruct (gen_next g2 w2) as [[ev g3] w3]. by rewrite app_assoc.
Qed.

Lemma set_caps_set_caps c c' w : set_caps c' (set_caps c w) = set_caps c' w.
Proof. by destruct w. Qed.

Section Quiet.
Context (m : Model) (source : list image) (sc : Q) (h0 : nat).
Context (Hnames : names_cover m source).
Context (Hfit : boxes_fit m source).
Context (Hsize : resizes sc source).

(** Frames between two sampling frames change the frame counter and the
    source only. *)
Lemma run_quiet_frames j : ∀ n l w,
  loop_inv m source sc h0 n l w →
  (∀ i, (n < i ≤ n + j)%nat → (i mod 6 ≠ 0)%nat) →
  (n + j ≤ length source)%nat →
  ∃ evs cs,
    run j (GenSuspended l) w
      = (evs, GenSuspended (set_frame_count (Z.of_nat (n + j)) l), set_caps cs w) ∧
    loop_inv m source sc h0 (n + j)
      (set_frame_count (Z.of_nat (n + j)) l) (set_caps cs w) ∧
    length evs = j ∧ Forall (λ ev, ∃ c, ev = Yield c) evs.
Proof.
  induction j as [|j IH]; intros n l w Hinv Hq Hlen.
  - exists [], (caps w). rewrite Nat.add_0_r. cbn [run].
    assert (set_frame_count (Z.of_nat n) l = l) as ->.
    { destruct Hinv as (_ & _ & _ & <- & _). by destruct l. }
    assert (set_caps (caps w) w = w) as -> by (by destruct w).
    done.
  - destruct (IH n l w Hinv) as (evs & cs & Hrun & Hinv' & Hl & Hev); [intros; apply Hq; lia|lia|].
    destruct (loop_inv_step m source sc h0 Hnames Hfit Hsize _ _ _ Hinv')
      as (f & c & d & img & l' & w' & Hf & Hc & Hd & Hnext & Hinv'' & _ & Hcase); [lia|].
    cbv zeta in Hcase.
    destruct (Nat.eqb_spec (S (n + j) mod 6) 0) as [E|_].
    { exfalso. revert E. apply Hq. lia. }
    destruct Hcase as [-> ->]. rewrite Nat.add_succ_r.
    eexists (evs ++ [_])%list, _. rewrite run_S, Hrun, Hnext. split.
    { unfold world_after_read. rewrite set_caps_set_caps. reflexivity. }
    split.
    { unfold world_after_read in Hinv''. by rewrite set_caps_set_caps in Hinv''. }
    split; [rewrite length_app; simpl; lia|].
    apply Forall_app. split; [done|]. constructor; [eauto|constructor].
Qed.

End Quiet.

(** A run that exhausts the source. *)
Lemma run_exhausted m source sc h0 l w :
  loop_inv m source sc h0 (length source) l w →
  ∃ c, caps w !! h0 = Some c ∧
       gen_next (GenSuspended l) w
         = (StopIteration, GenClosed,
            set_caps (<[h0 := Capture [] (props c) 1]> (caps w)) w).
Proof.
  intros (_ & _ & Hcap & _ & (c & Hc & Hp & Hr) & _).
  exists c. split; [done|]. cbn [gen_next].
  rewrite (run_loop_stop l w c); rewrite ?Hcap; try done.
  - by rewrite Hr.
  - by rewrite Hp, drop_all.
Qed.

Lemma person_detector_named m source : person_detector m → names_cover m source.
Proof.
  intros Hp f _ r b Hr Hb. destruct (Hp f) as (b0 & E & Hn). rewrite E in Hr.
  destruct Hr as [<-|[]]. destruct Hb as [<-|[]]. eauto.
Qed.

Lemma count_person m f :
  person_detector m → count_boxes m (predict m f) = Ok [("person", 1%Z)].
Proof.
  intros Hp. destruct (Hp f) as (b & -> & Hn).
  unfold count_boxes, for_each, boxes, count_box, is_allowed_class, names_getitem,
    mbind, mret, result_bind, result_ret.
  rewrite Hn. reflexivity.
Qed.

Lemma Qgtb_false a b : (a <= b)%Q → Qgtb a b = false.
Proof. intros H. unfold Qgtb. apply Qle_bool_iff in H. by rewrite H. Qed.

Lemma Forall_yield_chunks evs :
  Forall (λ ev, ∃ c, ev = Yield c) evs → ∃ chunks, evs = Yield <$> chunks.
Proof.
  induction 1 as [|ev evs [c ->] _ [chunks ->]]; [by exists []|].
  by exists (c :: chunks).
Qed.

(** C8, amended. For a source of 12 frames that can be annotated and
    resized and a detector that returns one "person" detection on every
    call, the detector is invoked exactly twice (frames 6 and 12), the
    store is updated twice and 12 chunks are produced before the sequence
    ends. When the clock reads more than 3 at frame 6 and frame 12 is
    sampled at most 3 seconds after frame 6, exactly one alert is emitted
    (at frame 6). *)
Theorem twelve_frames_one_alert m source sc w0 d0 :
  heap w0 !! _latest_stats = Some d0 →
  length source = 12%nat →
  person_detector m →
  boxes_fit m source → resizes sc source →
  ∃ chunks w f6 f12 fps6 fps12 a6 a12,
    run 13 (GenCreated m source sc) w0
      = ((Yield <$> chunks) ++ [StopIteration], GenClosed, w)%list ∧
    length chunks = 12%nat ∧
    source !! 5%nat = Some f6 ∧ source !! 11%nat = Some f12 ∧
    model_calls w = f12 :: f6 :: model_calls w0 ∧
    update_calls w =
      (fps12, [("person", 1%Z)], a12)
      :: (fps6, [("person", 1%Z)], a6)
      :: update_calls w0 ∧
    let t6 := clock w0 (ticks w0 + 2) in
    let t12 := clock w0 (ticks w0 + 7) in
    ((3 < t6 - 0)%Q → (t12 - t6 <= 3)%Q →
     a6 = Some "1 person detected" ∧ a12 = None).
Proof.
  intros Hstore Hlen Hp Hfit Hsize.
  pose proof (person_detector_named m source Hp) as Hnames.
  set (h0 := fresh (dom (caps w0))).
  pose proof (loop_inv_initial m source sc w0 d0 Hstore) as Hinv0.
  fold h0 in Hinv0.
  (* frames 1 to 5 *)
  destruct (run_quiet_frames m source sc h0 Hnames Hfit Hsize 5 0 _ _ Hinv0)
    as (evs5 & cs5 & Hrun5 & Hinv5 & Hl5 & Hev5); [intros i Hi; lia|lia|].
  (* frame 6 *)
  destruct (loop_inv_step m source sc h0 Hnames Hfit Hsize _ _ _ Hinv5)
    as (f6 & c5 & d5 & img6 & l6 & w6 & Hf6 & Hc5 & Hd5 & Hnext6 & Hinv6 & _ & Hcase6);
    [lia|].
  cbv zeta in Hcase6. change (S (0 + 5) mod 6 =? 0)%nat with true in Hcase6.
  destruct Hcase6 as (counts6 & Hcount6 & Hl6 & Hw6).
  rewrite count_person in Hcount6 by done. injection Hcount6 as <-.
  (* frames 7 to 11 *)
  destruct (run_quiet_frames m source sc h0 Hnames Hfit Hsize 5 6 _ _ Hinv6)
    as (evs11 & cs11 & Hrun11 & Hinv11 & Hl11 & Hev11); [intros i Hi; lia|lia|].
  (* frame 12 *)
  destruct (loop_inv_step m source sc h0 Hnames Hfit Hsize _ _ _ Hinv11)
    as (f12 & c11 & d11 & img12 & l12 & w12 & Hf12 & Hc11 & Hd11 & Hnext12 & Hinv12 & _ & Hcase12);
    [lia|].
  cbv zeta in Hcase12. change (S (6 + 5) mod 6 =? 0)%nat with true in Hcase12.
  destruct Hcase12 as (counts12 & Hcount12 & Hl12 & Hw12).
  rewrite count_person in Hcount12 by done. injection Hcount12 as <-.
  (* the source is exhausted *)
  change (S (6 + 5)) with 12%nat in Hinv12. rewrite <- Hlen in Hinv12.
  destruct (run_exhausted _ _ _ _ _ _ Hinv12) as (c12 & Hc12 & Hnext13).
  destruct (Forall_yield_chunks _ Hev5) as (ch5 & ->).
  destruct (Forall_yield_chunks _ Hev11) as (ch11 & ->).
  rewrite length_fmap in Hl5, Hl11.
  (* the world after frame 6 *)
  assert (model_calls w6 = f6 :: model_calls w0 ∧ clock w6 = clock w0 ∧
          ∃ fps6, update_calls w6
                  = (fps6, [("person", 1%Z)],
                     alert_for [("person", 1%Z)] 0 (clock w0 (S (S (ticks w0)))))
                    :: update_calls w0)
    as (Hmc6 & Hclk6 & fps6 & Huc6).
  { rewrite Hw6. unfold sampled_world.
    cbn [model_calls ticks clock update_calls world_after_read set_caps opened_world
         last_alert_time set_frame_count initial_locals].
    repeat split. eexists. reflexivity. }
  (* the world after frame 12 *)
  assert (model_calls w12 = f12 :: f6 :: model_calls w0 ∧
          ∃ fps12, update_calls w12
                   = (fps12, [("person", 1%Z)],
                      alert_for [("person", 1%Z)] (last_alert_time l6)
                        (clock w0 (S (S (ticks w6)))))
                     :: (fps6, [("person", 1%Z)],
                         alert_for [("person", 1%Z)] 0 (clock w0 (S (S (ticks w0)))))
                     :: update_calls w0)
    as (Hmc12 & fps12 & Huc12).
  { rewrite Hw12. unfold sampled_world.
    cbn [model_calls ticks clock update_calls world_after_read set_caps
         last_alert_time set_frame_count].
    rewrite Hmc6, Huc6, Hclk6. split; [done|]. eexists. reflexivity. }
  exists (ch5 ++ [multipart (Resize img6 sc sc)] ++ ch11
          ++ [multipart (Resize img12 sc sc)])%list.
  eexists _, f6, f12, fps6, fps12, _, _.
  split.
  { rewrite run_created.
    change 13%nat with (S (S (S 5 + 5))). rewrite run_S, run_S, run_add, run_S.
    rewrite Hrun5, Hnext6, Hrun11, Hnext12, Hnext13.
    rewrite !fmap_app. cbn [fmap list_fmap]. by rewrite <- !app_assoc. }
  split; [rewrite !length_app; simpl; lia|].
  split; [done|]. split; [done|]. split; [done|]. split; [exact Huc12|].
  (* the alerts, when the clock is as in the proviso *)
  intros t6 t12 Ht6 Ht12.
  assert (alert_for [("person", 1%Z)] 0 (clock w0 (S (S (ticks w0))))
          = Some "1 person detected") as Ha6.
  { unfold alert_for. replace (S (S (ticks w0))) with (ticks w0 + 2)%nat by lia. fold t6.
    unfold alert_cooldown. by rewrite (proj2 (Qgtb_spec _ _) Ht6). }
  split; [exact Ha6|].
  assert (ticks w6 = (ticks w0 + 5)%nat) as Htk6.
  { rewrite Hw6. unfold sampled_world.
    cbn [ticks clock world_after_read set_caps opened_world
         last_alert_time set_frame_count initial_locals].
    rewrite Ha6. cbn [truthy]. lia. }
  assert (last_alert_time l6 = t6) as Hlat6.
  { rewrite Hl6. unfold sampled_locals, cooldown_after.
    cbn [last_alert_time ticks clock world_after_read set_caps opened_world
         set_frame_count initial_locals].
    rewrite Ha6. unfold t6. f_equal. lia. }
  rewrite Hlat6, Htk6. unfold alert_for.
  replace (S (S (ticks w0 + 5))) with (ticks w0 + 7)%nat by lia. fold t12.
  unfold alert_cooldown. by rewrite (Qgtb_false _ _ Ht12).
Qed.

(** ** Concrete runs *)

Lemma person_model_detects : person_detector person_model.
Proof. intros f. eexists. split; reflexivity. Qed.

Lemma blind_model_named source : names_cover blind_model source.
Proof. intros f _ r b [<-|[]] []. Qed.

Lemma person_model_fits source : boxes_fit person_model source.
Proof. intros f _ r b s [<-|[]] [<-|[]] _ _. reflexivity. Qed.

Lemma frames12_resize : resizes 1 frames12.
Proof.
  intros f Hf. cbn in Hf.
  repeat (destruct Hf as [<-|Hf]; [reflexivity|]). destruct Hf.
Qed.

(** C8, as stated, fails when the two sampling frames are more than three
    seconds apart. *)
Lemma twelve_frames_two_alerts :
  person_detector person_model ∧ length frames12 = 12%nat ∧
  let r := run 13 (GenCreated person_model frames12 1) (loaded_world 4) in
  length (events_of r) = 13%nat ∧
  model_calls (world_of r) = [Raw 12; Raw 6] ∧
  alerts_emitted (world_of r) = ["1 person detected"; "1 person detected"] ∧
  length (alerts_emitted (world_of r)) ≠ 1%nat.
Proof.
  split; [apply person_model_detects|]. split; [reflexivity|].
  vm_compute. repeat split; done.
Qed.

(** C9, at the input where the code departs from it: a 12-frame source,
    five chunks consumed, then [close()]. The generator is closed and
    yields no further chunk, but [cap.release()] has not been called: the
    release count of the source is 0, with seven frames still pending, and
    stays 0 on a later [next]. *)
Theorem close_after_five_chunks_never_releases :
  let r := run 5 (GenCreated person_model frames12 1) (loaded_world 0.01) in
  let r' := gen_close (state_of r) (world_of r) in
  length (events_of r) = 5%nat ∧
  Forall (λ ev, ∃ c, ev = Yield c) (events_of r) ∧
  fst r' = GenClosed ∧
  releases <$> (caps (snd r') !! 0%nat) = Some 0%nat ∧
  length <$> (pending <$> (caps (snd r') !! 0%nat)) = Some 7%nat ∧
  fst (fst (gen_next (fst r') (snd r'))) = StopIteration ∧
  releases <$> (caps (snd (gen_next (fst r') (snd r'))) !! 0%nat) = Some 0%nat.
Proof.
  vm_compute. repeat split; try done.
  repeat constructor; eauto.
Qed.

(** The same source, read to its end: the release happens once. *)
Lemma exhausted_source_released_once m source sc w0 d0 :
  heap w0 !! _latest_stats = Some d0 →
  names_cover m source → boxes_fit m source → resizes sc source →
  ∃ chunks w c,
    run (S (length source)) (GenCreated m source sc) w0
      = ((Yield <$> chunks) ++ [StopIteration], GenClosed, w)%list ∧
    length chunks = length source ∧
    caps w !! fresh (dom (caps w0)) = Some c ∧ releases c = 1%nat ∧
    gen_next GenClosed w = (StopIteration, GenClosed, w).
Proof.
  intros Hstore Hnames Hfit Hsize.
  destruct (run_inv m source sc w0 d0 Hstore Hnames Hfit Hsize (length source))
    as (evs & l & w & Hrun & Hinv & _ & Hlen & Hev); [done|].
  destruct (run_exhausted _ _ _ _ _ _ Hinv) as (c & Hc & Hnext).
  destruct (Forall_yield_chunks _ Hev) as (chunks & ->).
  rewrite length_fmap in Hlen.
  eexists chunks, _, _. rewrite run_created, run_S, Hrun, Hnext.
  split; [reflexivity|]. split; [done|]. simpl.
  rewrite lookup_insert_eq. done.
Qed.

Lemma next_eta g w r :
  r = gen_next g w →
  is_suspended g = true →
  is_yield (fst (fst r)) = true →
  is_suspended (snd (fst r)) = true →
  gen_next (GenSuspended (locals_of g)) w
  = (Yield (chunk_of (fst (fst r))), GenSuspended (locals_of (snd (fst r))), snd r).
Proof.
  intros -> Hg. destruct g as [| l |]; try discriminate. cbn [locals_of].
  destruct (gen_next (GenSuspended l) w) as [[ev g1] w1]. cbn [fst snd].
  destruct ev; try discriminate. destruct g1; try discriminate. reflexivity.
Qed.

Lemma run_eta k g w r :
  r = run k g w →
  is_suspended g = true →
  is_suspended (state_of r) = true →
  run k (GenSuspended (locals_of g)) w
  = (events_of r, GenSuspended (locals_of (state_of r)), world_of r).
Proof.
  intros -> Hg. destruct g as [| l |]; try discriminate. cbn [locals_of].
  unfold state_of, events_of, world_of.
  destruct (run k (GenSuspended l) w) as [[evs g1] w1]. cbn [fst snd].
  destruct g1; try discriminate. reflexivity.
Qed.

Lemma before6_suspended : is_suspended (state_of before6) = true.
Proof. vm_compute. reflexivity. Qed.

Lemma at6_yield : is_yield (fst (fst at6)) = true.
Proof. vm_compute. reflexivity. Qed.

Lemma at6_suspended : is_suspended (snd (fst at6)) = true.
Proof. vm_compute. reflexivity. Qed.

Lemma before12_suspended : is_suspended (state_of before12) = true.
Proof. vm_compute. reflexivity. Qed.

Lemma at12_yield : is_yield (fst (fst at12)) = true.
Proof. vm_compute. reflexivity. Qed.

Lemma at12_suspended : is_suspended (snd (fst at12)) = true.
Proof. vm_compute. reflexivity. Qed.

Lemma at6_step :
  gen_next (GenSuspended (locals_of (state_of before6))) (world_of before6)
  = (Yield (chunk_of (fst (fst at6))), GenSuspended (locals_of (snd (fst at6))), snd at6).
Proof.
  exact (next_eta _ _ at6 eq_refl before6_suspended at6_yield at6_suspended).
Qed.

Lemma before12_run :
  run 5 (GenSuspended (locals_of (snd (fst at6)))) (snd at6)
  = (events_of before12, GenSuspended (locals_of (state_of before12)), world_of before12).
Proof.
  exact (run_eta 5 _ _ before12 eq_refl at6_suspended before12_suspended).
Qed.

Lemma at12_step :
  gen_next (GenSuspended (locals_of (state_of before12))) (world_of before12)
  = (Yield (chunk_of (fst (fst at12))), GenSuspended (locals_of (snd (fst at12))), snd at12).
Proof.
  exact (next_eta _ _ at12 eq_refl before12_suspended at12_yield at12_suspended).
Qed.

Lemma triple_eta {A B C} (r : A * B * C) : r = (fst (fst r), snd (fst r), snd r).
Proof. by destruct r as [[? ?] ?]. Qed.

Lemma detection_every_sixth_frame_witness :
  ∃ evs g w c l' w',
    run 5 (GenCreated person_model frames12 1) (loaded_world 0.01) = (evs, g, w) ∧
    gen_next g w = (Yield c, GenSuspended l', w') ∧
    frame_count l' = 6%Z ∧
    model_calls w' = Raw 6 :: model_calls w.
Proof.
  destruct (detection_every_sixth_frame person_model frames12 1 (loaded_world 0.01) _ 5
              eq_refl (person_detector_named _ _ person_model_detects)
              (person_model_fits _) frames12_resize)
    as (evs & g & w & f & c & l' & w' & img & H1 & H2 & H3 & H4 & H5 & _);
    [simpl; lia|].
  injection H2 as <-. exists evs, g, w, c, l', w'. auto.
Defined.

Lemma smoothed_fps_is_seeded_ema_witness :
  ∃ evs g w c l' w',
    run 5 (GenCreated person_model frames12 1) (loaded_world 0.01) = (evs, g, w) ∧
    gen_next g w = (Yield c, GenSuspended l', w') ∧
    smoothed_fps l'
      = (1 / py_max (clock w (S (ticks w)) - clock w (ticks w)) 1e-6)%Q.
Proof.
  destruct (smoothed_fps_is_seeded_ema person_model frames12 1 (loaded_world 0.01) _ 5
              eq_refl (person_detector_named _ _ person_model_detects)
              (person_model_fits _) frames12_resize)
    as (evs & g & w & c & l' & w' & H1 & H2 & H3); [simpl; lia|].
  exists evs, g, w, c, l', w'. auto.
Defined.

Lemma alert_cooldown_policy_witness :
  last_alert_time (locals_of (snd (fst at6))) = clock (world_of before6) 2 ∧
  snd (hd (0%Q, [], None) (update_calls (snd at12))) = None ∧
  last_alert_time (locals_of (snd (fst at12))) = clock (world_of before6) 2.
Proof.
  destruct (proj1 alert_cooldown_policy
              (locals_of (state_of before6)) (world_of before6)
              (chunk_of (fst (fst at6))) (locals_of (snd (fst at6))) (snd at6)
              (fst (fst (hd (0%Q, [], None) (update_calls (snd at6)))))
              [("person", 1%Z)] "1 person detected"
              5%nat (events_of before12)
              (locals_of (state_of before12)) (world_of before12) []
              (chunk_of (fst (fst at12))) (locals_of (snd (fst at12))) (snd at12)
              (fst (fst (hd (0%Q, [], None) (update_calls (snd at12)))))
              [("person", 1%Z)] None)
    as (H1 & H2 & H3 & H4 & H5).
  - vm_compute. eauto.
  - exact at6_step.
  - vm_compute. reflexivity.
  - exact before12_run.
  - vm_compute. reflexivity.
  - constructor.
  - exact at12_step.
  - vm_compute. reflexivity.
  - discriminate.
  - destruct (H5 eq_refl) as [H6 _]. split; [exact H1|]. split; [|exact H6].
    vm_compute. reflexivity.
Defined.

Lemma counts_within_allowlist_witness :
  (∀ k, In k (PyDict.keys [("person", 1%Z)]) → In k allowed_classes) ∧
  counts_allowed (snd (gen_next (GenCreated person_model frames12 1) (loaded_world 0.01))) ∧
  counts_allowed (acts [ActSetAlert (VStr "manual"); ActRead] (loaded_world 0.01)).
Proof.
  destruct counts_within_allowlist as (H1 & H2 & H3).
  split; [|split].
  - apply (H1 person_model (predict person_model (Raw 6))). reflexivity.
  - apply H2. apply (H3 (loaded_world 0.01) []); [reflexivity|constructor].
  - apply H3; [reflexivity|repeat constructor].
Defined.

Lemma alert_names_plurality_class_witness :
  ∃ cls count pre post,
    "1 person detected" = str_of_int count ++ " " ++ cls ++ " detected" ∧
    [("person", 1%Z)] = (pre ++ (cls, count) :: post)%list ∧
    PyDict.get cls [("person", 1%Z)] = Some count ∧ (1 ≤ count)%Z.
Proof.
  destruct (alert_names_plurality_class (state_of before6) (world_of before6)
              [("fps", VFloat 0); ("counts", VDict 2%positive);
               ("last_update_ts", VFloat 0); ("alert", VDict 3%positive)]
              (fst (fst at6)) (snd (fst at6)) (snd at6)
              (fst (fst (hd (0%Q, [], None) (update_calls (snd at6)))))
              [("person", 1%Z)] "1 person detected")
    as (cls & count & pre & post & H1 & H2 & _ & _ & H3 & H4).
  - vm_compute. reflexivity.
  - exact (triple_eta at6).
  - vm_compute. reflexivity.
  - exists cls, count, pre, post. auto.
Defined.

Lemma update_latest_stats_contract_witness :
  ∃ w' d',
    _update_latest_stats 12.5 [("person", 2%Z)] (Some "2 person detected")
      (loaded_world 0.01) = (Ok tt, w') ∧
    heap w' !! _latest_stats = Some d' ∧
    PyDict.get "fps" d' = Some (VFloat 12.5).
Proof.
  destruct (update_latest_stats_contract 12.5 [("person", 2%Z)]
              (Some "2 person detected") (loaded_world 0.01)
              [("fps", VFloat 0); ("counts", VDict 2%positive);
               ("last_update_ts", VFloat 0); ("alert", VDict 3%positive)] eq_refl)
    as (w' & d' & lc & H1 & H2 & H3 & _).
  exists w', d'. auto.
Defined.

Lemma get_latest_stats_isolated_witness :
  ∃ r w',
    get_latest_stats (loaded_world 0.01) = (Ok r, w') ∧
    read_snapshot (heap w') r
      = Some (Snapshot (VFloat 0) [] (VFloat 0) [("message", VStr ""); ("ts", VFloat 0)]) ∧
    read_snapshot
      (heap (acts [ActUpdate 12.5 [("person", 2%Z)] (Some "2 person detected")] w')) r
      = Some (Snapshot (VFloat 0) [] (VFloat 0) [("message", VStr ""); ("ts", VFloat 0)]).
Proof.
  destruct (get_latest_stats_isolated (loaded_world 0.01)
              (Snapshot (VFloat 0) [] (VFloat 0) [("message", VStr ""); ("ts", VFloat 0)])
              eq_refl)
    as (r & w' & rc & ra & H1 & _ & _ & _ & H2 & _ & _ & _ & _ & _ & _ & _ & _ & _ & H3 & _).
  exists r, w'. auto.
Defined.

Lemma twelve_frames_one_alert_witness :
  ∃ chunks w,
    run 13 (GenCreated person_model frames12 1) (loaded_world 0.01)
      = ((Yield <$> chunks) ++ [StopIteration], GenClosed, w)%list ∧
    length chunks = 12%nat ∧
    model_calls w = [Raw 12; Raw 6] ∧
    snd <$> update_calls w = [None; Some "1 person detected"].
Proof.
  destruct (twelve_frames_one_alert person_model frames12 1 (loaded_world 0.01) _
              eq_refl eq_refl person_model_detects (person_model_fits _) frames12_resize)
    as (chunks & w & f6 & f12 & fps6 & fps12 & a6 & a12 & H1 & H2 & H3 & H4 & H5 & H6 & H7).
  destruct H7 as [-> ->].
  - vm_compute. reflexivity.
  - vm_compute. discriminate.
  - injection H3 as <-. injection H4 as <-.
    exists chunks, w. rewrite H6. auto.
Defined.

Lemma get_latest_stats_total_witness :
  (∃ r w', get_latest_stats (loaded_world 0.01) = (Ok r, w')) ∧
  (∃ r w' rc ra,
     get_latest_stats (set_heap {[_latest_stats := []]} (loaded_world 0.01)) = (Ok r, w') ∧
     heap w' !! r = Some [("fps", VFloat 0); ("counts", VDict rc);
                          ("last_update_ts", VFloat 0); ("alert", VDict ra)] ∧
     heap w' !! rc = Some [] ∧
     heap w' !! ra = Some [("message", VStr ""); ("ts", VFloat 0)]).
Proof.
  destruct get_latest_stats_total as [H1 H2]. split.
  - destruct (H1 (loaded_world 0.01) (reachable_loaded (loaded_world 0.01) eq_refl))
      as (r & w' & rc & ra & fps & ts & dc & m & ta & H & _).
    exists r, w'. exact H.
  - apply (H2 (set_heap {[_latest_stats := []]} (loaded_world 0.01)) []); reflexivity.
Defined.

(** * Further properties *)

(** ** The counting loop *)

Lemma for_each_app {A B} (f : A → B → result A) l1 l2 a :
  for_each f (l1 ++ l2) a = for_each f l1 a ≫= for_each f l2.
Proof.
  revert a. induction l1 as [|x l1 IH]; intros a; simpl; [done|].
  unfold mbind, result_bind. destruct (f a x) as [a'|e]; [apply IH|done].
Qed.

Lemma for_each_nested {A} (f : A → box → result A) results a :
  for_each (λ a r, for_each f (boxes r) a) results a
  = for_each f (all_boxes results) a.
Proof.
  revert a. induction results as [|r results IH]; intros a; [done|].
  unfold all_boxes. cbn [fmap list_fmap concat for_each]. rewrite for_each_app.
  unfold mbind, result_bind. destruct (for_each f (boxes r) a); [apply IH|done].
Qed.

Lemma count_box_Ok m acc b acc' :
  count_box m acc b = Ok acc' →
  ∃ s, names m !! cls b = Some s ∧
       acc' = if in_list s allowed_classes
              then PyDict.set s (default 0 (PyDict.get s acc) + 1)%Z acc
              else acc.
Proof.
  unfold count_box, is_allowed_class, names_getitem, mbind, mret, result_bind, result_ret.
  destruct (names m !! cls b) as [s|]; [|done]. exists s. split; [done|].
  destruct (in_list s allowed_classes); cbn [negb] in *; congruence.
Qed.

Lemma occurrences_cons s x l :
  occurrences s (x :: l) = ((if String.eqb s x then 1 else 0) + occurrences s l)%Z.
Proof. unfold occurrences. simpl. destruct (String.eqb s x); simpl; lia. Qed.

Lemma occurrences_nonneg s l : (0 ≤ occurrences s l)%Z.
Proof. unfold occurrences. lia. Qed.

Lemma allowed_filter_cons s l :
  List.filter (λ s, in_list s allowed_classes) (s :: l)
  = if in_list s allowed_classes
    then s :: List.filter (λ s, in_list s allowed_classes) l
    else List.filter (λ s, in_list s allowed_classes) l.
Proof. reflexivity. Qed.

Lemma box_names_cons (m : Model) b bs :
  omap (λ b, names m !! cls b) (b :: bs)
  = match names m !! cls b with
    | Some s => s :: omap (λ b, names m !! cls b) bs
    | None => omap (λ b, names m !! cls b) bs
    end.
Proof. reflexivity. Qed.

Lemma count_flat m bs : ∀ acc counts,
  for_each (count_box m) bs acc = Ok counts →
  ∀ name,
    PyDict.get name counts
    = tally name acc
        (List.filter (λ s, in_list s allowed_classes) (omap (λ b, names m !! cls b) bs)).
Proof.
  induction bs as [|b bs IH]; intros acc counts; cbn [for_each].
  - intros [= <-] name. unfold tally, occurrences. simpl.
    destruct (PyDict.get name acc); [f_equal; lia|done].
  - unfold mbind at 1, result_bind at 1.
    destruct (count_box m acc b) as [acc1|e] eqn:E; [|done].
    apply count_box_Ok in E as (s & Hs & ->). intros H name.
    rewrite (IH _ _ H name).
    rewrite box_names_cons, Hs, allowed_filter_cons.
    destruct (in_list s allowed_classes) eqn:A; [|done].
    unfold tally. rewrite occurrences_cons.
    pose proof (occurrences_nonneg name
      (List.filter (λ s, in_list s allowed_classes) (omap (λ b, names m !! cls b) bs))) as Hn.
    destruct (String.eqb name s) eqn:Es; cbv beta iota.
    + apply String.eqb_eq in Es. subst s. rewrite get_set_eq.
      destruct (PyDict.get name acc) as [v|]; cbn [default from_option id].
      * f_equal. lia.
      * destruct (Z.eqb_spec (1 + occurrences name
          (List.filter (λ s, in_list s allowed_classes) (omap (λ b, names m !! cls b) bs))) 0);
          [lia|]. f_equal; lia.
    + apply String.eqb_neq in Es. rewrite get_set_ne by congruence.
      destruct (PyDict.get name acc); [f_equal; lia|]. done.
Qed.

(** X1. The counting loop (lines 140-147) gives every name the number
    of boxes of the results that carry it, when the name is allowed and
    that number is not zero; every other name is absent from [counts]. *)
Theorem counts_are_occurrences m results counts :
  count_boxes m results = Ok counts →
  ∀ name,
    PyDict.get name counts
    = (if (occurrences name (allowed_names m results) =? 0)%Z then None
       else Some (occurrences name (allowed_names m results))).
Proof.
  unfold count_boxes. rewrite for_each_nested. intros H name.
  apply (count_flat m _ _ _ H name).
Qed.

Lemma counts_are_occurrences_witness :
  PyDict.get "person" [("person", 2%Z); ("car", 1%Z)] = Some 2%Z ∧
  PyDict.get "chair" [("person", 2%Z); ("car", 1%Z)] = None.
Proof.
  split.
  - exact (counts_are_occurrences street_model (predict street_model (Raw 1))
             [("person", 2%Z); ("car", 1%Z)] eq_refl "person").
  - exact (counts_are_occurrences street_model (predict street_model (Raw 1))
             [("person", 2%Z); ("car", 1%Z)] eq_refl "chair").
Defined.

Lemma keys_set_first_seen (s : string) (v : Z) acc :
  PyDict.keys (PyDict.set s v acc)
  = if in_list s (PyDict.keys acc) then PyDict.keys acc else (PyDict.keys acc ++ [s])%list.
Proof.
  destruct (in_list s (PyDict.keys acc)) eqn:E.
  - apply keys_set_in, in_list_In, E.
  - apply keys_set_new. intros H%in_list_In. congruence.
Qed.

Lemma keys_flat m bs : ∀ acc counts,
  for_each (count_box m) bs acc = Ok counts →
  PyDict.keys counts
  = first_seen (PyDict.keys acc)
      (List.filter (λ s, in_list s allowed_classes) (omap (λ b, names m !! cls b) bs)).
Proof.
  induction bs as [|b bs IH]; intros acc counts; cbn [for_each].
  - intros [= <-]. reflexivity.
  - unfold mbind at 1, result_bind at 1.
    destruct (count_box m acc b) as [acc1|e] eqn:E; [|done].
    apply count_box_Ok in E as (s & Hs & ->). intros H.
    rewrite (IH _ _ H).
    rewrite box_names_cons, Hs, allowed_filter_cons.
    destruct (in_list s allowed_classes) eqn:A; [|done].
    cbn [first_seen]. rewrite keys_set_first_seen. reflexivity.
Qed.

(** X2. The keys of [counts] are the distinct allowed names of the
    detections, in the order in which each is first detected. *)
Theorem counts_keys_in_detection_order m results counts :
  count_boxes m results = Ok counts →
  PyDict.keys counts = first_seen [] (allowed_names m results).
Proof.
  unfold count_boxes. rewrite for_each_nested. intros H.
  apply (keys_flat m _ _ _ H).
Qed.

Lemma counts_keys_in_detection_order_witness :
  PyDict.keys [("person", 2%Z); ("car", 1%Z)] = ["person"; "car"].
Proof.
  exact (counts_keys_in_detection_order street_model (predict street_model (Raw 1))
           [("person", 2%Z); ("car", 1%Z)] eq_refl).
Defined.

(** ** Drawing *)

Lemma draw_box_Ok m fr b fr' :
  draw_box m fr b = Ok fr' →
  ∃ s, names m !! cls b = Some s ∧
       fr' = if in_list s allowed_classes then paint fr (b, s) else fr.
Proof.
  rewrite draw_box_run.
  destruct (names m !! cls b) as [s|]; [|done]. exists s. split; [done|].
  unfold paint. cbn [fst snd].
  destruct (in_list s allowed_classes); [|congruence].
  destruct (in_range b); [congruence|done].
Qed.

Lemma named_boxes_cons (m : Model) b bs :
  omap (λ b, pair b <$> names m !! cls b) (b :: bs)
  = match names m !! cls b with
    | Some s => (b, s) :: omap (λ b, pair b <$> names m !! cls b) bs
    | None => omap (λ b, pair b <$> names m !! cls b) bs
    end.
Proof. cbn [omap list_omap]. destruct (names m !! cls b); reflexivity. Qed.

Lemma allowed_pairs_cons (x : box * string) l :
  List.filter (λ bs, in_list (snd bs) allowed_classes) (x :: l)
  = if in_list (snd x) allowed_classes
    then x :: List.filter (λ bs, in_list (snd bs) allowed_classes) l
    else List.filter (λ bs, in_list (snd bs) allowed_classes) l.
Proof. reflexivity. Qed.

Lemma draw_flat m bs : ∀ fr img,
  for_each (draw_box m) bs fr = Ok img →
  img = fold_left paint
          (List.filter (λ bs, in_list (snd bs) allowed_classes)
             (omap (λ b, pair b <$> names m !! cls b) bs)) fr.
Proof.
  induction bs as [|b bs IH]; intros fr img; cbn [for_each].
  - intros [= <-]. reflexivity.
  - unfold mbind at 1, result_bind at 1.
    destruct (draw_box m fr b) as [fr1|e] eqn:E; [|done].
    apply draw_box_Ok in E as (s & Hs & ->). intros H.
    rewrite (IH _ _ H).
    rewrite named_boxes_cons, Hs, allowed_pairs_cons. cbn [snd].
    destruct (in_list s allowed_classes); reflexivity.
Qed.

Lemma base_paint fr x : base (paint fr x) = base fr.
Proof. unfold paint. destruct (xyxy (fst x)) as [[[x1 y1] x2] y2]. reflexivity. Qed.

Lemma rectangles_paint fr x : rectangles (paint fr x) = S (rectangles fr).
Proof. unfold paint. destruct (xyxy (fst x)) as [[[x1 y1] x2] y2]. reflexivity. Qed.

Lemma base_fold_paint l : ∀ fr, base (fold_left paint l fr) = base fr.
Proof.
  induction l as [|x l IH]; intros fr; [done|]. cbn [fold_left].
  rewrite IH. apply base_paint.
Qed.

Lemma rectangles_fold_paint l : ∀ fr,
  rectangles (fold_left paint l fr) = (rectangles fr + length l)%nat.
Proof.
  induction l as [|x l IH]; intros fr; cbn [fold_left length]; [lia|].
  rewrite IH, rectangles_paint. lia.
Qed.

Lemma draw_boxes_fold m results fr img :
  draw_boxes fr results m = Ok img →
  img = fold_left paint (allowed_boxes m results) fr.
Proof.
  unfold draw_boxes. rewrite for_each_nested. apply draw_flat.
Qed.

(** X3. [draw_boxes] draws one rectangle and one label for each box
    whose class name is allowed, in detection order, on top of the frame
    it is given; the boxes of the other classes leave no mark, and the
    frame underneath is the one passed in. *)
Theorem draw_boxes_paints_allowed m results fr img :
  draw_boxes fr results m = Ok img →
  img = fold_left paint (allowed_boxes m results) fr ∧
  base img = base fr ∧
  (∀ b s, In (b, s) (allowed_boxes m results) ↔
     In b (all_boxes results) ∧ names m !! cls b = Some s ∧ In s allowed_classes).
Proof.
  intros H. apply draw_boxes_fold in H as ->.
  split; [done|]. split; [apply base_fold_paint|].
  intros b s. unfold allowed_boxes. rewrite filter_In. cbn [snd].
  rewrite in_list_In, <- !list_elem_of_In, list_elem_of_omap.
  split.
  - intros [(b' & Hb & Hn) Hs]. destruct (names m !! cls b') as [s'|] eqn:E; [|done].
    simpl in Hn. injection Hn as <- <-. done.
  - intros (Hb & Hn & Hs). split; [|done]. exists b. split; [done|].
    rewrite Hn. done.
Qed.

Lemma draw_boxes_paints_allowed_witness :
  draw_boxes (Raw 1) (predict street_model (Raw 1)) street_model
  = Ok (fold_left paint
          [(Box 0 (10, 20, 30, 40)%Z 0.9, "person");
           (Box 2 (50, 60, 70, 80)%Z 0.7, "car");
           (Box 0 (11, 21, 31, 41)%Z 0.6, "person")] (Raw 1)).
Proof.
  destruct (draw_boxes (Raw 1) (predict street_model (Raw 1)) street_model)
    as [img|e] eqn:E; [|discriminate E].
  destruct (draw_boxes_paints_allowed _ _ _ _ E) as (-> & _). reflexivity.
Defined.

Lemma allowed_names_boxes m results :
  allowed_names m results = snd <$> allowed_boxes m results.
Proof.
  unfold allowed_names, allowed_boxes.
  induction (all_boxes results) as [|b bs IH]; [done|].
  rewrite box_names_cons, named_boxes_cons.
  destruct (names m !! cls b) as [s|]; [|done].
  rewrite allowed_filter_cons, allowed_pairs_cons. cbn [snd].
  destruct (in_list s allowed_classes); [|done].
  rewrite fmap_cons, IH. done.
Qed.

Lemma total_set k d :
  total (PyDict.set k (default 0 (PyDict.get k d) + 1)%Z d) = (total d + 1)%Z.
Proof.
  unfold total. induction d as [|[k' v] d IH]; cbn [PyDict.set PyDict.get].
  - simpl. lia.
  - destruct (String.eqb k k'); cbn [fmap list_fmap foldr snd default from_option id] in *.
    + lia.
    + fold (fmap (M:=list) (@snd string Z)) in *. rewrite IH. lia.
Qed.

Lemma total_flat m bs : ∀ acc counts,
  for_each (count_box m) bs acc = Ok counts →
  total counts
  = (total acc + Z.of_nat (length
       (List.filter (λ s, in_list s allowed_classes) (omap (λ b, names m !! cls b) bs))))%Z.
Proof.
  induction bs as [|b bs IH]; intros acc counts; cbn [for_each].
  - intros [= <-]. simpl. lia.
  - unfold mbind at 1, result_bind at 1.
    destruct (count_box m acc b) as [acc1|e] eqn:E; [|done].
    apply count_box_Ok in E as (s & Hs & ->). intros H.
    rewrite (IH _ _ H).
    rewrite box_names_cons, Hs, allowed_filter_cons.
    destruct (in_list s allowed_classes) eqn:A; [|done].
    rewrite total_set. cbn [length]. lia.
Qed.

(** X4. On the results of one detection, the values of [counts] add
    up to the number of allowed detections, which is also the number of
    rectangles [draw_boxes] adds to the frame. *)
Theorem counts_total_is_boxes_drawn m results counts fr img :
  count_boxes m results = Ok counts →
  draw_boxes fr results m = Ok img →
  total counts = Z.of_nat (length (allowed_names m results)) ∧
  rectangles img = (rectangles fr + length (allowed_names m results))%nat.
Proof.
  intros Hc Hd. split.
  - unfold count_boxes in Hc. rewrite for_each_nested in Hc.
    rewrite (total_flat m _ _ _ Hc). unfold total, allowed_names. simpl. lia.
  - apply draw_boxes_fold in Hd as ->.
    rewrite rectangles_fold_paint, allowed_names_boxes, length_fmap. done.
Qed.

Lemma counts_total_is_boxes_drawn_witness :
  total [("person", 2%Z); ("car", 1%Z)] = 3%Z.
Proof.
  exact (proj1 (counts_total_is_boxes_drawn street_model (predict street_model (Raw 1))
                  [("person", 2%Z); ("car", 1%Z)] (Raw 1) _ eq_refl eq_refl)).
Defined.

(** *** Unknown class ids *)

Lemma count_box_Raise m acc b e :
  count_box m acc b = Raise e → e = KeyError ∧ names m !! cls b = None.
Proof.
  unfold count_box, is_allowed_class, names_getitem, mbind, mret, result_bind, result_ret.
  destruct (names m !! cls b) as [s|]; [|by intros [= <-]].
  destruct (in_list s allowed_classes); cbn [negb]; discriminate.
Qed.

Lemma draw_box_Raise m fr b e :
  draw_box m fr b = Raise e →
  (e = KeyError ∧ names m !! cls b = None) ∨
  (e = CvError ∧ ∃ s, names m !! cls b = Some s ∧ In s allowed_classes ∧
                      in_range b = false).
Proof.
  rewrite draw_box_run.
  destruct (names m !! cls b) as [s|]; [|intros [= <-]; by left].
  destruct (in_list s allowed_classes) eqn:A; [|done].
  destruct (in_range b); [done|]. intros [= <-]. right. split; [done|].
  exists s. split; [done|]. split; [by apply in_list_In|done].
Qed.

Lemma for_each_Raise {A B} (f : A → B → result A) l : ∀ a e,
  for_each f l a = Raise e → ∃ a' x, In x l ∧ f a' x = Raise e.
Proof.
  induction l as [|x l IH]; intros a e; cbn [for_each]; [done|].
  unfold mbind at 1, result_bind at 1.
  destruct (f a x) as [a1|e1] eqn:E.
  - intros (a' & y & Hy & Hf)%IH. exists a', y. split; [by right|done].
  - intros [= <-]. exists a, x. split; [by left|done].
Qed.

Lemma for_each_unnamed {A} (f : A → box → result A) (m : Model) l :
  (∀ a b, names m !! cls b = None → f a b = Raise KeyError) →
  (∀ a b e, f a b = Raise e → e = KeyError) →
  ∀ a b, In b l → names m !! cls b = None → for_each f l a = Raise KeyError.
Proof.
  intros Hf He. induction l as [|x l IH]; intros a b; [done|].
  intros [->|Hb] Hn; cbn [for_each]; unfold mbind at 1, result_bind at 1.
  - by rewrite (Hf a b Hn).
  - destruct (f a x) as [a1|e1] eqn:E; [by apply (IH a1 b)|].
    by rewrite (He _ _ _ E).
Qed.

Lemma count_box_unnamed m acc b :
  names m !! cls b = None → count_box m acc b = Raise KeyError.
Proof.
  intros H. unfold count_box, is_allowed_class, names_getitem. by rewrite H.
Qed.

Lemma draw_box_unnamed m fr b :
  names m !! cls b = None → draw_box m fr b = Raise KeyError.
Proof. intros H. rewrite draw_box_run. by rewrite H. Qed.

Lemma for_each_first_Raise {A B} (f : A → B → result A) (P : B → Prop) l :
  (∀ a x, In x l → P x → ∃ e, f a x = Raise e) →
  ∀ a x, In x l → P x → ∃ e, for_each f l a = Raise e.
Proof.
  induction l as [|y l IH]; intros Hf a x; [done|].
  intros Hx Px. cbn [for_each]. unfold mbind at 1, result_bind at 1.
  destruct (f a y) as [a1|e1] eqn:E; [|eauto].
  destruct Hx as [->|Hx].
  - destruct (Hf a x) as [e He]; [by left|done|]. congruence.
  - apply (IH (λ a x Hx, Hf a x (or_intror Hx)) a1 x Hx Px).
Qed.

Lemma drawable_all_boxes m results :
  drawable m results ↔
  ∀ b s, In b (all_boxes results) → names m !! cls b = Some s →
         In s allowed_classes → in_range b = true.
Proof.
  unfold drawable, all_boxes. split.
  - intros H b s Hb. apply in_concat in Hb as (bs & Hbs & Hb).
    apply list_elem_of_In, list_elem_of_fmap in Hbs as (r & -> & Hr).
    apply (H r b s); [by apply list_elem_of_In|done].
  - intros H r b s Hr Hb. apply H, in_concat.
    exists (boxes r). split; [|done].
    apply list_elem_of_In, list_elem_of_fmap. exists r.
    split; [done|by apply list_elem_of_In].
Qed.

Lemma count_boxes_unnamed m results b :
  In b (all_boxes results) → names m !! cls b = None →
  count_boxes m results = Raise KeyError.
Proof.
  unfold count_boxes. rewrite for_each_nested. intros Hb Hn.
  apply (for_each_unnamed _ m _ (count_box_unnamed m)) with b; [|done..].
  intros a x e H. by apply count_box_Raise in H as [-> _].
Qed.

Lemma named_all_boxes m results :
  named m results ↔ ∀ b, In b (all_boxes results) → is_Some (names m !! cls b).
Proof.
  unfold named, all_boxes. split.
  - intros H b Hb. apply in_concat in Hb as (bs & Hbs & Hb).
    apply list_elem_of_In, list_elem_of_fmap in Hbs as (r & -> & Hr).
    apply (H r b); [by apply list_elem_of_In|done].
  - intros H r b Hr Hb. apply H, in_concat.
    exists (boxes r). split; [|done].
    apply list_elem_of_In, list_elem_of_fmap. exists r.
    split; [done|by apply list_elem_of_In].
Qed.

(** X5. The counting loop succeeds exactly when every class id of
    the results has an entry in [model.names], and otherwise raises
    [KeyError]. [draw_boxes] succeeds exactly when, in addition, the
    coordinates of every allowed box and of its label fit C [int]s; it
    raises [KeyError] for a class id without a name and [cv2.error] for
    an allowed box that cannot be drawn, and nothing else. An unknown class
    id makes the counting loop raise [KeyError] also when it comes after
    allowed ones. *)
Theorem unknown_class_id_raises_KeyError m results fr :
  ((∃ counts, count_boxes m results = Ok counts) ↔ named m results) ∧
  (∀ e, count_boxes m results = Raise e →
     e = KeyError ∧ ∃ b, In b (all_boxes results) ∧ names m !! cls b = None) ∧
  ((∃ img, draw_boxes fr results m = Ok img) ↔ named m results ∧ drawable m results) ∧
  (∀ e, draw_boxes fr results m = Raise e →
     (e = KeyError ∧ ∃ b, In b (all_boxes results) ∧ names m !! cls b = None) ∨
     (e = CvError ∧
      ∃ b s, In b (all_boxes results) ∧ names m !! cls b = Some s ∧
             In s allowed_classes ∧ in_range b = false)) ∧
  (∀ b, In b (all_boxes results) → names m !! cls b = None →
     count_boxes m results = Raise KeyError ∧
     (drawable m results → draw_boxes fr results m = Raise KeyError)).
Proof.
  assert (Hcount : ∀ e, count_boxes m results = Raise e →
     e = KeyError ∧ ∃ b, In b (all_boxes results) ∧ names m !! cls b = None).
  { intros e H. unfold count_boxes in H. rewrite for_each_nested in H.
    apply for_each_Raise in H as (a & b & Hb & H).
    apply count_box_Raise in H as [-> Hn]. eauto. }
  assert (Hdraw : ∀ e, draw_boxes fr results m = Raise e →
     (e = KeyError ∧ ∃ b, In b (all_boxes results) ∧ names m !! cls b = None) ∨
     (e = CvError ∧
      ∃ b s, In b (all_boxes results) ∧ names m !! cls b = Some s ∧
             In s allowed_classes ∧ in_range b = false)).
  { intros e H. unfold draw_boxes in H. rewrite for_each_nested in H.
    apply for_each_Raise in H as (a & b & Hb & H).
    apply draw_box_Raise in H as [[-> Hn]|(-> & s & Hs & Ha & Hr)]; [left|right]; eauto 10. }
  assert (Hunnamed : ∀ b, In b (all_boxes results) → names m !! cls b = None →
     count_boxes m results = Raise KeyError ∧
     ∃ e, draw_boxes fr results m = Raise e).
  { intros b Hb Hn. split; [by apply count_boxes_unnamed with b|].
    unfold draw_boxes. rewrite for_each_nested.
    apply (for_each_first_Raise _ (λ b, names m !! cls b = None)) with b; [|done..].
    intros a x _ Hx. exists KeyError. by apply draw_box_unnamed. }
  split; [|split; [exact Hcount|split; [|split; [exact Hdraw|]]]].
  - split; [|apply count_boxes_total].
    intros [counts Hc]. apply named_all_boxes. intros b Hb.
    destruct (names m !! cls b) eqn:E; [done|].
    destruct (Hunnamed b Hb E) as [H _]. congruence.
  - split; [|intros [Hn Hd]; by apply draw_boxes_total].
    intros [img Hc]. split.
    + apply named_all_boxes. intros b Hb.
      destruct (names m !! cls b) eqn:E; [done|].
      destruct (Hunnamed b Hb E) as [_ [e H]]. congruence.
    + apply drawable_all_boxes. intros b s Hb Hs Ha.
      destruct (in_range b) eqn:R; [done|]. exfalso.
      assert (∃ e, draw_boxes fr results m = Raise e) as [e He]; [|congruence].
      unfold draw_boxes. rewrite for_each_nested.
      apply (for_each_first_Raise _
               (λ b, ∃ s, names m !! cls b = Some s ∧ In s allowed_classes ∧
                          in_range b = false)) with b; [|done|eauto].
      intros a x _ (s' & Hs' & Ha' & R'). exists CvError.
      rewrite draw_box_run, Hs', R'. apply in_list_In in Ha'. by rewrite Ha'.
  - intros b Hb Hn. destruct (Hunnamed b Hb Hn) as [Hc [e He]]. split; [done|].
    intros Hd. destruct (Hdraw e He) as [[-> _]|(-> & b' & s & Hb' & Hs & Ha & R)]; [done|].
    rewrite (proj1 (drawable_all_boxes m results) Hd b' s Hb' Hs Ha) in R. done.
Qed.

(** ** The store: [_set_alert] and reading back *)

(** X6. [_set_alert] on a loaded store replaces [alert] by a new dict
    [{message, ts}] holding the message as given, whatever it is, also
    [""] or [None], and one reading of the clock; the other fields of the
    store, every other object and the log of updates stay as they were. *)
Theorem set_alert_contract message w d :
  heap w !! _latest_stats = Some d →
  ∃ w' d' la,
    _set_alert message w = (Ok tt, w') ∧
    heap w' !! _latest_stats = Some d' ∧
    PyDict.get "alert" d' = Some (VDict la) ∧
    heap w !! la = None ∧
    heap w' !! la = Some [("message", message); ("ts", VFloat (clock w (ticks w)))] ∧
    (∀ k, k ≠ "alert" → PyDict.get k d' = PyDict.get k d) ∧
    (∀ l, l ≠ _latest_stats → is_Some (heap w !! l) → heap w' !! l = heap w !! l) ∧
    ticks w' = S (ticks w) ∧ update_calls w' = update_calls w.
Proof.
  intros Hd. rewrite (set_alert_run _ _ _ Hd).
  assert (fresh (dom (heap w)) ≠ _latest_stats) as Hne by (by eapply fresh_ne).
  destruct w as [h clk tk cp mc uc so].
  cbn [heap set_heap set_ticks ticks update_calls clock caps model_calls stdout] in *.
  eexists _, _, (fresh (dom h)). split; [reflexivity|].
  cbn [heap set_heap set_ticks ticks update_calls clock caps model_calls stdout] in *.
  rewrite lookup_insert_eq. split; [reflexivity|].
  split; [apply get_set_eq|]. split; [apply fresh_None|]. split.
  { rewrite lookup_insert_ne by done. apply lookup_insert_eq. }
  split.
  { intros k Hk. apply get_set_ne. congruence. }
  split; [|done].
  intros l Hl [x Hx]. rewrite lookup_insert_ne by done.
  rewrite lookup_insert_ne; [done|]. by eapply fresh_ne.
Qed.

Lemma set_alert_contract_witness :
  ∃ w' d' la,
    _set_alert (VStr "") (loaded_world 1) = (Ok tt, w') ∧
    heap w' !! _latest_stats = Some d' ∧
    PyDict.get "alert" d' = Some (VDict la) ∧
    heap (loaded_world 1) !! la = None ∧
    heap w' !! la = Some [("message", VStr ""); ("ts", VFloat (wall_clock 1 0))].
Proof.
  destruct (set_alert_contract (VStr "") (loaded_world 1)
              [("fps", VFloat 0); ("counts", VDict 2%positive);
               ("last_update_ts", VFloat 0); ("alert", VDict 3%positive)] eq_refl)
    as (w' & d' & la & H1 & H2 & H3 & H4 & H5 & _).
  exists w', d', la. repeat (split; [assumption|]). exact H5.
Defined.

Lemma heap_after_update_alert fps counts msg now now' d (h : gmap loc pydict) la da :
  h !! _latest_stats = Some d →
  PyDict.get "alert" d = Some (VDict la) →
  h !! la = Some da → la ≠ _latest_stats →
  ∃ d' la',
    heap_after_update fps counts msg now now' d h !! _latest_stats = Some d' ∧
    PyDict.get "alert" d' = Some (VDict la') ∧
    heap_after_update fps counts msg now now' d h !! la' = Some (alert_after msg now' da).
Proof.
  intros Hd Ha Hla Hne.
  pose proof (get_stats_after fps (fresh (dom h)) now d) as (_ & _ & _ & Go).
  assert (fresh (dom h) ≠ _latest_stats) as Hf by (by eapply fresh_ne).
  unfold heap_after_update, alert_after.
  set (h1 := <[_latest_stats := _]> (<[fresh (dom h) := _]> h)).
  destruct (truthy msg).
  - eexists _, (fresh (dom h1)). rewrite lookup_insert_eq. split; [reflexivity|].
    split; [apply get_set_eq|].
    rewrite lookup_insert_ne. { apply lookup_insert_eq. }
    apply not_eq_sym. eapply fresh_ne. unfold h1. apply lookup_insert_eq.
  - eexists _, la. unfold h1 at 1. rewrite lookup_insert_eq. split; [reflexivity|].
    split; [by rewrite Go|].
    unfold h1. rewrite lookup_insert_ne by done.
    rewrite lookup_insert_ne; [done|]. by eapply fresh_ne.
Qed.

Lemma read_after_update fps counts msg now now' d (h : gmap loc pydict) la da :
  h !! _latest_stats = Some d →
  PyDict.get "alert" d = Some (VDict la) →
  h !! la = Some da → la ≠ _latest_stats →
  read_snapshot (heap_after_update fps counts msg now now' d h) _latest_stats
  = Some (Snapshot (VFloat fps) (counts_values counts) (VFloat now)
            (alert_after msg now' da)).
Proof.
  intros Hd Ha Hla Hne.
  destruct (heap_after_update_counts fps counts msg now now' d h Hd)
    as (d1 & H1 & Hf & Hc & Ht & _ & Hcs).
  destruct (heap_after_update_alert fps counts msg now now' d h la da Hd Ha Hla Hne)
    as (d2 & la' & H2 & Hal & Hda).
  rewrite H1 in H2. injection H2 as <-.
  eapply read_snapshot_intro; eauto.
Qed.

Lemma store_shape_alert w :
  store_shape w →
  ∃ d la da s,
    heap w !! _latest_stats = Some d ∧ PyDict.get "alert" d = Some (VDict la) ∧
    heap w !! la = Some da ∧ la ≠ _latest_stats ∧
    read_snapshot (heap w) _latest_stats = Some s ∧ snap_alert s = da.
Proof.
  intros (f0 & lc & ts & la & dc & m & ta & Hd & Hc & Ha).
  exists [("fps", VFloat f0); ("counts", VDict lc); ("last_update_ts", VFloat ts);
          ("alert", VDict la)], la, [("message", m); ("ts", VFloat ta)],
         (Snapshot (VFloat f0) dc (VFloat ts) [("message", m); ("ts", VFloat ta)]).
  split; [exact Hd|]. split; [reflexivity|]. split; [exact Ha|].
  split; [intros ->; congruence|]. split; [|reflexivity].
  eapply read_snapshot_intro; eauto.
Qed.

(** X7. A call of [get_latest_stats] after [_update_latest_stats]
    returns the [fps] and a copy of the [counts] just written, the clock
    reading of the update as [last_update_ts], and as [alert] the new
    message with the next reading of the clock when the message is
    neither [None] nor [""], the alert of before otherwise. *)
Theorem update_then_read fps counts msg w s :
  store_shape w →
  read_snapshot (heap w) _latest_stats = Some s →
  ∃ w1 r w2,
    _update_latest_stats fps counts msg w = (Ok tt, w1) ∧
    get_latest_stats w1 = (Ok r, w2) ∧
    read_snapshot (heap w2) r =
      Some (Snapshot (VFloat fps) (counts_values counts) (VFloat (clock w (ticks w)))
              (if truthy msg
               then [("message", VStr (default "" msg));
                     ("ts", VFloat (clock w (S (ticks w))))]
               else snap_alert s)).
Proof.
  intros Hshape Hs.
  destruct (store_shape_alert w Hshape) as (d & la & da & s' & Hd & Ha & Hla & Hne & Hs' & Hda).
  rewrite Hs in Hs'. injection Hs' as <-.
  rewrite (update_run _ _ _ _ _ Hd).
  pose proof (read_after_update fps counts msg (clock w (ticks w)) (clock w (S (ticks w)))
                d (heap w) la da Hd Ha Hla Hne) as Hread.
  set (w1 := World _ _ _ _ _ _ _).
  change (read_snapshot (heap w1) _latest_stats = Some
            (Snapshot (VFloat fps) (counts_values counts) (VFloat (clock w (ticks w)))
               (alert_after msg (clock w (S (ticks w))) da))) in Hread.
  destruct (get_latest_stats_copy w1 _ Hread)
    as (r & w2 & rc & ra & Hrun & Hr & Hrc & Hra & _).
  exists w1, r, w2. split; [reflexivity|]. split; [exact Hrun|].
  cbn [snap_fps snap_counts snap_last_update_ts snap_alert] in *.
  rewrite Hda. eapply read_snapshot_intro; eauto.
Qed.

Lemma update_then_read_witness :
  ∃ w1 r w2,
    _update_latest_stats 12.5 [("person", 2%Z)] (Some "2 person detected") (loaded_world 1)
      = (Ok tt, w1) ∧
    get_latest_stats w1 = (Ok r, w2) ∧
    read_snapshot (heap w2) r =
      Some (Snapshot (VFloat 12.5) [("person", VInt 2)] (VFloat (wall_clock 1 0))
              [("message", VStr "2 person detected"); ("ts", VFloat (wall_clock 1 1))]).
Proof.
  exact (update_then_read 12.5 [("person", 2%Z)] (Some "2 person detected") (loaded_world 1)
           (Snapshot (VFloat 0) [] (VFloat 0) [("message", VStr ""); ("ts", VFloat 0)])
           (store_shape_loaded (loaded_world 1) eq_refl) eq_refl).
Defined.

(** ** What an operation leaves alone *)

Section Within.
Context (R : world → world → Prop).
Context (Hrefl : ∀ w, R w w) (Htrans : ∀ a b c, R a b → R b c → R a c).

Lemma within_ret {A} (a : A) : within R (mret a).
Proof. intros w. apply Hrefl. Qed.

Lemma within_raise {A} e : within R (raise e : M A).
Proof. intros w. apply Hrefl. Qed.

Lemma within_lift {A} (r : result A) : within R (lift r).
Proof. intros w. apply Hrefl. Qed.

Lemma within_load l : within R (load l).
Proof. intros w. unfold load. destruct (heap w !! l); apply Hrefl. Qed.

Lemma within_bind {A B} (m : M A) (k : A → M B) :
  within R m → (∀ a, within R (k a)) → within R (m ≫= k).
Proof.
  intros Hm Hk w. rewrite bind_eq. specialize (Hm w).
  destruct (m w) as [[a|e] w1]; simpl in *; [|done].
  eapply Htrans; [exact Hm|apply Hk].
Qed.

Context (Hheap : ∀ w h, R w (set_heap h w)).

Lemma within_new_dict d : within R (new_dict d).
Proof. intros w. apply Hheap. Qed.

Lemma within_store l d : within R (store l d).
Proof. intros w. apply Hheap. Qed.

Lemma within_setitem l k v : within R (setitem l k v).
Proof. apply within_bind; [apply within_load|intros; apply within_store]. Qed.

Lemma within_dict_get_default l k v : within R (dict_get_default l k v).
Proof. apply within_bind; [apply within_load|intros; apply within_ret]. Qed.

Lemma within_py_dict v : within R (py_dict v).
Proof.
  destruct v as [| | |s|l]; try apply within_raise.
  - destruct s; [apply within_new_dict|apply within_raise].
  - apply within_bind; [apply within_load|intros; apply within_new_dict].
Qed.

Lemma within_get_latest_stats : within R get_latest_stats.
Proof.
  unfold get_latest_stats.
  repeat first [ apply within_dict_get_default | apply within_new_dict
               | apply within_py_dict | apply within_bind; [|intros] ].
Qed.

Context (Hticks : ∀ w, R w (set_ticks (S (ticks w)) w)).
Context (Hlog : ∀ w l, R w (set_update_calls l w)).

Lemma within_time_time : within R time_time.
Proof. intros w. apply Hticks. Qed.

Lemma within_log_update f c m : within R (log_update f c m).
Proof. intros w. apply Hlog. Qed.

Lemma within_update fps counts msg : within R (_update_latest_stats fps counts msg).
Proof.
  unfold _update_latest_stats.
  repeat first [ apply within_setitem | apply within_new_dict | apply within_log_update
               | apply within_time_time | apply within_bind; [|intros] ].
  destruct (truthy msg); [|apply within_ret].
  repeat first [ apply within_setitem | apply within_new_dict
               | apply within_time_time | apply within_bind; [|intros] ].
Qed.

Lemma within_set_alert message : within R (_set_alert message).
Proof.
  unfold _set_alert.
  repeat first [ apply within_setitem | apply within_new_dict
               | apply within_time_time | apply within_bind; [|intros] ].
Qed.

Context (Hout : ∀ w l, R w (set_stdout l w)).
Context (Hmodel : ∀ w l, R w (set_model_calls l w)).

Lemma within_print s : within R (print s).
Proof. intros w. apply Hout. Qed.

Lemma within_call_model m f : within R (call_model m f).
Proof. intros w. apply Hmodel. Qed.

Lemma within_alert_policy counts lat : within R (alert_policy counts lat).
Proof.
  unfold alert_policy. destruct counts; [apply within_ret|].
  repeat first [ apply within_time_time | apply within_lift | apply within_print
               | apply within_ret | apply within_bind; [|intros] ].
Qed.

Lemma within_sample l f : within R (sample l f).
Proof.
  unfold sample.
  apply within_bind; [apply within_time_time|intros t0].
  apply within_bind; [apply within_call_model|intros results].
  apply within_bind; [apply within_time_time|intros t1]. cbv zeta.
  apply within_bind; [apply within_lift|intros counts].
  apply within_bind; [apply within_alert_policy|intros [msg lat]].
  apply within_bind; [apply within_update|intros; apply within_ret].
Qed.

Context (h0 : nat).
Context (Hcap : ∀ w c, R w (set_caps (<[h0 := c]> (caps w)) w)).

Lemma within_with_cap {A} (f : capture → A * capture) : within R (with_cap h0 f).
Proof.
  intros w. unfold with_cap. destruct (caps w !! h0) as [c|]; [|apply Hrefl].
  destruct (f c) as [a c']. apply Hcap.
Qed.

Lemma within_run_loop l : cap l = h0 → within R (run_loop l).
Proof.
  intros E. unfold run_loop, loop_iteration, cap_read, cap_release. rewrite E.
  apply within_bind.
  - apply within_bind; [apply within_with_cap|intros [f|]; [|apply within_ret]].
    apply within_bind.
    { destruct (_ =? _)%Z; [apply within_sample|apply within_ret]. }
    intros l1. apply within_bind.
    { destruct (last_results l1); [apply within_lift|apply within_ret]. }
    intros fr. apply within_bind; [apply within_lift|intros; apply within_ret].
  - intros [y|]; [apply within_ret|].
    apply within_bind; [apply within_with_cap|intros; apply within_ret].
Qed.

End Within.

Lemma store_step_refl w : store_step w w.
Proof. unfold store_step. repeat split; done. Qed.

Lemma store_step_trans a b c : store_step a b → store_step b c → store_step a c.
Proof.
  unfold store_step. intros (? & ? & ? & ? & ?) (? & ? & ? & ? & ?).
  repeat split; try congruence. lia.
Qed.

Lemma heap_step_refl w : heap_step w w.
Proof. by destruct w. Qed.

Lemma heap_step_trans a b c : heap_step a b → heap_step b c → heap_step a c.
Proof. unfold heap_step. intros -> ->. by destruct a. Qed.

Lemma store_step_heap w h : store_step w (set_heap h w).
Proof. unfold store_step. simpl. repeat split; done. Qed.

Lemma store_step_ticks w : store_step w (set_ticks (S (ticks w)) w).
Proof. unfold store_step. simpl. repeat split; try done. lia. Qed.

Lemma store_step_log w l : store_step w (set_update_calls l w).
Proof. unfold store_step. simpl. repeat split; done. Qed.

(** X8. The operations on the store never touch the capture
    handles, the detector or standard output, and never set the clock
    back; [get_latest_stats] changes nothing but the heap: it does not
    read the clock. *)
Theorem store_operations_leave_devices w :
  (∀ fps counts msg, store_step w (snd (_update_latest_stats fps counts msg w))) ∧
  (∀ message, store_step w (snd (_set_alert message w))) ∧
  heap_step w (snd (get_latest_stats w)).
Proof.
  split; [|split].
  - intros fps counts msg. revert w.
    apply (within_update store_step store_step_refl store_step_trans
             store_step_heap store_step_ticks store_step_log).
  - intros message. revert w.
    apply (within_set_alert store_step store_step_refl store_step_trans
             store_step_heap store_step_ticks).
  - revert w. apply (within_get_latest_stats heap_step heap_step_refl heap_step_trans).
    intros w h. by destruct w.
Qed.

Lemma stream_step_refl h0 w : stream_step h0 w w.
Proof. by split. Qed.

Lemma stream_step_trans h0 a b c :
  stream_step h0 a b → stream_step h0 b c → stream_step h0 a c.
Proof.
  intros [H1 H2] [H3 H4]. split; [congruence|].
  intros h Hh. rewrite H4, H2; done.
Qed.

Lemma run_loop_stream_step l w : stream_step (cap l) w (snd (run_loop l w)).
Proof.
  revert w.
  apply (within_run_loop (stream_step (cap l)) (stream_step_refl _) (stream_step_trans _))
    with (h0 := cap l); try done.
  intros w c. split; [done|]. intros h Hh. simpl. by rewrite lookup_insert_ne.
Qed.

(** X9. A call of [next] leaves the clock function and the capture
    handles of every other stream as they were: a suspended generator
    touches its own handle only, a new generator opens a handle that was
    not in use; [close] changes nothing at all. *)
Theorem streams_keep_to_their_source g w :
  clock (snd (gen_next g w)) = clock w ∧
  match g with
  | GenCreated _ _ _ =>
      ∀ h, is_Some (caps w !! h) → caps (snd (gen_next g w)) !! h = caps w !! h
  | GenSuspended l =>
      ∀ h, h ≠ cap l → caps (snd (gen_next g w)) !! h = caps w !! h
  | GenClosed => snd (gen_next g w) = w
  end ∧
  snd (gen_close g w) = w.
Proof.
  split; [|split; [|apply gen_close_world]].
  - destruct g as [m src sc|l|]; [rewrite gen_next_created| |done]; cbn [gen_next];
      rewrite finish_world.
    + match goal with |- context [run_loop ?l ?w] =>
        destruct (run_loop_stream_step l w) as [-> _] end. done.
    + by destruct (run_loop_stream_step l w) as [-> _].
  - destruct g as [m src sc|l|]; [rewrite gen_next_created| |done]; cbn [gen_next];
      rewrite finish_world.
    + intros h [c Hc].
      match goal with |- context [run_loop ?l ?w] =>
        destruct (run_loop_stream_step l w) as [_ ->] end; cbn [cap caps set_caps].
      * rewrite lookup_insert_ne; [done|]. intros <-.
        pose proof (is_fresh (dom (caps w))) as Hf.
        apply Hf, elem_of_dom. eauto.
      * intros ->. pose proof (is_fresh (dom (caps w))) as Hf.
        apply Hf, elem_of_dom. eauto.
    + intros h Hh. by destruct (run_loop_stream_step l w) as [_ ->].
Qed.

(** ** Frames, errors and the end of the source *)

Lemma source_step_refl w : source_step w w.
Proof. by destruct w. Qed.

Lemma source_step_set_caps cs w : source_step w (set_caps cs w).
Proof. by destruct w. Qed.

Lemma run_loop_between_samples l w :
  ((frame_count l + 1) mod 6)%Z ≠ 0%Z →
  source_step w (snd (run_loop l w)) ∧
  ∀ c l', fst (run_loop l w) = Ok (Some (c, l')) →
          l' = set_frame_count (frame_count l + 1) l.
Proof.
  intros Hm.
  destruct (caps w !! cap l) as [c0|] eqn:Hc.
  2:{ assert (run_loop l w = (Raise NameError, w)) as ->.
      { unfold run_loop, loop_iteration, cap_read, with_cap.
        rewrite !bind_eq, Hc. reflexivity. }
      split; [apply source_step_refl|]. intros ? ? [=]. }
  destruct (pending c0) as [|f fs] eqn:Hp.
  { rewrite (run_loop_stop l w c0) by done.
    split; [apply source_step_set_caps|]. intros ? ? [=]. }
  rewrite (run_loop_skip l w c0 f fs) by done.
  split; [apply source_step_set_caps|]. intros c l'. cbn [fst].
  destruct (rendered l f); intros [= <- <-]. done.
Qed.

(** X10. On a frame whose number is not a multiple of 6, [next]
    changes nothing but the capture handles: the store, the clock, the
    detector's log, the log of updates and standard output are as before,
    and of the local variables only [frame_count] changes, by one. *)
Theorem frames_between_samples_only_read_the_source l w ev g' w' :
  ((frame_count l + 1) mod 6)%Z ≠ 0%Z →
  gen_next (GenSuspended l) w = (ev, g', w') →
  source_step w w' ∧
  (∀ l', g' = GenSuspended l' → l' = set_frame_count (frame_count l + 1) l).
Proof.
  intros Hm. cbn [gen_next].
  destruct (run_loop_between_samples l w Hm) as [Hw Hl].
  destruct (run_loop l w) as [[[[c l1]|]|e] w1]; cbn [finish fst snd] in *;
    intros [= <- <- <-]; (split; [done|]); intros l' [=]. subst. by eapply Hl.
Qed.

Lemma sample_raise_world l f w e :
  count_boxes (model l) (predict (model l) f) = Raise e →
  sample l f w
  = (Raise e, set_model_calls (f :: model_calls w) (set_ticks (S (S (ticks w))) w)).
Proof.
  intros Hc. destruct w as [h clk tk cp mc uc so].
  unfold sample. rewrite bind_eq. unfold time_time at 1. unfold set_ticks; simpl.
  rewrite bind_eq. unfold call_model at 1. unfold set_model_calls; simpl.
  rewrite bind_eq. unfold time_time at 1. unfold set_ticks; simpl.
  rewrite bind_eq. unfold lift at 1. rewrite Hc. reflexivity.
Qed.

(** X11. When the detector reports, on a sampling frame, a class id
    that [model.names] does not have, [next] raises [KeyError] and the
    generator is finished: the detector has been called and the clock read
    twice, but the store is not updated, nothing is printed, and the
    source is not released. *)
Theorem unknown_class_id_ends_stream l w c f fs b :
  caps w !! cap l = Some c → pending c = f :: fs →
  ((frame_count l + 1) mod 6)%Z = 0%Z →
  In b (all_boxes (predict (model l) f)) → names (model l) !! cls b = None →
  ∃ w',
    gen_next (GenSuspended l) w = (Raised KeyError, GenClosed, w') ∧
    heap w' = heap w ∧ update_calls w' = update_calls w ∧ stdout w' = stdout w ∧
    model_calls w' = f :: model_calls w ∧ ticks w' = S (S (ticks w)) ∧
    caps w' !! cap l = Some (Capture fs (props c) (releases c)) ∧
    gen_next GenClosed w' = (StopIteration, GenClosed, w').
Proof.
  intros Hc Hp Hm Hb Hn.
  pose proof (count_boxes_unnamed _ _ _ Hb Hn) as Hraise.
  eexists. split.
  { cbn [gen_next]. unfold run_loop, loop_iteration.
    rewrite !bind_eq. erewrite cap_read_frame by done.
    cbn [frame_count set_frame_count].
    apply Z.eqb_eq in Hm. rewrite Hm. rewrite !bind_eq.
    rewrite (sample_raise_world _ f _ KeyError) by exact Hraise.
    reflexivity. }
  destruct w as [h clk tk cp mc uc so]. cbn. rewrite Hp.
  repeat (split; [done|]). split; [|done]. apply lookup_insert_eq.
Qed.

Lemma unknown_class_id_ends_stream_witness :
  ∃ w',
    gen_next (GenSuspended (fifth_frame_locals unnamed_model)) sixth_frame_world
      = (Raised KeyError, GenClosed, w') ∧
    heap w' = heap sixth_frame_world ∧
    update_calls w' = update_calls sixth_frame_world ∧
    stdout w' = stdout sixth_frame_world ∧
    model_calls w' = Raw 6 :: model_calls sixth_frame_world ∧
    ticks w' = S (S (ticks sixth_frame_world)) ∧
    caps w' !! 0%nat = Some (Capture [] [] 0) ∧
    gen_next GenClosed w' = (StopIteration, GenClosed, w').
Proof.
  exact (unknown_class_id_ends_stream (fifth_frame_locals unnamed_model) sixth_frame_world
           (Capture [Raw 6] [] 0) (Raw 6) [] (Box 7 (1, 2, 3, 4)%Z 0.8)
           eq_refl eq_refl eq_refl (or_intror (or_introl eq_refl)) eq_refl).
Defined.

Lemma frames_between_samples_only_read_the_source_witness :
  source_step sixth_frame_world
    (snd (gen_next (GenSuspended (Locals blind_model 1 0 0 None 0 0)) sixth_frame_world)).
Proof.
  refine (proj1 (frames_between_samples_only_read_the_source
                   (Locals blind_model 1 0 0 None 0 0) sixth_frame_world _ _ _ _
                   (triple_eta _))).
  discriminate.
Defined.

(** X12. On a source that delivers no frame the first [next] stops
    the iteration: the source is opened, configured and released once,
    and nothing else changes. *)
Theorem empty_source_stops_at_once m sc w :
  gen_next (GenCreated m [] sc) w
  = (StopIteration, GenClosed,
     set_caps (<[fresh (dom (caps w)) :=
                  Capture [] [(CAP_PROP_FPS, 15%Z); (CAP_PROP_BUFFERSIZE, 1%Z)] 1]>
                 (caps w)) w).
Proof.
  rewrite gen_next_created. cbn [gen_next].
  erewrite run_loop_stop; [|cbn; apply lookup_insert_eq|reflexivity].
  cbn [finish cap caps set_caps]. rewrite insert_insert_eq.
  by rewrite set_caps_set_caps.
Qed.

(** ** Delivery *)

Lemma overlay_base l f img : overlay l f = Ok img → base img = base f.
Proof.
  unfold overlay. destruct (last_results l) as [results|].
  - intros H. apply draw_boxes_fold in H as ->. apply base_fold_paint.
  - by intros [= <-].
Qed.

Section Delivery.
Context (m : Model) (source : list image) (sc : Q) (w0 : world) (d0 : pydict).
Context (Hstore : heap w0 !! _latest_stats = Some d0).
Context (Hnames : names_cover m source).
Context (Hfit : boxes_fit m source).
Context (Hsize : resizes sc source).

Lemma run_delivery n :
  (n ≤ length source)%nat →
  ∃ chunks l w,
    run n (GenSuspended (initial_locals m sc w0)) (opened_world source w0)
      = (Yield <$> chunks, GenSuspended l, w) ∧
    loop_inv m source sc (fresh (dom (caps w0))) n l w ∧
    Forall2 (carries sc) chunks (take n source) ∧
    length (model_calls w) = (length (model_calls w0) + n / 6)%nat ∧
    length (update_calls w) = (length (update_calls w0) + n / 6)%nat.
Proof.
  induction n as [|n IH]; intros Hn.
  - exists [], (initial_locals m sc w0), (opened_world source w0).
    split; [reflexivity|]. split; [by eapply loop_inv_initial|].
    split; [constructor|]. cbn. split; lia.
  - destruct IH as (chunks & l & w & Hrun & Hinv & Hall & Hmc & Huc); [lia|].
    destruct (loop_inv_step m source sc _ Hnames Hfit Hsize n l w Hinv)
      as (f & c & d & img & l' & w' & Hf & Hc & Hd & Hnext & Hinv' & Hov & Hcase); [lia|].
    exists (chunks ++ [multipart (Resize img sc sc)])%list, l', w'.
    rewrite run_S, Hrun, Hnext. split; [by rewrite fmap_app|]. split; [done|].
    split.
    { rewrite (take_S_r _ _ _ Hf). apply Forall2_app; [done|].
      constructor; [|constructor]. exists img. split; [done|]. by eapply overlay_base. }
    cbv zeta in Hcase. destruct (Nat.eqb_spec (S n mod 6) 0) as [H6|H6].
    + destruct Hcase as (counts & _ & _ & ->). cbn [sampled_world model_calls update_calls
        world_after_read set_caps length]. split; lia.
    + destruct Hcase as [_ ->]. cbn [model_calls update_calls world_after_read set_caps].
      split; lia.
Qed.

End Delivery.

(** X13. A source whose frames can all be annotated and resized,
    read to its end, gives one chunk per frame, in the order of the
    source, each carrying its own frame resized by [scale]; the detector
    is called and the store updated once for every six frames; then the
    iteration stops, the source is empty and released once. *)
Theorem exhausted_stream_delivers_every_frame m source sc w0 d0 :
  heap w0 !! _latest_stats = Some d0 →
  names_cover m source → boxes_fit m source → resizes sc source →
  ∃ chunks w c,
    run (S (length source)) (GenCreated m source sc) w0
      = ((Yield <$> chunks) ++ [StopIteration], GenClosed, w)%list ∧
    Forall2 (carries sc) chunks source ∧
    length (model_calls w) = (length (model_calls w0) + length source / 6)%nat ∧
    length (update_calls w) = (length (update_calls w0) + length source / 6)%nat ∧
    caps w !! fresh (dom (caps w0)) = Some c ∧ pending c = [] ∧ releases c = 1%nat ∧
    gen_next GenClosed w = (StopIteration, GenClosed, w).
Proof.
  intros Hstore Hnames Hfit Hsize.
  destruct (run_delivery m source sc w0 d0 Hstore Hnames Hfit Hsize (length source))
    as (chunks & l & w & Hrun & Hinv & Hall & Hmc & Huc); [done|].
  destruct (run_exhausted _ _ _ _ _ _ Hinv) as (c & Hc & Hnext).
  rewrite firstn_all in Hall.
  eexists chunks, _, _. rewrite run_created, run_S, Hrun, Hnext.
  split; [reflexivity|]. split; [done|].
  cbn [model_calls update_calls set_caps caps]. split; [done|]. split; [done|].
  rewrite lookup_insert_eq. done.
Qed.

Lemma exhausted_stream_delivers_every_frame_witness :
  ∃ chunks w c,
    run (S (length frames12)) (GenCreated person_model frames12 1) (loaded_world 1)
      = ((Yield <$> chunks) ++ [StopIteration], GenClosed, w)%list ∧
    Forall2 (carries 1) chunks frames12 ∧
    length (model_calls w) = (length (model_calls (loaded_world 1)) + length frames12 / 6)%nat ∧
    length (update_calls w) = (length (update_calls (loaded_world 1)) + length frames12 / 6)%nat ∧
    caps w !! fresh (dom (caps (loaded_world 1))) = Some c ∧ pending c = [] ∧
    releases c = 1%nat ∧
    gen_next GenClosed w = (StopIteration, GenClosed, w).
Proof.
  exact (exhausted_stream_delivers_every_frame person_model frames12 1 (loaded_world 1)
           [("fps", VFloat 0); ("counts", VDict 2%positive);
            ("last_update_ts", VFloat 0); ("alert", VDict 3%positive)]
           eq_refl (person_detector_named _ _ person_model_detects)
           (person_model_fits _) frames12_resize).
Defined.

(** ** The store after a sampling frame *)

Lemma alert_for_cases counts lat ct :
  alert_for counts lat ct = None ∨
  (counts ≠ [] ∧ alert_for counts lat ct = Some (alert_text counts) ∧
   truthy (alert_for counts lat ct) = true).
Proof.
  unfold alert_for. destruct counts as [|x items]; [by left|].
  destruct (Qgtb _ _); [|by left]. right. split; [done|]. split; [done|].
  apply truthy_alert_text.
Qed.

(** X14. After a sampling frame the store holds what the loop
    holds: its [fps] is the loop's [smoothed_fps], its [counts] are the
    counts of the results kept in [last_results]. [last_update_ts] and the
    alert's [ts] are the clock readings made inside
    [_update_latest_stats], later than the [current_time] from which the
    cooldown is measured; without an alert the stored alert is the one of
    before. *)
Theorem store_shows_latest_sample l w ev l' w' fps counts msg s :
  store_shape w →
  read_snapshot (heap w) _latest_stats = Some s →
  gen_next (GenSuspended l) w = (ev, GenSuspended l', w') →
  update_calls w' = (fps, counts, msg) :: update_calls w →
  ∃ results,
    last_results l' = Some results ∧
    count_boxes (model l') results = Ok counts ∧
    fps = smoothed_fps l' ∧
    read_snapshot (heap w') _latest_stats
      = Some (Snapshot (VFloat (smoothed_fps l')) (counts_values counts)
                (VFloat (clock w (ticks w + match counts with [] => 2 | _ => 3 end)))
                (match msg with
                 | Some m => [("message", VStr m); ("ts", VFloat (clock w (ticks w + 4)))]
                 | None => snap_alert s
                 end)) ∧
    (is_Some msg → last_alert_time l' = clock w (ticks w + 2)) ∧
    (msg = None → last_alert_time l' = last_alert_time l).
Proof.
  intros Hshape Hs Hnext Hupd.
  destruct (store_shape_alert w Hshape)
    as (d & la & da & s' & Hd & Ha & Hla & Hne & Hs' & Hda).
  rewrite Hs in Hs'. injection Hs' as <-.
  destruct (gen_next_cases _ _ _ _ _ _ Hd Hnext)
    as [[(_ & Hq & _) _]|(c0 & f & fs & counts0 & Hc0 & Hp & Hm & Hcount & Hw & Hl)].
  { rewrite Hq in Hupd. by apply cons_neq_self in Hupd. }
  cbv zeta in Hw, Hl. specialize (Hl l' eq_refl). subst l' w'.
  rewrite sampled_world_update_calls in Hupd.
  cbn [world_after_read set_caps update_calls clock ticks smoothed_fps last_alert_time
       set_frame_count] in Hupd.
  injection Hupd as Hfps Hcounts Hmsg. subst counts0.
  exists (predict (model l) f).
  cbn [sampled_locals last_results model smoothed_fps last_alert_time set_frame_count
       world_after_read set_caps clock ticks].
  split; [done|]. split; [done|]. split; [done|].
  replace (ticks w + 2)%nat with (S (S (ticks w))) by lia.
  replace (ticks w + 4)%nat with (S (S (S (S (ticks w))))) by lia.
  split; [|split].
  - cbn [sampled_world heap world_after_read set_caps clock ticks smoothed_fps
         last_alert_time set_frame_count].
    rewrite Hmsg, Hfps.
    erewrite read_after_update by eassumption.
    rewrite <- Hfps. do 2 f_equal.
    + f_equal. f_equal. destruct counts; f_equal; lia.
    + unfold alert_after.
      destruct (alert_for_cases counts (last_alert_time l) (clock w (S (S (ticks w)))))
        as [E|(Hne' & E & T)]; subst msg.
      * rewrite E. cbn. by rewrite Hda.
      * rewrite T, E. cbn [default from_option id].
        destruct counts; [done|]. reflexivity.
  - intros [x Hx]. unfold cooldown_after. rewrite Hmsg, Hx. done.
  - intros ->. unfold cooldown_after. by rewrite Hmsg.
Qed.

(** X15. A sampling frame prints the line
    ["Detected <count> <class>(s)"] exactly when something allowed was
    counted, whether or not the cooldown lets an alert through; an alert
    names the same count and class. *)
Theorem detection_line_printed_with_every_count l w d ev g' w' fps counts msg :
  heap w !! _latest_stats = Some d →
  gen_next (GenSuspended l) w = (ev, g', w') →
  update_calls w' = (fps, counts, msg) :: update_calls w →
  match counts with
  | [] => stdout w' = stdout w ∧ msg = None
  | _ :: _ =>
      stdout w' = ("Detected " ++ str_of_int (snd (plurality counts)) ++ " "
                     ++ fst (plurality counts) ++ "(s)") :: stdout w ∧
      (∀ m, msg = Some m →
         m = str_of_int (snd (plurality counts)) ++ " "
               ++ fst (plurality counts) ++ " detected")
  end.
Proof.
  intros Hd Hnext Hupd.
  destruct (gen_next_cases _ _ _ _ _ _ Hd Hnext)
    as [[(_ & Hq & _) _]|(c0 & f & fs & counts0 & Hc0 & Hp & Hm & Hcount & Hw & _)].
  { rewrite Hq in Hupd. by apply cons_neq_self in Hupd. }
  cbv zeta in Hw. subst w'.
  rewrite sampled_world_update_calls in Hupd.
  cbn [world_after_read set_caps update_calls clock ticks smoothed_fps last_alert_time
       set_frame_count] in Hupd.
  injection Hupd as _ Hcounts Hmsg. subst counts0.
  cbn [sampled_world stdout world_after_read set_caps].
  destruct counts as [|x items]; [by subst msg|].
  split; [done|]. intros m' Hm'. subst msg. unfold alert_for in Hm'.
  destruct (Qgtb _ _); [|done]. by injection Hm' as <-.
Qed.

(** ** The published frame rate *)

Lemma py_max_ge a : (1e-6 <= py_max a 1e-6)%Q.
Proof.
  unfold py_max, Qgtb. destruct (Qle_bool 1e-6 a) eqn:E; simpl.
  - by apply Qle_bool_iff in E.
  - apply Qle_refl.
Qed.

Lemma instant_fps_le dt : (instant_fps_of dt <= fps_cap)%Q.
Proof.
  unfold instant_fps_of, fps_cap.
  apply Qle_shift_div_r; [apply py_max_pos|].
  apply Qle_trans with (1000000 * 1e-6)%Q; [discriminate|].
  apply Qmult_le_l; [reflexivity|apply py_max_ge].
Qed.

Lemma smooth_le s i : (s <= fps_cap)%Q → (i <= fps_cap)%Q → (smooth s i <= fps_cap)%Q.
Proof.
  intros Hs Hi. unfold smooth. destruct (Qeq_bool s 0); [done|].
  apply Qle_trans with (0.9 * fps_cap + 0.1 * fps_cap)%Q; [|discriminate].
  apply Qplus_le_compat; apply Qmult_le_l; done.
Qed.

Lemma gen_next_fps_in_range g w ev g' w' :
  store_loaded w → fps_in_range g →
  gen_next g w = (ev, g', w') →
  store_loaded w' ∧ fps_in_range g' ∧
  ∃ new, update_calls w' = (new ++ update_calls w)%list ∧
         Forall (λ e, (0 < logged_fps e)%Q ∧ (logged_fps e <= fps_cap)%Q) new.
Proof.
  assert (Hsusp : ∀ l w ev g' w', store_loaded w → fps_in_range (GenSuspended l) →
    gen_next (GenSuspended l) w = (ev, g', w') →
    store_loaded w' ∧ fps_in_range g' ∧
    ∃ new, update_calls w' = (new ++ update_calls w)%list ∧
           Forall (λ e, (0 < logged_fps e)%Q ∧ (logged_fps e <= fps_cap)%Q) new).
  { clear. intros l w ev g' w' [d Hd] [H0 H1] Hnext.
    destruct (gen_next_cases _ _ _ _ _ _ Hd Hnext)
      as [[(Hh & Hq & _) Hl]|(c0 & f & fs & counts & _ & _ & _ & _ & Hw & Hl)].
    - split; [unfold store_loaded; rewrite Hh; eauto|]. split.
      + destruct g' as [| l' |]; try done. destruct (Hl l' eq_refl) as [-> _]. done.
      + exists []. split; [done|constructor].
    - cbv zeta in Hw, Hl. subst w'.
      set (fps := smooth (smoothed_fps l)
                    (instant_fps_of (clock w (S (ticks w)) - clock w (ticks w)))).
      assert ((0 < fps)%Q ∧ (fps <= fps_cap)%Q) as Hfps.
      { split; [apply smooth_pos; [done|apply instant_fps_pos]|].
        apply smooth_le; [done|apply instant_fps_le]. }
      split; [by eapply heap_after_update_is_Some|]. split.
      + destruct g' as [| l' |]; try done. rewrite (Hl l' eq_refl).
        cbn. split; [apply Qlt_le_weak|]; apply Hfps.
      + eexists [_]. rewrite sampled_world_update_calls. split; [reflexivity|].
        constructor; [|constructor]. exact Hfps. }
  intros Hst Hfps. destruct g as [m src sc|l|].
  - rewrite gen_next_created. intros H. apply Hsusp in H; [exact H|exact Hst|].
    cbn. split; [apply Qle_refl|discriminate].
  - by apply Hsusp.
  - intros [= <- <- <-]. repeat (split; [done|]). exists []. split; [done|constructor].
Qed.

Lemma run_fps_in_range n : ∀ g w evs g' w',
  store_loaded w → fps_in_range g →
  run n g w = (evs, g', w') →
  store_loaded w' ∧ fps_in_range g' ∧
  ∃ new, update_calls w' = (new ++ update_calls w)%list ∧
         Forall (λ e, (0 < logged_fps e)%Q ∧ (logged_fps e <= fps_cap)%Q) new.
Proof.
  induction n as [|n IH]; intros g w evs g' w' Hst Hfps.
  - intros [= <- <- <-]. repeat (split; [done|]). exists []. split; [done|constructor].
  - rewrite run_S. destruct (run n g w) as [[evs1 g1] w1] eqn:Hrun.
    destruct (IH _ _ _ _ _ Hst Hfps Hrun) as (Hst1 & Hfps1 & new1 & Hu1 & Hall1).
    destruct (gen_next g1 w1) as [[ev g2] w2] eqn:Hnext. intros [= <- <- <-].
    destruct (gen_next_fps_in_range _ _ _ _ _ Hst1 Hfps1 Hnext)
      as (Hst2 & Hfps2 & new2 & Hu2 & Hall2).
    repeat (split; [done|]). exists (new2 ++ new1)%list.
    split; [by rewrite Hu2, Hu1, app_assoc|]. by apply Forall_app.
Qed.

(** X16. Every frame rate a generator writes to the store is
    positive and at most 1000000, the bound that [max(infer_dt, 1e-6)]
    sets, and so is the loop's [smoothed_fps] once it is no longer 0. *)
Theorem published_fps_in_range n m source sc w0 evs g w :
  store_loaded w0 →
  run n (GenCreated m source sc) w0 = (evs, g, w) →
  ∃ new,
    update_calls w = (new ++ update_calls w0)%list ∧
    Forall (λ e, (0 < logged_fps e)%Q ∧ (logged_fps e <= 1000000)%Q) new ∧
    ∀ l, g = GenSuspended l → (0 <= smoothed_fps l)%Q ∧ (smoothed_fps l <= 1000000)%Q.
Proof.
  intros Hst Hrun.
  destruct (run_fps_in_range n (GenCreated m source sc) _ _ _ _ Hst I Hrun)
    as (_ & Hfps & new & Hu & Hall).
  exists new. split; [done|]. split; [done|]. by intros l ->.
Qed.

(** ** The chunk of a frame *)

(** X17. A chunk yielded by [next] is the multipart part of the
    next frame of the generator's own source, annotated from
    [last_results] and resized by [scale]; that frame is consumed, and
    [model], [scale] and the capture handle stay the same while
    [frame_count] goes up by one. *)
Theorem yielded_chunk_carries_next_frame l w ch l' w' :
  store_loaded w →
  gen_next (GenSuspended l) w = (Yield ch, GenSuspended l', w') →
  ∃ c0 f fs img,
    caps w !! cap l = Some c0 ∧ pending c0 = f :: fs ∧
    caps w' !! cap l = Some (Capture fs (props c0) (releases c0)) ∧
    overlay l' f = Ok img ∧ base img = base f ∧
    ch = multipart (Resize img (scale l) (scale l)) ∧
    model l' = model l ∧ scale l' = scale l ∧ cap l' = cap l ∧
    frame_count l' = (frame_count l + 1)%Z.
Proof.
  intros [d Hd] Hnext. cbn [gen_next] in Hnext.
  destruct (caps w !! cap l) as [c0|] eqn:Hc.
  2:{ unfold run_loop, loop_iteration, cap_read, with_cap in Hnext.
      rewrite !bind_eq, Hc in Hnext. discriminate. }
  destruct (pending c0) as [|f fs] eqn:Hp.
  { rewrite (run_loop_stop l w c0) in Hnext by done. discriminate. }
  assert (∀ w1, caps w1 = <[cap l := Capture fs (props c0) (releases c0)]> (caps w) →
                caps w1 !! cap l = Some (Capture fs (props c0) (releases c0))) as Hcaps.
  { intros w1 ->. apply lookup_insert_eq. }
  exists c0, f, fs.
  destruct (decide (((frame_count l + 1) mod 6)%Z = 0%Z)) as [Hm|Hm].
  2:{ rewrite (run_loop_skip l w c0 f fs) in Hnext by done.
      destruct (rendered l f) as [out|e] eqn:Hr; [|discriminate].
      apply rendered_inv in Hr as (img & Hov & ->).
      cbn [finish] in Hnext. injection Hnext as <- <- <-. exists img.
      split; [done|]. split; [done|]. split.
      { apply Hcaps. unfold world_after_read. cbn. by rewrite Hp. }
      split; [exact Hov|]. split; [by eapply overlay_base|]. done. }
  destruct (count_boxes (model l) (predict (model l) f)) as [counts|e] eqn:Hn.
  - rewrite (run_loop_sample l w c0 f fs d counts) in Hnext by done.
    destruct (rendered _ f) as [out|e] eqn:Hr; [|discriminate].
    apply rendered_inv in Hr as (img & Hov & ->).
    cbn [finish] in Hnext. injection Hnext as <- <- <-. exists img.
    split; [done|]. split; [done|]. split.
    { apply Hcaps. unfold world_after_read. cbn. by rewrite Hp. }
    split; [exact Hov|]. split; [by eapply overlay_base|]. done.
  - unfold run_loop, loop_iteration in Hnext.
    rewrite !bind_eq in Hnext. erewrite cap_read_frame in Hnext by done.
    cbn [frame_count set_frame_count] in Hnext.
    apply Z.eqb_eq in Hm. rewrite Hm in Hnext. rewrite !bind_eq in Hnext.
    rewrite (sample_raise_world _ f _ e) in Hnext by exact Hn. discriminate.
Qed.

(** ** The class an alert names *)

Lemma count_boxes_get m results counts name :
  count_boxes m results = Ok counts →
  PyDict.get name counts
  = (if (occurrences name (allowed_names m results) =? 0)%Z then None
     else Some (occurrences name (allowed_names m results))).
Proof.
  unfold count_boxes. rewrite for_each_nested. intros H.
  apply (count_flat m _ _ _ H name).
Qed.

Lemma count_boxes_keys m results counts :
  count_boxes m results = Ok counts →
  PyDict.keys counts = first_seen [] (allowed_names m results).
Proof.
  unfold count_boxes. rewrite for_each_nested. intros H.
  apply (keys_flat m _ _ _ H).
Qed.

(** X18. The class the alert names is an allowed class detected
    most often on the frame, its count is the number of its detections,
    and among classes detected equally often it is the one detected
    first. *)
Theorem alert_class_is_most_frequent m results counts :
  count_boxes m results = Ok counts → counts ≠ [] →
  let cls := fst (plurality counts) in
  let n := snd (plurality counts) in
  n = occurrences cls (allowed_names m results) ∧ (1 ≤ n)%Z ∧
  (∀ s, (occurrences s (allowed_names m results) ≤ n)%Z) ∧
  (∀ s, s ≠ cls → occurrences s (allowed_names m results) = n →
     ∃ k1 k2, first_seen [] (allowed_names m results) = (k1 ++ cls :: k2)%list ∧ In s k2).
Proof.
  intros Hc Hne cls n.
  destruct (plurality_spec counts (count_boxes_ok _ _ _ Hc) Hne)
    as (pre & post & Hsplit & Hpre & Hpost & Hget & Hn).
  fold cls n in Hsplit, Hpre, Hpost, Hget, Hn.
  assert (∀ s, (occurrences s (allowed_names m results) ≠ 0)%Z →
               In (s, occurrences s (allowed_names m results)) counts) as Hin.
  { intros s Hs. apply get_Some_in. rewrite (count_boxes_get _ _ _ s Hc).
    by destruct (Z.eqb_spec (occurrences s (allowed_names m results)) 0). }
  split; [|split; [done|split]].
  - rewrite (count_boxes_get _ _ _ cls Hc) in Hget.
    destruct (_ =? _)%Z; [done|]. by injection Hget.
  - intros s. destruct (decide (occurrences s (allowed_names m results) = 0%Z)) as [->|Hs];
      [lia|].
    specialize (Hin s Hs). rewrite Hsplit in Hin.
    apply in_app_or in Hin as [Hin|[Hin|Hin]].
    + apply Hpre in Hin. cbn in Hin. lia.
    + rewrite (surjective_pairing (plurality counts)) in Hin. fold cls n in Hin.
      injection Hin as _ <-. lia.
    + apply Hpost in Hin. cbn in Hin. lia.
  - intros s Hs Heq. exists (PyDict.keys pre), (PyDict.keys post). split.
    + rewrite <- (count_boxes_keys _ _ _ Hc). rewrite Hsplit at 1.
      unfold PyDict.keys. rewrite map_app. reflexivity.
    + assert (occurrences s (allowed_names m results) ≠ 0)%Z as Hnz by lia.
      specialize (Hin s Hnz). rewrite Hsplit in Hin.
      apply in_app_or in Hin as [Hin|[Hin|Hin]].
      * apply Hpre in Hin. cbn in Hin. lia.
      * rewrite (surjective_pairing (plurality counts)) in Hin. fold cls n in Hin.
        injection Hin as <- _. done.
      * unfold PyDict.keys. apply in_map_iff. by exists (s, occurrences s (allowed_names m results)).
Qed.

(** ** A sampling frame of the stub detector *)

Lemma sixth_frame_yield : is_yield (fst (fst sixth_frame)) = true.
Proof. vm_compute. reflexivity. Qed.

Lemma sixth_frame_suspended : is_suspended (snd (fst sixth_frame)) = true.
Proof. vm_compute. reflexivity. Qed.

Lemma sixth_frame_step :
  gen_next (GenSuspended (fifth_frame_locals person_model)) sixth_frame_world
  = (Yield (chunk_of (fst (fst sixth_frame))),
     GenSuspended (locals_of (snd (fst sixth_frame))), snd sixth_frame).
Proof.
  exact (next_eta (GenSuspended (fifth_frame_locals person_model)) _ sixth_frame
           eq_refl eq_refl sixth_frame_yield sixth_frame_suspended).
Qed.

Lemma sixth_frame_update :
  update_calls (snd sixth_frame)
  = (logged_fps (hd (0%Q, [], None) (update_calls (snd sixth_frame))),
     [("person", 1%Z)], Some "1 person detected") :: update_calls sixth_frame_world.
Proof. vm_compute. reflexivity. Qed.

Lemma unknown_class_id_raises_KeyError_witness :
  count_boxes unnamed_model (predict unnamed_model (Raw 1)) = Raise KeyError ∧
  draw_boxes (Raw 1) (predict unnamed_model (Raw 1)) unnamed_model = Raise KeyError.
Proof.
  destruct (proj2 (proj2 (proj2 (proj2 (unknown_class_id_raises_KeyError unnamed_model
                                          (predict unnamed_model (Raw 1)) (Raw 1)))))
              (Box 7 (1, 2, 3, 4)%Z 0.8)) as [H1 H2].
  - right. left. reflexivity.
  - reflexivity.
  - split; [exact H1|]. apply H2.
    intros r b s [<-|[]] Hb _ _. destruct Hb as [<-|[<-|[]]]; reflexivity.
Defined.

Lemma streams_keep_to_their_source_witness :
  caps (snd (gen_next (GenSuspended (fifth_frame_locals person_model)) shared_world)) !! 1%nat
  = caps shared_world !! 1%nat.
Proof.
  apply (proj1 (proj2 (streams_keep_to_their_source
                         (GenSuspended (fifth_frame_locals person_model)) shared_world))).
  discriminate.
Defined.

Lemma store_shows_latest_sample_witness :
  ∃ results,
    last_results (locals_of (snd (fst sixth_frame))) = Some results ∧
    count_boxes (model (locals_of (snd (fst sixth_frame)))) results = Ok [("person", 1%Z)] ∧
    read_snapshot (heap (snd sixth_frame)) _latest_stats
      = Some (Snapshot (VFloat (smoothed_fps (locals_of (snd (fst sixth_frame)))))
                [("person", VInt 1)]
                (VFloat (wall_clock 0.01 3))
                [("message", VStr "1 person detected"); ("ts", VFloat (wall_clock 0.01 4))]).
Proof.
  destruct (store_shows_latest_sample
              (fifth_frame_locals person_model) sixth_frame_world
              (Yield (chunk_of (fst (fst sixth_frame))))
              (locals_of (snd (fst sixth_frame))) (snd sixth_frame)
              (logged_fps (hd (0%Q, [], None) (update_calls (snd sixth_frame))))
              [("person", 1%Z)] (Some "1 person detected")
              (Snapshot (VFloat 0) [] (VFloat 0) [("message", VStr ""); ("ts", VFloat 0)])
              (store_shape_loaded sixth_frame_world eq_refl) eq_refl
              sixth_frame_step sixth_frame_update)
    as (results & H1 & H2 & _ & H3 & _).
  exists results. split; [exact H1|]. split; [exact H2|exact H3].
Defined.

Lemma detection_line_printed_with_every_count_witness :
  stdout (snd sixth_frame) = ["Detected 1 person(s)"].
Proof.
  exact (proj1 (detection_line_printed_with_every_count
                  (fifth_frame_locals person_model) sixth_frame_world
                  [("fps", VFloat 0); ("counts", VDict 2%positive);
                   ("last_update_ts", VFloat 0); ("alert", VDict 3%positive)]
                  (Yield (chunk_of (fst (fst sixth_frame))))
                  (GenSuspended (locals_of (snd (fst sixth_frame)))) (snd sixth_frame)
                  (logged_fps (hd (0%Q, [], None) (update_calls (snd sixth_frame))))
                  [("person", 1%Z)] (Some "1 person detected")
                  eq_refl sixth_frame_step sixth_frame_update)).
Defined.

Lemma published_fps_in_range_witness :
  ∃ new,
    update_calls (world_of (run 12 (GenCreated person_model frames12 1) (loaded_world 0.01)))
      = (new ++ update_calls (loaded_world 0.01))%list ∧
    Forall (λ e, (0 < logged_fps e)%Q ∧ (logged_fps e <= 1000000)%Q) new.
Proof.
  destruct (published_fps_in_range 12 person_model frames12 1 (loaded_world 0.01) _ _ _
              (ex_intro _ _ eq_refl)
              (triple_eta (run 12 (GenCreated person_model frames12 1) (loaded_world 0.01))))
    as (new & H1 & H2 & _).
  exists new. split; [exact H1|exact H2].
Defined.

Lemma yielded_chunk_carries_next_frame_witness :
  ∃ c0 f fs img,
    caps sixth_frame_world !! 0%nat = Some c0 ∧ pending c0 = f :: fs ∧
    chunk_of (fst (fst sixth_frame)) = multipart (Resize img 1 1) ∧ base img = base f.
Proof.
  destruct (yielded_chunk_carries_next_frame
              (fifth_frame_locals person_model) sixth_frame_world
              (chunk_of (fst (fst sixth_frame)))
              (locals_of (snd (fst sixth_frame))) (snd sixth_frame)
              (ex_intro _ _ eq_refl) sixth_frame_step)
    as (c0 & f & fs & img & H1 & H2 & _ & _ & H3 & H4 & _).
  exists c0, f, fs, img. split; [exact H1|]. split; [exact H2|]. split; [exact H4|exact H3].
Defined.

Lemma alert_class_is_most_frequent_witness :
  snd (plurality [("person", 2%Z); ("car", 1%Z)])
  = occurrences (fst (plurality [("person", 2%Z); ("car", 1%Z)]))
      (allowed_names street_model (predict street_model (Raw 1))).
Proof.
  refine (proj1 (alert_class_is_most_frequent street_model (predict street_model (Raw 1))
                   [("person", 2%Z); ("car", 1%Z)] eq_refl _)).
  discriminate.
Defined.

(** ** The store and the log of updates *)

Lemma store_agrees_update fps counts msg w :
  store_loaded w → store_agrees (snd (_update_latest_stats fps counts msg w)).
Proof.
  intros [d Hd]. rewrite (update_run _ _ _ _ _ Hd).
  destruct (heap_after_update_counts fps counts msg (clock w (ticks w))
              (clock w (S (ticks w))) d (heap w) Hd) as (d' & H1 & H2 & H3 & _ & _ & H4).
  exists d', (fresh (dom (heap w))). cbn [snd heap update_calls].
  split; [exact H1|]. split; [exact H2|]. split; [exact H3|].
  split; [by eapply fresh_ne|exact H4].
Qed.

Lemma store_agrees_heap w w' :
  update_calls w' = update_calls w →
  heap w' !! _latest_stats = heap w !! _latest_stats →
  (∀ l x, l ≠ _latest_stats → heap w !! l = Some x → heap w' !! l = Some x) →
  store_agrees w → store_agrees w'.
Proof.
  intros Hu Hs Hold (d & lc & Hd & Hf & Hc & Hne & Hlc).
  exists d, lc. unfold latest_update in *. rewrite Hu, Hs.
  repeat (split; [done|]). by apply Hold.
Qed.

Lemma store_agrees_set_alert message w :
  store_agrees w → store_agrees (snd (_set_alert message w)).
Proof.
  intros (d & lc & Hd & Hf & Hc & Hne & Hlc).
  rewrite (set_alert_run _ _ _ Hd). cbn [snd].
  exists (PyDict.set "alert" (VDict (fresh (dom (heap w)))) d), lc.
  destruct w as [h clk tk cp mc uc so]. unfold latest_update in *.
  cbn [heap update_calls set_heap set_ticks] in *.
  rewrite lookup_insert_eq. split; [done|].
  rewrite !get_set_ne by done. repeat (split; [done|]).
  rewrite lookup_insert_ne by done.
  rewrite lookup_insert_ne; [done|]. by eapply fresh_ne.
Qed.

Lemma store_agrees_read w :
  store_shape w → store_agrees w → store_agrees (snd (get_latest_stats w)).
Proof.
  intros Hshape Hag.
  destruct (store_shape_alert w Hshape) as (d & la & da & s & _ & _ & _ & _ & Hs & _).
  destruct (get_latest_stats_copy _ _ Hs)
    as (r & w' & rc & ra & Hrun & _ & _ & _ & _ & _ & _ & _ & _ & _ & Hold & Hw').
  rewrite Hrun. cbn [snd].
  destruct Hag as (d1 & lc & Hd & Hf & Hc & Hne & Hlc).
  exists d1, lc. unfold latest_update in *. rewrite Hw'. cbn [update_calls set_heap heap].
  split; [by apply Hold|]. repeat (split; [done|]). by apply Hold.
Qed.

Lemma store_agrees_next_suspended l w :
  store_agrees w → store_agrees (snd (gen_next (GenSuspended l) w)).
Proof.
  intros Hag. pose proof Hag as (d & lc & Hd & _).
  destruct (gen_next (GenSuspended l) w) as [[ev g'] w'] eqn:Hnext. cbn [snd].
  destruct (gen_next_cases _ _ _ _ _ _ Hd Hnext)
    as [[(Hh & Hq & _) _]|(c0 & f & fs & counts & _ & _ & _ & _ & Hw & _)].
  - eapply store_agrees_heap; [exact Hq|by rewrite Hh| |exact Hag].
    intros l0 x _. by rewrite Hh.
  - cbv zeta in Hw. subst w'.
    set (l1 := set_frame_count (frame_count l + 1) l).
    set (w1 := world_after_read (cap l) c0 w).
    assert (heap w1 !! _latest_stats = Some d) as Hd1 by exact Hd.
    unfold store_agrees, latest_update. rewrite sampled_world_update_calls.
    cbn [hd logged_fps logged_counts fst snd].
    match goal with |- context [heap (sampled_world l1 f counts d w1)] =>
      change (heap (sampled_world l1 f counts d w1))
        with (heap_after_update
                (smooth (smoothed_fps l1)
                   (instant_fps_of (clock w1 (S (ticks w1)) - clock w1 (ticks w1))))
                counts
                (alert_for counts (last_alert_time l1) (clock w1 (S (S (ticks w1)))))
                (clock w1 match counts with [] => S (S (ticks w1)) | _ => S (S (S (ticks w1))) end)
                (clock w1 (S match counts with [] => S (S (ticks w1)) | _ => S (S (S (ticks w1))) end))
                d (heap w1))
    end.
    destruct (heap_after_update_counts
                (smooth (smoothed_fps l1)
                   (instant_fps_of (clock w1 (S (ticks w1)) - clock w1 (ticks w1))))
                counts
                (alert_for counts (last_alert_time l1) (clock w1 (S (S (ticks w1)))))
                (clock w1 match counts with [] => S (S (ticks w1)) | _ => S (S (S (ticks w1))) end)
                (clock w1 (S match counts with [] => S (S (ticks w1)) | _ => S (S (S (ticks w1))) end))
                d (heap w1) Hd1) as (d' & H1 & H2 & H3 & _ & _ & H4).
    exists d', (fresh (dom (heap w1))).
    split; [exact H1|]. split; [exact H2|]. split; [exact H3|].
    split; [by eapply fresh_ne|exact H4].
Qed.

Lemma store_agrees_act a w :
  store_shape w → store_agrees w → store_agrees (act a w).
Proof.
  intros Hshape Hag. destruct a as [fps counts msg|message| |g|g]; cbn [act].
  - apply store_agrees_update. destruct Hag as (d & _ & Hd & _). by exists d.
  - by apply store_agrees_set_alert.
  - by apply store_agrees_read.
  - destruct g as [m src sc|l|].
    + rewrite gen_next_created.
      apply (store_agrees_next_suspended _ (set_caps _ w)). exact Hag.
    + by apply store_agrees_next_suspended.
    + exact Hag.
  - by rewrite gen_close_world.
Qed.

Lemma store_agrees_acts ops : ∀ w,
  store_shape w → store_agrees w → store_shape (acts ops w) ∧ store_agrees (acts ops w).
Proof.
  induction ops as [|a ops IH]; intros w Hshape Hag; [done|].
  cbn [acts fold_left]. apply IH; [by apply store_shape_act|by apply store_agrees_act].
Qed.

(** X19. After any sequence of the program's actions on the loaded
    module (updates, [_set_alert], reads, [next] and [close] of any
    generators), the [fps] and [counts] of the store are the arguments of
    the latest call of [_update_latest_stats], or the initial [0.0] and
    [{}] when there was none. *)
Theorem store_shows_latest_update w ops :
  heap w = initial_heap → update_calls w = [] →
  ∃ s,
    read_snapshot (heap (acts ops w)) _latest_stats = Some s ∧
    snap_fps s = VFloat (logged_fps (latest_update (acts ops w))) ∧
    snap_counts s = counts_values (logged_counts (latest_update (acts ops w))).
Proof.
  intros Hh Hu.
  assert (store_agrees w) as Hag.
  { exists [("fps", VFloat 0); ("counts", VDict 2%positive);
            ("last_update_ts", VFloat 0); ("alert", VDict 3%positive)], 2%positive.
    unfold latest_update. rewrite Hh, Hu. done. }
  destruct (store_agrees_acts ops w (store_shape_loaded w Hh) Hag) as [Hshape Hag'].
  destruct (store_shape_alert _ Hshape) as (d & la & da & s & Hd & _ & _ & _ & Hs & _).
  exists s. split; [exact Hs|].
  apply read_snapshot_inv in Hs as (d' & lc' & la' & Hd' & Hf' & Hc' & Hlc' & _).
  destruct Hag' as (d1 & lc & Hd1 & Hf & Hc & _ & Hlc).
  rewrite Hd1 in Hd'. injection Hd' as <-.
  rewrite Hf in Hf'. injection Hf' as <-.
  rewrite Hc in Hc'. injection Hc' as <-.
  rewrite Hlc in Hlc'. injection Hlc' as <-. done.
Qed.

Lemma store_shows_latest_update_witness :
  ∃ s,
    read_snapshot
      (heap (acts [ActUpdate 12.5 [("person", 2%Z)] None; ActSetAlert (VStr "manual");
                   ActRead] (loaded_world 1))) _latest_stats = Some s ∧
    snap_fps s
      = VFloat (logged_fps (latest_update
          (acts [ActUpdate 12.5 [("person", 2%Z)] None; ActSetAlert (VStr "manual");
                 ActRead] (loaded_world 1)))) ∧
    snap_counts s
      = counts_values (logged_counts (latest_update
          (acts [ActUpdate 12.5 [("person", 2%Z)] None; ActSetAlert (VStr "manual");
                 ActRead] (loaded_world 1)))).
Proof.
  exact (store_shows_latest_update (loaded_world 1)
           [ActUpdate 12.5 [("person", 2%Z)] None; ActSetAlert (VStr "manual"); ActRead]
           eq_refl eq_refl).
Defined.

(** ** The stream does not read the store *)

Lemma run_loop_heap_indep l w (h2 : gmap loc pydict) :
  store_loaded w → is_Some (h2 !! _latest_stats) →
  fst (run_loop l (set_heap h2 w)) = fst (run_loop l w).
Proof.
  intros [d Hd] [d2 Hd2].
  assert (heap (set_heap h2 w) !! _latest_stats = Some d2) as Hd2' by exact Hd2.
  destruct (caps w !! cap l) as [c0|] eqn:Hc.
  2:{ unfold run_loop, loop_iteration, cap_read, with_cap.
      rewrite !bind_eq. cbn [caps set_heap]. rewrite Hc. reflexivity. }
  assert (caps (set_heap h2 w) !! cap l = Some c0) as Hc' by exact Hc.
  destruct (pending c0) as [|f fs] eqn:Hp.
  { rewrite (run_loop_stop l w c0), (run_loop_stop l (set_heap h2 w) c0); done. }
  destruct (decide (((frame_count l + 1) mod 6)%Z = 0%Z)) as [Hm|Hm].
  2:{ rewrite (run_loop_skip l w c0 f fs), (run_loop_skip l (set_heap h2 w) c0 f fs); done. }
  destruct (count_boxes (model l) (predict (model l) f)) as [counts|e] eqn:Hn.
  - rewrite (run_loop_sample l w c0 f fs d counts),
            (run_loop_sample l (set_heap h2 w) c0 f fs d2 counts); done.
  - unfold run_loop, loop_iteration.
    rewrite !bind_eq. erewrite !cap_read_frame by done.
    cbn [frame_count set_frame_count].
    apply Z.eqb_eq in Hm. rewrite Hm. rewrite !bind_eq.
    rewrite !(sample_raise_world _ f _ e) by exact Hn. reflexivity.
Qed.

Lemma fst_finish r r' :
  fst r = fst r' → fst (finish r) = fst (finish r').
Proof.
  destruct r as [[[[c l]|]|e] w], r' as [[[[c' l']|]|e'] w']; cbn; congruence.
Qed.

Lemma gen_next_heap_indep g w (h2 : gmap loc pydict) :
  store_loaded w → is_Some (h2 !! _latest_stats) →
  fst (gen_next g (set_heap h2 w)) = fst (gen_next g w).
Proof.
  intros Hw H2. destruct g as [m src sc|l|].
  - rewrite !gen_next_created. cbn [gen_next caps set_heap].
    apply fst_finish.
    match goal with |- context [run_loop ?l (set_caps ?c w)] =>
      exact (run_loop_heap_indep l (set_caps c w) h2 Hw H2) end.
  - cbn [gen_next]. by apply fst_finish, run_loop_heap_indep.
  - reflexivity.
Qed.

(** X20. What [next] yields, raises or leaves in the generator's
    local variables does not depend on the contents of the store: any two
    worlds that differ only in their heaps, with [_latest_stats] bound in
    both, give the same event and the same generator state; in
    particular a call of [get_latest_stats] between two frames changes
    nothing for the stream. *)
Theorem stream_ignores_store_contents g w :
  store_shape w →
  (∀ h2 : gmap loc pydict, is_Some (h2 !! _latest_stats) →
     fst (gen_next g (set_heap h2 w)) = fst (gen_next g w)) ∧
  fst (gen_next g (snd (get_latest_stats w))) = fst (gen_next g w).
Proof.
  intros Hshape.
  destruct (store_shape_alert w Hshape) as (d & la & da & s & Hd & _ & _ & _ & Hs & _).
  assert (store_loaded w) as Hw by (by exists d).
  split; [intros h2 H2; by apply gen_next_heap_indep|].
  destruct (get_latest_stats_copy _ _ Hs)
    as (r & w' & rc & ra & Hrun & _ & _ & _ & _ & _ & _ & _ & _ & _ & Hold & Hw').
  rewrite Hrun. cbn [snd]. rewrite Hw'. apply gen_next_heap_indep; [done|].
  exists d. by apply Hold.
Qed.

Lemma stream_ignores_store_contents_witness :
  fst (gen_next (GenSuspended (fifth_frame_locals person_model))
         (snd (get_latest_stats sixth_frame_world)))
  = fst sixth_frame.
Proof.
  exact (proj2 (stream_ignores_store_contents
                         (GenSuspended (fifth_frame_locals person_model)) sixth_frame_world
                         (store_shape_loaded sixth_frame_world eq_refl))).
Defined.
